(** * memlink: the memcached meta-protocol codec, the connection list
      and the connection pool

    A shallow embedding of the Go sources
      codec/memcache/{utils,constants,opaque,metaget,metaset,metaarithmetic,
                      metadelete,version,bulk_op}.go
      internal/net/{tcp_conn,tcp_conn_list,tcp_conn_pool}.go
    followed by the properties established about them.

    Conventions.
    - A Go [string] or [[]byte] is a [list byte].
    - Unsigned and signed machine integers are [Z] with the wrap-around
      written out where the code can reach it.
    - A [*bufio.Reader] is the list of bytes that are still unread, together
      with the size of its internal buffer; a [*bufio.Writer] is the list of
      bytes accepted so far, together with its sticky error.
    - A method with a pointer receiver takes the receiver's value and returns
      the value it leaves behind. *)

From Stdlib Require Import ZArith NArith List Bool Lia.
From Stdlib Require Import Strings.Byte Strings.String.
From Stdlib Require Import Zbitwise.
From Stdlib Require DecimalN DecimalPos.
Import ListNotations.

#[local] Open Scope Z_scope.

#[local] Abbreviation length := Datatypes.length.

(* ------------------------------------------------------------------ *)
(** ** Bytes and byte strings *)

Definition bv (b : byte) : Z := Z.of_N (Byte.to_N b).

Definition bytes (s : string) : list byte := list_byte_of_string s.
Arguments bytes s%_string.

Definition byte_eqb (a b : byte) : bool := Byte.eqb a b.

Fixpoint bytes_eqb (a b : list byte) : bool :=
  match a, b with
  | [], [] => true
  | x :: a', y :: b' => byte_eqb x y && bytes_eqb a' b'
  | _, _ => false
  end.

(** [strings.HasPrefix] / [bytes.HasPrefix]. *)
Fixpoint HasPrefix (s prefix : list byte) {struct prefix} : bool :=
  match prefix, s with
  | [], _ => true
  | p :: prefix', c :: s' => byte_eqb c p && HasPrefix s' prefix'
  | _ :: _, [] => false
  end.

(* ------------------------------------------------------------------ *)
(** ** unicode/utf8 and unicode: what [range] over a string and
       [bytes.Fields] rely on *)

Module utf8.

Definition RuneError : Z := 0xFFFD.
Definition RuneSelf : Z := 0x80.

Definition maskx : Z := 0x3F.
Definition mask2 : Z := 0x1F.
Definition mask3 : Z := 0x0F.
Definition mask4 : Z := 0x07.

Definition locb : Z := 0x80.
Definition hicb : Z := 0xBF.

(* the entries of the [first] table *)
Definition xx : Z := 0xF1.
Definition as_ : Z := 0xF0.
Definition s1 : Z := 0x02.
Definition s2 : Z := 0x13.
Definition s3 : Z := 0x03.
Definition s4 : Z := 0x23.
Definition s5 : Z := 0x34.
Definition s6 : Z := 0x04.
Definition s7 : Z := 0x44.

(** [first[b]]: information about the first byte of an encoding. *)
Definition first (b : Z) : Z :=
  if b <? 0x80 then as_
  else if b <? 0xC2 then xx
  else if b <? 0xE0 then s1
  else if b =? 0xE0 then s2
  else if b <? 0xED then s3
  else if b =? 0xED then s4
  else if b <? 0xF0 then s3
  else if b =? 0xF0 then s5
  else if b <? 0xF4 then s6
  else if b =? 0xF4 then s7
  else xx.

(** [acceptRanges[i]] as a pair (lo, hi). *)
Definition acceptRanges (i : Z) : Z * Z :=
  if i =? 0 then (locb, hicb)
  else if i =? 1 then (0xA0, hicb)
  else if i =? 2 then (locb, 0x9F)
  else if i =? 3 then (0x90, hicb)
  else if i =? 4 then (locb, 0x8F)
  else (0, 0).

(** [utf8.DecodeRune] / [utf8.DecodeRuneInString]: the rune at the head of
    [s] and its width in bytes. *)
Definition DecodeRune (s : list byte) : Z * nat :=
  match s with
  | [] => (RuneError, 0%nat)
  | b0 :: t0 =>
      let c0 := bv b0 in
      let x := first c0 in
      if as_ <=? x then
        (if x =? as_ then c0 else RuneError, 1%nat)
      else
        let sz := Z.land x 7 in
        let '(lo, hi) := acceptRanges (Z.shiftr x 4) in
        match t0 with
        | [] => (RuneError, 1%nat)
        | b1 :: t1 =>
            let c1 := bv b1 in
            if (c1 <? lo) || (hi <? c1) then (RuneError, 1%nat)
            else if sz <=? 2 then
              (Z.lor (Z.shiftl (Z.land c0 mask2) 6) (Z.land c1 maskx), 2%nat)
            else
              match t1 with
              | [] => (RuneError, 1%nat)
              | b2 :: t2 =>
                  let c2 := bv b2 in
                  if (c2 <? locb) || (hicb <? c2) then (RuneError, 1%nat)
                  else if sz <=? 3 then
                    (Z.lor (Z.lor (Z.shiftl (Z.land c0 mask3) 12)
                                  (Z.shiftl (Z.land c1 maskx) 6))
                           (Z.land c2 maskx), 3%nat)
                  else
                    match t2 with
                    | [] => (RuneError, 1%nat)
                    | b3 :: _ =>
                        let c3 := bv b3 in
                        if (c3 <? locb) || (hicb <? c3) then (RuneError, 1%nat)
                        else
                          (Z.lor (Z.lor (Z.lor (Z.shiftl (Z.land c0 mask4) 18)
                                               (Z.shiftl (Z.land c1 maskx) 12))
                                        (Z.shiftl (Z.land c2 maskx) 6))
                                 (Z.land c3 maskx), 4%nat)
                    end
              end
        end
  end.

(** The runes a [for _, c := range s] loop visits, in order.  Each step
    decodes one rune and advances by its width; [fuel] bounds the number of
    steps by the length of the string. *)
Fixpoint rangeFuel (fuel : nat) (s : list byte) : list Z :=
  match fuel, s with
  | S fuel', _ :: _ =>
      let '(r, sz) := DecodeRune s in
      r :: rangeFuel fuel' (skipn sz s)
  | _, _ => []
  end.

Definition range (s : list byte) : list Z := rangeFuel (length s) s.

End utf8.

Module unicode.

(** [unicode.IsSpace]: the Latin-1 spaces, and the White_Space table
    above Latin-1. *)
Definition IsSpace (r : Z) : bool :=
  if (0 <=? r) && (r <=? 0xFF) then
    (r =? 9) || (r =? 10) || (r =? 11) || (r =? 12) || (r =? 13)
    || (r =? 32) || (r =? 0x85) || (r =? 0xA0)
  else
    (r =? 0x1680) || ((0x2000 <=? r) && (r <=? 0x200A))
    || (r =? 0x2028) || (r =? 0x2029) || (r =? 0x202F)
    || (r =? 0x205F) || (r =? 0x3000).

End unicode.

(* ------------------------------------------------------------------ *)
(** ** Errors *)

Inductive connState : Type :=
| Unavailable | Connected | Terminated | Reconnecting | ConnectFailed.

Inductive error : Type :=
(* io / bufio *)
| ErrEOF
| ErrUnexpectedEOF
| ErrBufferFull
| ErrWriter (code : Z)
(* utils.go *)
| ErrExpectedCR (got : byte)
| ErrExpectedNL (got : byte)
| ErrExpectedM (got : byte)
| ErrExpectedN (got : byte)
| ErrInvalidKey (key : list byte)
(* strconv.NumError *)
| ErrSyntax (s : list byte)
| ErrRange (s : list byte)
(* fmt.Errorf("...: %w", token, err) in the decoders *)
| ErrWrap (decoder what : string) (token : list byte) (inner : error)
(* version.go *)
| errNonVersionResp
(* internal/net *)
| errConnChangingState
| errOutboundQueueFull
| ErrNotConnected (st : connState)
| ErrBackendUnhealthy (attempts : Z).

(* ------------------------------------------------------------------ *)
(** ** bufio.Writer and bytes.Buffer *)

Record Writer : Type := mkWriter {
  wout : list byte;        (* everything accepted so far, in order *)
  werr : option error      (* bufio.Writer's sticky error *)
}.

(** [bufio.Writer.Write]: refuses when an earlier write failed, otherwise
    accepts all of [p]. *)
Definition Writer_Write (w : Writer) (p : list byte) : Writer * option error :=
  match werr w with
  | Some e => (w, Some e)
  | None => (mkWriter (wout w ++ p) None, None)
  end.

(* ------------------------------------------------------------------ *)
(** ** strconv: decimal output *)

Module strconv_fmt.

Fixpoint uint_bytes (d : Decimal.uint) : list byte :=
  match d with
  | Decimal.Nil => []
  | Decimal.D0 d' => x30 :: uint_bytes d'
  | Decimal.D1 d' => x31 :: uint_bytes d'
  | Decimal.D2 d' => x32 :: uint_bytes d'
  | Decimal.D3 d' => x33 :: uint_bytes d'
  | Decimal.D4 d' => x34 :: uint_bytes d'
  | Decimal.D5 d' => x35 :: uint_bytes d'
  | Decimal.D6 d' => x36 :: uint_bytes d'
  | Decimal.D7 d' => x37 :: uint_bytes d'
  | Decimal.D8 d' => x38 :: uint_bytes d'
  | Decimal.D9 d' => x39 :: uint_bytes d'
  end.

(** [strconv.AppendUint(nil, n, 10)] *)
Definition AppendUint (n : Z) : list byte := uint_bytes (N.to_uint (Z.to_N n)).

(** [strconv.AppendInt(nil, n, 10)] *)
Definition AppendInt (n : Z) : list byte :=
  if n <? 0 then x2d :: AppendUint (- n) else AppendUint n.

End strconv_fmt.

(* ------------------------------------------------------------------ *)
(** ** utils.go: the key validator and the token writers *)

Definition Space : byte := x20.
Definition CRLF : list byte := [x0d; x0a].

(** [isLegalMemcacheKey]: at most 250 bytes, and no rune of the key is a
    control character, a space or DEL. *)
Definition isLegalMemcacheKey (key : list byte) : bool :=
  if (250 <? length key)%nat then false
  else forallb (fun c => negb ((c <=? 0x20) || (c =? 0x7f))) (utf8.range key).

(** The scratch [*bytes.Buffer] of an encoder is the list of bytes written to
    it so far. *)
Definition writeKey (b : list byte) (key : list byte) : list byte * option error :=
  if negb (isLegalMemcacheKey key) then (b, Some (ErrInvalidKey key))
  else (b ++ key ++ [Space], None).

Definition writeUintToken (letter : byte) (b : list byte) (v : Z) : list byte :=
  b ++ [letter] ++ strconv_fmt.AppendUint v ++ [Space].

Definition writeIntToken (letter : byte) (b : list byte) (v : Z) : list byte :=
  b ++ [letter] ++ strconv_fmt.AppendInt v ++ [Space].

Arguments writeUintToken letter%_byte b v.
Arguments writeIntToken letter%_byte b v.

Definition writeOpaque (b : list byte) (opaque : Z) : list byte :=
  if negb (opaque =? 0) then writeUintToken "O" b opaque else b.

Definition writeCasId (b : list byte) (casId : Z) : list byte :=
  if negb (casId =? 0) then writeUintToken "C" b casId else b.

Definition writeCasOverride (b : list byte) (override : Z) : list byte :=
  if negb (override =? 0) then writeUintToken "E" b override else b.

Definition writeClientFlags (b : list byte) (clientFlags : Z) : list byte :=
  if 0 <? clientFlags then writeUintToken "F" b clientFlags else b.

Definition writeTTL (b : list byte) (ttl : Z) : list byte :=
  if 0 <=? ttl then writeIntToken "T" b ttl else b.

Definition writeBlockTTL (b : list byte) (blockTTL : Z) : list byte :=
  if 0 <=? blockTTL then writeIntToken "N" b blockTTL else b.

Definition writeRecacheTTL (b : list byte) (recacheTTL : Z) : list byte :=
  if 0 <=? recacheTTL then writeIntToken "R" b recacheTTL else b.

Definition writeInitialValue (b : list byte) (initialValue : Z) : list byte :=
  if negb (initialValue =? 0) then writeUintToken "J" b initialValue else b.

Definition writeDelta (b : list byte) (delta : Z) : list byte :=
  writeUintToken "D" b delta.

(** [if flag { b.Write(tok) }] *)
Definition writeIf (flag : bool) (b : list byte) (tok : string) : list byte :=
  if flag then b ++ bytes tok else b.

(* ------------------------------------------------------------------ *)
(** ** bufio.Reader and io.ReadFull *)

Record Reader : Type := mkReader {
  bufSize : nat;            (* len(b.buf): 4096 for bufio.NewReader *)
  unread : list byte        (* what the stream still holds, in order *)
}.

Definition defaultBufSize : nat := 4096.
Definition NewReader (stream : list byte) : Reader := mkReader defaultBufSize stream.

(** Position of the first [delim] in [s]. *)
Fixpoint IndexByte (s : list byte) (delim : byte) : option nat :=
  match s with
  | [] => None
  | c :: s' => if byte_eqb c delim then Some 0%nat
               else option_map S (IndexByte s' delim)
  end.

Definition Reader_ReadByte (r : Reader) : Reader * (byte + error) :=
  match unread r with
  | [] => (r, inr ErrEOF)
  | c :: rest => (mkReader (bufSize r) rest, inl c)
  end.

(** [ReadSlice]: the line up to and including [delim] when the delimiter
    shows up within one buffer; [ErrBufferFull] when the buffer fills first;
    the error of the stream (end of input) otherwise.  The bytes handed back
    are consumed in every case. *)
Definition Reader_ReadSlice (r : Reader) (delim : byte)
  : Reader * list byte * option error :=
  let s := unread r in
  match IndexByte s delim with
  | Some i =>
      if (i <? bufSize r)%nat
      then (mkReader (bufSize r) (skipn (S i) s), firstn (S i) s, None)
      else (mkReader (bufSize r) (skipn (bufSize r) s), firstn (bufSize r) s,
            Some ErrBufferFull)
  | None =>
      if (bufSize r <=? length s)%nat
      then (mkReader (bufSize r) (skipn (bufSize r) s), firstn (bufSize r) s,
            Some ErrBufferFull)
      else (mkReader (bufSize r) [], s, Some ErrEOF)
  end.

(** [ReadString]: like [ReadSlice] but collecting full buffers, so only the
    end of the stream stops it short of the delimiter. *)
Definition Reader_ReadString (r : Reader) (delim : byte)
  : Reader * list byte * option error :=
  let s := unread r in
  match IndexByte s delim with
  | Some i => (mkReader (bufSize r) (skipn (S i) s), firstn (S i) s, None)
  | None => (mkReader (bufSize r) [], s, Some ErrEOF)
  end.

(** [io.ReadFull(reader, buf)] with [len(buf) = n]: the new contents of
    [buf], the number of bytes read and the error. *)
Definition ReadFull (r : Reader) (n : nat)
  : Reader * list byte * nat * option error :=
  let s := unread r in
  if (n <=? length s)%nat then
    (mkReader (bufSize r) (skipn n s), firstn n s, n, None)
  else
    (mkReader (bufSize r) [], s ++ repeat x00 (n - length s),
     length s,
     Some (match s with [] => ErrEOF | _ => ErrUnexpectedEOF end)).

(** [ReadCLRF]: the next two bytes must be "\r\n". *)
Definition ReadCLRF (reader : Reader) : Reader * option error :=
  match Reader_ReadByte reader with
  | (r1, inr err) => (r1, Some err)
  | (r1, inl cr) =>
      if negb (byte_eqb cr x0d) then (r1, Some (ErrExpectedCR cr))
      else
        match Reader_ReadByte r1 with
        | (r2, inr err) => (r2, Some err)
        | (r2, inl nl) =>
            if negb (byte_eqb nl x0a) then (r2, Some (ErrExpectedNL nl))
            else (r2, None)
        end
  end.

(** [ReadMNResp]: the next four bytes must be "MN\r\n".  (The message for a
    wrong second byte prints the first byte, as the source does.) *)
Definition ReadMNResp (reader : Reader) : Reader * option error :=
  match Reader_ReadByte reader with
  | (r1, inr err) => (r1, Some err)
  | (r1, inl m) =>
      if negb (byte_eqb m "M") then (r1, Some (ErrExpectedM m))
      else
        match Reader_ReadByte r1 with
        | (r2, inr err) => (r2, Some err)
        | (r2, inl n) =>
            if negb (byte_eqb n "N") then (r2, Some (ErrExpectedN m))
            else ReadCLRF r2
        end
  end.

(* ------------------------------------------------------------------ *)
(** ** strconv: decimal input *)

Module strconv.

Definition isDigit (c : byte) : bool := (0x30 <=? bv c) && (bv c <=? 0x39).

(** The digit loop of [ParseUint] in base 10: a byte that is no digit is a
    syntax error, a value beyond [maxVal] a range error, whichever comes
    first. *)
Fixpoint parseUintLoop (s0 : list byte) (maxVal : Z) (n : Z) (s : list byte)
  : Z + error :=
  match s with
  | [] => inl n
  | c :: s' =>
      if negb (isDigit c) then inr (ErrSyntax s0)
      else if (2 ^ 64 - 1) / 10 + 1 <=? n then inr (ErrRange s0)
      else
        let n1 := n * 10 + (bv c - 0x30) in
        if (2 ^ 64 - 1 <? n1) || (maxVal <? n1) then inr (ErrRange s0)
        else parseUintLoop s0 maxVal n1 s'
  end.

(** [strconv.ParseUint(s, 10, bitSize)] *)
Definition ParseUint (s : list byte) (bitSize : Z) : Z + error :=
  match s with
  | [] => inr (ErrSyntax s)
  | _ => parseUintLoop s (2 ^ bitSize - 1) 0 s
  end.

(** [strconv.ParseInt(s, 10, bitSize)] *)
Definition ParseInt (s : list byte) (bitSize : Z) : Z + error :=
  match s with
  | [] => inr (ErrSyntax s)
  | c :: s' =>
      let neg := byte_eqb c "-" in
      let digits := if byte_eqb c "+" || neg then s' else s in
      let cutoff := 2 ^ (bitSize - 1) in
      match ParseUint digits bitSize with
      | inr (ErrRange _) => inr (ErrRange s)
      | inr _ => inr (ErrSyntax s)
      | inl un =>
          if negb neg && (cutoff <=? un) then inr (ErrRange s)
          else if neg && (cutoff <? un) then inr (ErrRange s)
          else inl (if neg then - un else un)
      end
  end.

(** [strconv.Atoi]: [int] is 64 bits wide; the short-string fast path
    computes what [ParseInt(s, 10, 0)] computes. *)
Definition Atoi (s : list byte) : Z + error := ParseInt s 64.

End strconv.

(* ------------------------------------------------------------------ *)
(** ** bytes.Fields *)

Definition emitField (cur : list byte) : list (list byte) :=
  match cur with [] => [] | _ => [cur] end.

(** The loop of [bytes.FieldsFunc(s, unicode.IsSpace)], which is what
    [bytes.Fields] computes (its ASCII fast path splits at the same places):
    [cur] is the field being collected, empty when no span is open. *)
Fixpoint FieldsFuel (fuel : nat) (s cur : list byte) : list (list byte) :=
  match fuel, s with
  | S fuel', b0 :: _ =>
      let '(r, size) :=
        if bv b0 <? utf8.RuneSelf then (bv b0, 1%nat) else utf8.DecodeRune s in
      if unicode.IsSpace r
      then emitField cur ++ FieldsFuel fuel' (skipn size s) []
      else FieldsFuel fuel' (skipn size s) (cur ++ firstn size s)
  | _, _ => emitField cur
  end.

Definition Fields (s : list byte) : list (list byte) := FieldsFuel (length s) s [].

(* ------------------------------------------------------------------ *)
(** ** constants.go *)

Inductive RecacheStatus : Type := RecacheNotSet | RecacheWon | RecacheAlreadySent.

Inductive MetadataStatus : Type :=
| MetadataStatusInvalid | CacheHit | CacheMiss | NotFound | NotStored
| Exists | Stored | Deleted.

Definition MetadataStatus_eqb (a b : MetadataStatus) : bool :=
  match a, b with
  | MetadataStatusInvalid, MetadataStatusInvalid | CacheHit, CacheHit
  | CacheMiss, CacheMiss | NotFound, NotFound | NotStored, NotStored
  | Exists, Exists | Stored, Stored | Deleted, Deleted => true
  | _, _ => false
  end.

Definition CacheMissHeader := bytes "EN".
Definition Header := bytes "HD".
Definition ValueHeader := bytes "VA".
Definition NotFoundHeader := bytes "NF".
Definition ExistsHeader := bytes "EX".
Definition NotStoredHeader := bytes "NS".
Definition NoOpRequest := bytes "mn" ++ CRLF.
Definition NoOpResponse := bytes "MN" ++ CRLF.

Definition MetaGetStatusFromHeader (hdrPrefix : list byte) : MetadataStatus :=
  if bytes_eqb hdrPrefix CacheMissHeader then CacheMiss
  else if bytes_eqb hdrPrefix Header then CacheHit
  else if bytes_eqb hdrPrefix ValueHeader then CacheHit
  else MetadataStatusInvalid.

Definition MetaSetStatusFromHeader (hdrPrefix : list byte) : MetadataStatus :=
  if bytes_eqb hdrPrefix Header then Stored
  else if bytes_eqb hdrPrefix NotStoredHeader then NotStored
  else if bytes_eqb hdrPrefix ExistsHeader then Exists
  else if bytes_eqb hdrPrefix NotFoundHeader then NotFound
  else MetadataStatusInvalid.

Definition ArithmeticStatusFromHeader (hdrPrefix : list byte) : MetadataStatus :=
  if bytes_eqb hdrPrefix Header then Stored
  else if bytes_eqb hdrPrefix ValueHeader then Stored
  else if bytes_eqb hdrPrefix NotStoredHeader then NotStored
  else if bytes_eqb hdrPrefix ExistsHeader then Exists
  else if bytes_eqb hdrPrefix NotFoundHeader then NotFound
  else MetadataStatusInvalid.

Definition MetaDeleteStatusFromHeader (hdrPrefix : list byte) : MetadataStatus :=
  if bytes_eqb hdrPrefix Header then Deleted
  else if bytes_eqb hdrPrefix ExistsHeader then Exists
  else if bytes_eqb hdrPrefix NotFoundHeader then NotFound
  else if bytes_eqb hdrPrefix NotStoredHeader then NotStored
  else MetadataStatusInvalid.

(** Indexing an empty slice ([elem[0]]) is a run-time panic, not a returned
    error; the model keeps it apart from every error the code builds. *)
Inductive outcome : Type :=
| Returned (err : option error)
| PanicIndexOutOfRange.

(** What one iteration of a header-token loop does: go on to the next token
    or leave [Decode]. *)
Inductive step (D : Type) : Type :=
| Next (d : D) (valueSize : Z)
| Leave (d : D) (res : outcome).
Arguments Next {D} d valueSize.
Arguments Leave {D} d res.

(** [for idx, elem := range bytes.Fields(hdrLine)], from [idx = 1] on. *)
Fixpoint tokenLoop {D : Type} (body : D -> Z -> list byte -> step D)
    (d : D) (valueSize : Z) (elems : list (list byte)) : step D :=
  match elems with
  | [] => Next d valueSize
  | elem :: elems' =>
      match body d valueSize elem with
      | Next d' valueSize' => tokenLoop body d' valueSize' elems'
      | Leave d' res => Leave d' res
      end
  end.

(* ------------------------------------------------------------------ *)
(** ** metaget.go *)

Module metaget.

Record MetaGetEncoder : Type := mkEncoder {
  Key : list byte;
  Base64EncodedKey : bool;
  FetchCasId : bool;
  FetchClientFlags : bool;
  FetchItemHitBefore : bool;
  FetchKey : bool;
  FetchLastAccessedTime : bool;
  Opaque : Z;
  FetchItemSizeInBytes : bool;
  FetchRemainingTTL : bool;
  PreventLRUBump : bool;
  FetchValue : bool;
  CasOverride : Z;
  BlockTTL : Z;
  RecacheTTL : Z;
  UpdateTTL : Z
}.

(** [Reset] on a non-nil encoder *)
Definition Reset (e : MetaGetEncoder) : MetaGetEncoder :=
  mkEncoder [] false false false false false false 0 false false false false
            0 (-1) (-1) (-1).

Definition Encode (e : MetaGetEncoder) (writer : Writer) : Writer * option error :=
  let b := bytes "mg " in
  match writeKey b (Key e) with
  | (_, Some keyErr) => (writer, Some keyErr)
  | (b, None) =>
      let b := writeIf (Base64EncodedKey e) b "b " in
      let b := writeIf (FetchCasId e) b "c " in
      let b := writeIf (FetchClientFlags e) b "f " in
      let b := writeIf (FetchItemHitBefore e) b "h " in
      let b := writeIf (FetchKey e) b "k " in
      let b := writeIf (FetchLastAccessedTime e) b "l " in
      let b := writeIf (FetchItemSizeInBytes e) b "s " in
      let b := writeCasOverride b (CasOverride e) in
      let b := writeRecacheTTL b (RecacheTTL e) in
      let b := writeBlockTTL b (BlockTTL e) in
      let b := writeTTL b (UpdateTTL e) in
      let b := writeIf (FetchRemainingTTL e) b "t " in
      let b := writeIf (PreventLRUBump e) b "u " in
      let b := writeIf (FetchValue e) b "v " in
      let b := writeOpaque b (Opaque e) in
      let b := b ++ CRLF in
      Writer_Write writer b
  end.

Record MetaGetDecoder : Type := mkDecoder {
  Status : MetadataStatus;
  Recache : RecacheStatus;
  Value : option (list byte);       (* [None] is the nil slice *)
  CasId : Z;
  RemainingTTLSeconds : Z;
  ClientFlags : Z;
  dOpaque : Z;
  IsItemHitBefore : bool;
  ItemKey : list byte;
  ItemSizeInBytes : Z;
  TimeSinceLastAccessedSeconds : Z;
  Stale : bool;
  HdrLine : list byte
}.

Definition DecoderReset (d : MetaGetDecoder) : MetaGetDecoder :=
  mkDecoder MetadataStatusInvalid RecacheNotSet None 0 0 0 0 false [] 0 0 false [].

Definition setStatus d v := mkDecoder v (Recache d) (Value d) (CasId d)
  (RemainingTTLSeconds d) (ClientFlags d) (dOpaque d) (IsItemHitBefore d)
  (ItemKey d) (ItemSizeInBytes d) (TimeSinceLastAccessedSeconds d) (Stale d) (HdrLine d).
Definition setRecache d v := mkDecoder (Status d) v (Value d) (CasId d)
  (RemainingTTLSeconds d) (ClientFlags d) (dOpaque d) (IsItemHitBefore d)
  (ItemKey d) (ItemSizeInBytes d) (TimeSinceLastAccessedSeconds d) (Stale d) (HdrLine d).
Definition setValue d v := mkDecoder (Status d) (Recache d) v (CasId d)
  (RemainingTTLSeconds d) (ClientFlags d) (dOpaque d) (IsItemHitBefore d)
  (ItemKey d) (ItemSizeInBytes d) (TimeSinceLastAccessedSeconds d) (Stale d) (HdrLine d).
Definition setCasId d v := mkDecoder (Status d) (Recache d) (Value d) v
  (RemainingTTLSeconds d) (ClientFlags d) (dOpaque d) (IsItemHitBefore d)
  (ItemKey d) (ItemSizeInBytes d) (TimeSinceLastAccessedSeconds d) (Stale d) (HdrLine d).
Definition setRemainingTTLSeconds d v := mkDecoder (Status d) (Recache d) (Value d) (CasId d)
  v (ClientFlags d) (dOpaque d) (IsItemHitBefore d)
  (ItemKey d) (ItemSizeInBytes d) (TimeSinceLastAccessedSeconds d) (Stale d) (HdrLine d).
Definition setClientFlags d v := mkDecoder (Status d) (Recache d) (Value d) (CasId d)
  (RemainingTTLSeconds d) v (dOpaque d) (IsItemHitBefore d)
  (ItemKey d) (ItemSizeInBytes d) (TimeSinceLastAccessedSeconds d) (Stale d) (HdrLine d).
Definition setOpaque d v := mkDecoder (Status d) (Recache d) (Value d) (CasId d)
  (RemainingTTLSeconds d) (ClientFlags d) v (IsItemHitBefore d)
  (ItemKey d) (ItemSizeInBytes d) (TimeSinceLastAccessedSeconds d) (Stale d) (HdrLine d).
Definition setIsItemHitBefore d v := mkDecoder (Status d) (Recache d) (Value d) (CasId d)
  (RemainingTTLSeconds d) (ClientFlags d) (dOpaque d) v
  (ItemKey d) (ItemSizeInBytes d) (TimeSinceLastAccessedSeconds d) (Stale d) (HdrLine d).
Definition setItemKey d v := mkDecoder (Status d) (Recache d) (Value d) (CasId d)
  (RemainingTTLSeconds d) (ClientFlags d) (dOpaque d) (IsItemHitBefore d)
  v (ItemSizeInBytes d) (TimeSinceLastAccessedSeconds d) (Stale d) (HdrLine d).
Definition setItemSizeInBytes d v := mkDecoder (Status d) (Recache d) (Value d) (CasId d)
  (RemainingTTLSeconds d) (ClientFlags d) (dOpaque d) (IsItemHitBefore d)
  (ItemKey d) v (TimeSinceLastAccessedSeconds d) (Stale d) (HdrLine d).
Definition setTimeSinceLastAccessedSeconds d v := mkDecoder (Status d) (Recache d) (Value d) (CasId d)
  (RemainingTTLSeconds d) (ClientFlags d) (dOpaque d) (IsItemHitBefore d)
  (ItemKey d) (ItemSizeInBytes d) v (Stale d) (HdrLine d).
Definition setStale d v := mkDecoder (Status d) (Recache d) (Value d) (CasId d)
  (RemainingTTLSeconds d) (ClientFlags d) (dOpaque d) (IsItemHitBefore d)
  (ItemKey d) (ItemSizeInBytes d) (TimeSinceLastAccessedSeconds d) v (HdrLine d).
Definition setHdrLine d v := mkDecoder (Status d) (Recache d) (Value d) (CasId d)
  (RemainingTTLSeconds d) (ClientFlags d) (dOpaque d) (IsItemHitBefore d)
  (ItemKey d) (ItemSizeInBytes d) (TimeSinceLastAccessedSeconds d) (Stale d) v.

Definition wrap (what : string) (elem : list byte) (pErr : error) : outcome :=
  Returned (Some (ErrWrap "meta_get::decoder" what elem pErr)).

(** The body of the token loop for [idx >= 1]. *)
Definition token (d : MetaGetDecoder) (valueSize : Z) (elem : list byte)
  : step MetaGetDecoder :=
  match elem with
  | [] => Leave d PanicIndexOutOfRange
  | c :: rest =>
      if (valueSize =? -1) && strconv.isDigit c then
        match strconv.Atoi elem with
        | inr pErr => Leave d (Returned (Some pErr))
        | inl v => Next d v
        end
      else if (length elem =? 1)%nat then
        if byte_eqb c "W" then Next (setRecache d RecacheWon) valueSize
        else if byte_eqb c "X" then Next (setStale d true) valueSize
        else if byte_eqb c "Z" then Next (setRecache d RecacheAlreadySent) valueSize
        else Next d valueSize
      else if byte_eqb c "O" then
        match strconv.ParseUint rest 64 with
        | inr pErr => Leave d (wrap "opaque token" elem pErr)
        | inl o => Next (setOpaque d o) valueSize
        end
      else if byte_eqb c "t" then
        match strconv.ParseInt rest 32 with
        | inr pErr => Leave d (wrap "ttl" elem pErr)
        | inl t => Next (setRemainingTTLSeconds d t) valueSize
        end
      else if byte_eqb c "c" then
        match strconv.ParseUint rest 64 with
        | inr pErr => Leave d (wrap "casid" elem pErr)
        | inl v => Next (setCasId d v) valueSize
        end
      else if byte_eqb c "f" then
        match strconv.ParseUint rest 64 with
        | inr pErr => Leave d (wrap "cft" elem pErr)
        | inl f => Next (setClientFlags d f) valueSize
        end
      else if byte_eqb c "h" then
        if bytes_eqb rest (bytes "1")
        then Next (setIsItemHitBefore d true) valueSize
        else Next d valueSize
      else if byte_eqb c "k" then Next (setItemKey d rest) valueSize
      else if byte_eqb c "s" then
        match strconv.ParseUint rest 64 with
        | inr pErr => Leave d (wrap "item size" elem pErr)
        | inl v => Next (setItemSizeInBytes d v) valueSize
        end
      else if byte_eqb c "l" then
        match strconv.ParseUint rest 32 with
        | inr pErr => Leave d (wrap "last access" elem pErr)
        | inl l => Next (setTimeSinceLastAccessedSeconds d l) valueSize
        end
      else Next d valueSize
  end.

(** The whole loop over [bytes.Fields(hdrLine)]: the first field is the
    status word. *)
Definition header (d : MetaGetDecoder) (hdrLine : list byte)
  : step MetaGetDecoder :=
  match Fields hdrLine with
  | [] => Next d (-1)
  | elem :: elems =>
      let d := setStatus d (MetaGetStatusFromHeader elem) in
      if MetadataStatus_eqb (Status d) MetadataStatusInvalid
      then Leave (setHdrLine d hdrLine) (Returned None)
      else tokenLoop token d (-1) elems
  end.

Definition Decode (d : MetaGetDecoder) (reader : Reader)
  : MetaGetDecoder * Reader * outcome :=
  match Reader_ReadSlice reader x0a with
  | (reader, _, Some err) => (d, reader, Returned (Some err))
  | (reader, hdrLine, None) =>
      match header d hdrLine with
      | Leave d res => (d, reader, res)
      | Next d valueSize =>
          if 0 <=? valueSize then
            match ReadFull reader (Z.to_nat valueSize) with
            | (reader, buf, _, Some rfErr) =>
                (setValue d (Some buf), reader, Returned (Some rfErr))
            | (reader, buf, bytesRead, None) =>
                (* [bytesRead != valueSize] cannot hold once ReadFull
                   returned no error *)
                let d := setValue d (Some buf) in
                let '(reader, err) := ReadCLRF reader in
                (d, reader, Returned err)
            end
          else (d, reader, Returned None)
      end
  end.

End metaget.

(* ------------------------------------------------------------------ *)
(** ** metaset.go *)

Module metaset.

(** [MetaSetMode] is a string type; any string other than the four named
    ones selects the normal set mode. *)
Definition MetaSetMode := list byte.
Definition Add : MetaSetMode := bytes "add".
Definition Replace : MetaSetMode := bytes "replace".
Definition Append : MetaSetMode := bytes "append".
Definition Prepend : MetaSetMode := bytes "prepend".

Record MetaSetEncoder : Type := mkEncoder {
  Key : list byte;
  Value : list byte;
  Base64EncodedKey : bool;
  FetchCasId : bool;
  CasId : Z;
  CasOverride : Z;
  ClientFlags : Z;
  Invalidate : bool;
  FetchKey : bool;
  FetchItemSize : bool;
  TTL : Z;
  Opaque : Z;
  Mode : MetaSetMode;
  BlockTTL : Z
}.

Definition Reset (e : MetaSetEncoder) : MetaSetEncoder :=
  mkEncoder [] [] false false 0 0 0 false false false (-1) 0 [] (-1).

(** [switch e.Mode { ... }] *)
Definition writeMode (b : list byte) (mode : MetaSetMode) : list byte :=
  if bytes_eqb mode Add then b ++ bytes "ME "
  else if bytes_eqb mode Append then b ++ bytes "MA "
  else if bytes_eqb mode Prepend then b ++ bytes "MP "
  else if bytes_eqb mode Replace then b ++ bytes "MR "
  else b.

Definition Encode (e : MetaSetEncoder) (writer : Writer) : Writer * option error :=
  let b := bytes "ms " in
  match writeKey b (Key e) with
  | (_, Some keyErr) => (writer, Some keyErr)
  | (b, None) =>
      let b := b ++ strconv_fmt.AppendInt (Z.of_nat (length (Value e))) in
      let b := b ++ [Space] in
      let b := writeIf (Base64EncodedKey e) b "b " in
      let b := writeIf (FetchCasId e) b "c " in
      let b := writeIf (Invalidate e) b "I " in
      let b := writeIf (FetchKey e) b "k " in
      let b := writeIf (FetchItemSize e) b "s " in
      let b := writeMode b (Mode e) in
      let b := writeTTL b (TTL e) in
      let b := writeCasId b (CasId e) in
      let b := writeCasOverride b (CasOverride e) in
      let b := writeClientFlags b (ClientFlags e) in
      let b := writeBlockTTL b (BlockTTL e) in
      let b := writeOpaque b (Opaque e) in
      let b := b ++ CRLF in
      let b := b ++ Value e in
      let b := b ++ CRLF in
      Writer_Write writer b
  end.

Record MetaSetDecoder : Type := mkDecoder {
  Status : MetadataStatus;
  dOpaque : Z;
  dCasId : Z;
  ItemKey : list byte;
  HdrLine : list byte
}.

Definition DecoderReset (d : MetaSetDecoder) : MetaSetDecoder :=
  mkDecoder MetadataStatusInvalid 0 0 [] [].

Definition setStatus d v := mkDecoder v (dOpaque d) (dCasId d) (ItemKey d) (HdrLine d).
Definition setOpaque d v := mkDecoder (Status d) v (dCasId d) (ItemKey d) (HdrLine d).
Definition setCasId d v := mkDecoder (Status d) (dOpaque d) v (ItemKey d) (HdrLine d).
Definition setItemKey d v := mkDecoder (Status d) (dOpaque d) (dCasId d) v (HdrLine d).
Definition setHdrLine d v := mkDecoder (Status d) (dOpaque d) (dCasId d) (ItemKey d) v.

Definition wrap (what : string) (elem : list byte) (pErr : error) : outcome :=
  Returned (Some (ErrWrap "meta_set::decoder" what elem pErr)).

(** This decoder has no value size; the loop carries [-1] along unused. *)
Definition token (d : MetaSetDecoder) (valueSize : Z) (elem : list byte)
  : step MetaSetDecoder :=
  match elem with
  | [] => Leave d PanicIndexOutOfRange
  | c :: rest =>
      if byte_eqb c "O" then
        match strconv.ParseUint rest 64 with
        | inr pErr => Leave d (wrap "opaque token" elem pErr)
        | inl o => Next (setOpaque d o) valueSize
        end
      else if byte_eqb c "c" then
        match strconv.ParseUint rest 64 with
        | inr pErr => Leave d (wrap "cas id" elem pErr)
        | inl v => Next (setCasId d v) valueSize
        end
      else if byte_eqb c "k" then Next (setItemKey d rest) valueSize
      else Next d valueSize
  end.

Definition header (d : MetaSetDecoder) (hdrLine : list byte)
  : step MetaSetDecoder :=
  match Fields hdrLine with
  | [] => Next d (-1)
  | elem :: elems =>
      let d := setStatus d (MetaSetStatusFromHeader elem) in
      if MetadataStatus_eqb (Status d) MetadataStatusInvalid
      then Leave (setHdrLine d hdrLine) (Returned None)
      else tokenLoop token d (-1) elems
  end.

Definition Decode (d : MetaSetDecoder) (reader : Reader)
  : MetaSetDecoder * Reader * outcome :=
  match Reader_ReadSlice reader x0a with
  | (reader, _, Some err) => (d, reader, Returned (Some err))
  | (reader, hdrLine, None) =>
      match header d hdrLine with
      | Leave d res => (d, reader, res)
      | Next d _ => (d, reader, Returned None)
      end
  end.

End metaset.

(* ------------------------------------------------------------------ *)
(** ** metadelete.go *)

Module metadelete.

Record MetaDeleteEncoder : Type := mkEncoder {
  Key : list byte;
  Base64EncodedKey : bool;
  CasId : Z;
  CasOverride : Z;
  Invalidate : bool;
  FetchKey : bool;
  Opaque : Z;
  TTL : Z;
  ClientFlags : Z;
  RemoveValue : bool
}.

Definition Reset (e : MetaDeleteEncoder) : MetaDeleteEncoder :=
  mkEncoder [] false 0 0 false false 0 (-1) 0 false.

Definition Encode (e : MetaDeleteEncoder) (writer : Writer) : Writer * option error :=
  let b := bytes "md " in
  match writeKey b (Key e) with
  | (_, Some keyErr) => (writer, Some keyErr)
  | (b, None) =>
      let b := writeIf (Base64EncodedKey e) b "b " in
      let b := writeIf (Invalidate e) b "I " in
      let b := writeIf (FetchKey e) b "k " in
      let b := writeIf (RemoveValue e) b "x " in
      let b := writeCasId b (CasId e) in
      let b := writeCasOverride b (CasOverride e) in
      let b := writeTTL b (TTL e) in
      let b := writeClientFlags b (ClientFlags e) in
      let b := writeOpaque b (Opaque e) in
      let b := b ++ CRLF in
      Writer_Write writer b
  end.

Record MetaDeleteDecoder : Type := mkDecoder {
  Status : MetadataStatus;
  dOpaque : Z;
  ItemKey : list byte;
  HdrLine : list byte
}.

Definition DecoderReset (d : MetaDeleteDecoder) : MetaDeleteDecoder :=
  mkDecoder MetadataStatusInvalid 0 [] [].

Definition setStatus d v := mkDecoder v (dOpaque d) (ItemKey d) (HdrLine d).
Definition setOpaque d v := mkDecoder (Status d) v (ItemKey d) (HdrLine d).
Definition setItemKey d v := mkDecoder (Status d) (dOpaque d) v (HdrLine d).
Definition setHdrLine d v := mkDecoder (Status d) (dOpaque d) (ItemKey d) v.

Definition wrap (what : string) (elem : list byte) (pErr : error) : outcome :=
  Returned (Some (ErrWrap "meta_delete::decoder" what elem pErr)).

Definition token (d : MetaDeleteDecoder) (valueSize : Z) (elem : list byte)
  : step MetaDeleteDecoder :=
  match elem with
  | [] => Leave d PanicIndexOutOfRange
  | c :: rest =>
      if byte_eqb c "O" then
        match strconv.ParseUint rest 64 with
        | inr pErr => Leave d (wrap "opaque token" elem pErr)
        | inl o => Next (setOpaque d o) valueSize
        end
      else if byte_eqb c "k" then Next (setItemKey d rest) valueSize
      else Next d valueSize
  end.

Definition header (d : MetaDeleteDecoder) (hdrLine : list byte)
  : step MetaDeleteDecoder :=
  match Fields hdrLine with
  | [] => Next d (-1)
  | elem :: elems =>
      let d := setStatus d (MetaDeleteStatusFromHeader elem) in
      if MetadataStatus_eqb (Status d) MetadataStatusInvalid
      then Leave (setHdrLine d hdrLine) (Returned None)
      else tokenLoop token d (-1) elems
  end.

Definition Decode (d : MetaDeleteDecoder) (reader : Reader)
  : MetaDeleteDecoder * Reader * outcome :=
  match Reader_ReadSlice reader x0a with
  | (reader, _, Some err) => (d, reader, Returned (Some err))
  | (reader, hdrLine, None) =>
      match header d hdrLine with
      | Leave d res => (d, reader, res)
      | Next d _ => (d, reader, Returned None)
      end
  end.

End metadelete.

(* ------------------------------------------------------------------ *)
(** ** metaarithmetic.go *)

Module metaarithmetic.

Record MetaArithmeticEncoder : Type := mkEncoder {
  Key : list byte;
  Base64EncodedKey : bool;
  CasId : Z;
  CasOverride : Z;
  BlockTTL : Z;
  InitialValue : Z;
  Delta : Z;
  TTL : Z;
  Decrement : bool;
  Opaque : Z;
  FetchRemainingTTL : bool;
  FetchCasId : bool;
  FetchValue : bool;
  FetchKey : bool
}.

Definition Reset (e : MetaArithmeticEncoder) : MetaArithmeticEncoder :=
  mkEncoder [] false 0 0 (-1) 0 0 (-1) false 0 false false false false.

Definition Encode (e : MetaArithmeticEncoder) (writer : Writer)
  : Writer * option error :=
  let b := bytes "ma " in
  match writeKey b (Key e) with
  | (_, Some keyErr) => (writer, Some keyErr)
  | (b, None) =>
      let b := writeIf (Base64EncodedKey e) b "b " in
      let b := writeIf (Decrement e) b "MD " in
      let b := writeIf (FetchRemainingTTL e) b "t " in
      let b := writeIf (FetchCasId e) b "c " in
      let b := writeIf (FetchValue e) b "v " in
      let b := writeIf (FetchKey e) b "k " in
      let b := writeCasId b (CasId e) in
      let b := writeCasOverride b (CasOverride e) in
      let b := writeTTL b (TTL e) in
      let b := writeBlockTTL b (BlockTTL e) in
      let b := writeInitialValue b (InitialValue e) in
      let b := writeDelta b (Delta e) in
      let b := writeOpaque b (Opaque e) in
      let b := b ++ CRLF in
      Writer_Write writer b
  end.

Record MetaArithmeticDecoder : Type := mkDecoder {
  Status : MetadataStatus;
  dOpaque : Z;
  RemainingTTLSeconds : Z;
  Value : option (list byte);
  ValueUInt64 : Z;
  dCasId : Z;
  ItemKey : list byte;
  HdrLine : list byte
}.

Definition DecoderReset (d : MetaArithmeticDecoder) : MetaArithmeticDecoder :=
  mkDecoder MetadataStatusInvalid 0 0 None 0 0 [] [].

Definition setStatus d v := mkDecoder v (dOpaque d) (RemainingTTLSeconds d)
  (Value d) (ValueUInt64 d) (dCasId d) (ItemKey d) (HdrLine d).
Definition setOpaque d v := mkDecoder (Status d) v (RemainingTTLSeconds d)
  (Value d) (ValueUInt64 d) (dCasId d) (ItemKey d) (HdrLine d).
Definition setRemainingTTLSeconds d v := mkDecoder (Status d) (dOpaque d) v
  (Value d) (ValueUInt64 d) (dCasId d) (ItemKey d) (HdrLine d).
Definition setValue d v := mkDecoder (Status d) (dOpaque d) (RemainingTTLSeconds d)
  v (ValueUInt64 d) (dCasId d) (ItemKey d) (HdrLine d).
Definition setValueUInt64 d v := mkDecoder (Status d) (dOpaque d) (RemainingTTLSeconds d)
  (Value d) v (dCasId d) (ItemKey d) (HdrLine d).
Definition setCasId d v := mkDecoder (Status d) (dOpaque d) (RemainingTTLSeconds d)
  (Value d) (ValueUInt64 d) v (ItemKey d) (HdrLine d).
Definition setItemKey d v := mkDecoder (Status d) (dOpaque d) (RemainingTTLSeconds d)
  (Value d) (ValueUInt64 d) (dCasId d) v (HdrLine d).
Definition setHdrLine d v := mkDecoder (Status d) (dOpaque d) (RemainingTTLSeconds d)
  (Value d) (ValueUInt64 d) (dCasId d) (ItemKey d) v.

Definition wrap (what : string) (elem : list byte) (pErr : error) : outcome :=
  Returned (Some (ErrWrap "meta_arithmetic::decoder" what elem pErr)).

Definition token (d : MetaArithmeticDecoder) (valueSize : Z) (elem : list byte)
  : step MetaArithmeticDecoder :=
  match elem with
  | [] => Leave d PanicIndexOutOfRange
  | c :: rest =>
      if (valueSize =? -1) && strconv.isDigit c then
        match strconv.Atoi elem with
        | inr pErr => Leave d (Returned (Some pErr))
        | inl v => Next d v
        end
      else if byte_eqb c "O" then
        match strconv.ParseUint rest 64 with
        | inr pErr => Leave d (wrap "opaque token" elem pErr)
        | inl o => Next (setOpaque d o) valueSize
        end
      else if byte_eqb c "t" then
        match strconv.ParseInt rest 32 with
        | inr pErr => Leave d (wrap "ttl" elem pErr)
        | inl t => Next (setRemainingTTLSeconds d t) valueSize
        end
      else if byte_eqb c "c" then
        match strconv.ParseUint rest 64 with
        | inr pErr => Leave d (wrap "cas id" elem pErr)
        | inl v => Next (setCasId d v) valueSize
        end
      else if byte_eqb c "k" then Next (setItemKey d rest) valueSize
      else Next d valueSize
  end.

Definition header (d : MetaArithmeticDecoder) (hdrLine : list byte)
  : step MetaArithmeticDecoder :=
  match Fields hdrLine with
  | [] => Next d (-1)
  | elem :: elems =>
      let d := setStatus d (ArithmeticStatusFromHeader elem) in
      if MetadataStatus_eqb (Status d) MetadataStatusInvalid
      then Leave (setHdrLine d hdrLine) (Returned None)
      else tokenLoop token d (-1) elems
  end.

Definition Decode (d : MetaArithmeticDecoder) (reader : Reader)
  : MetaArithmeticDecoder * Reader * outcome :=
  match Reader_ReadSlice reader x0a with
  | (reader, _, Some err) => (d, reader, Returned (Some err))
  | (reader, hdrLine, None) =>
      match header d hdrLine with
      | Leave d res => (d, reader, res)
      | Next d valueSize =>
          if 0 <=? valueSize then
            match ReadFull reader (Z.to_nat valueSize) with
            | (reader, buf, _, Some fullReadErr) =>
                (setValue d (Some buf), reader, Returned (Some fullReadErr))
            | (reader, buf, bytesRead, None) =>
                let d := setValue d (Some buf) in
                match strconv.ParseUint buf 64 with
                | inr convertErr => (d, reader, Returned (Some convertErr))
                | inl value =>
                    let d := setValueUInt64 d value in
                    let '(reader, err) := ReadCLRF reader in
                    (d, reader, Returned err)
                end
            end
          else (d, reader, Returned None)
      end
  end.

End metaarithmetic.

(* ------------------------------------------------------------------ *)
(** ** version.go *)

Module version.

Record VersionDecoder : Type := mkDecoder { HdrLine : list byte }.

Definition Encode (writer : Writer) : Writer * option error :=
  let b := bytes "version" in
  let b := b ++ CRLF in
  Writer_Write writer b.

Definition Decode (d : VersionDecoder) (reader : Reader)
  : VersionDecoder * Reader * option error :=
  match Reader_ReadString reader x0a with
  | (reader, _, Some err) => (d, reader, Some err)
  | (reader, hdrLine, None) =>
      let d := mkDecoder hdrLine in
      if negb (HasPrefix hdrLine (bytes "VERSION"))
      then (d, reader, Some errNonVersionResp)
      else (d, reader, None)
  end.

Definition Reset (d : VersionDecoder) : VersionDecoder := mkDecoder [].

End version.

(* ------------------------------------------------------------------ *)
(** ** opaque.go *)

Module opaque.

Definition wrap64 (x : Z) : Z := x mod 2 ^ 64.

(** [atomic.Uint64.Add]: one indivisible read-modify-write; the new value
    is stored and returned. *)
Definition Counter_Add (counter delta : Z) : Z * Z :=
  let new := wrap64 (counter + delta) in (new, new).

(** Both functions take the value of the process-wide [Counter] and give
    back the value it is left with, next to their result. *)
Definition NextOpaque (counter : Z) : Z * Z :=
  Counter_Add counter 1.

Definition NextNOpaques (n : Z) (counter : Z) : Z * Z :=
  let '(counter', o) := Counter_Add counter n in
  (counter', wrap64 (wrap64 (o - n) + 1)).

End opaque.

(* ------------------------------------------------------------------ *)
(** ** bulk_op.go *)

Module bulk.

Section Bulk.
(** [T] is a [codec.LinkDecoder]: a state and its [Decode] method. *)
Variable T : Type.
Variable decode : T -> Reader -> T * Reader * outcome.

(** [for _, decoder := range d.Decoders]: the decoders hold pointers, so
    each one is left as its [Decode] call leaves it; the first failure
    returns at once. *)
Fixpoint decodeAll (ds : list T) (reader : Reader)
  : list T * Reader * outcome :=
  match ds with
  | [] => ([], reader, Returned None)
  | d :: ds' =>
      match decode d reader with
      | (d', reader', Returned None) =>
          let '(ds'', reader'', res) := decodeAll ds' reader' in
          (d' :: ds'', reader'', res)
      | (d', reader', res) => (d' :: ds', reader', res)
      end
  end.

Definition Decode (ds : list T) (reader : Reader)
  : list T * Reader * outcome :=
  match decodeAll ds reader with
  | (ds', reader', Returned None) =>
      let '(reader'', err) := ReadMNResp reader' in
      (ds', reader'', Returned err)
  | res => res
  end.
End Bulk.

Section BulkEnc.
Variable T : Type.
Variable encode : T -> Writer -> Writer * option error.

Fixpoint encodeAll (es : list T) (writer : Writer) : Writer * option error :=
  match es with
  | [] => (writer, None)
  | e :: es' =>
      match encode e writer with
      | (writer', None) => encodeAll es' writer'
      | res => res
      end
  end.

Definition Encode (es : list T) (writer : Writer) : Writer * option error :=
  match encodeAll es writer with
  | (writer', None) => Writer_Write writer' NoOpRequest
  | res => res
  end.
End BulkEnc.

End bulk.

(* ------------------------------------------------------------------ *)
(** ** errors.Is *)

Definition error_is_changing_state (e : error) : bool :=
  match e with errConnChangingState => true | _ => false end.

(** [errors.Is(err, errConnChangingState)]: the error itself or, through
    [%w], one it wraps; [nil] is no error at all. *)
Fixpoint errors_Is_changing (e : error) : bool :=
  match e with
  | ErrWrap _ _ _ inner => errors_Is_changing inner
  | _ => error_is_changing_state e
  end.

Definition Is_errConnChangingState (err : option error) : bool :=
  match err with None => false | Some e => errors_Is_changing e end.

(* ------------------------------------------------------------------ *)
(** ** internal/net/tcp_conn.go and tcp_conn_list.go *)

Module net.

Definition queueSize : nat := 1000.

(** [sync.RWMutex] as seen by [TryRLock]: whether a writer holds or awaits
    the lock, and how many readers hold it. *)
Record RWMutex : Type := mkMutex {
  writer : bool;
  readers : nat
}.

Definition TryRLock (mu : RWMutex) : RWMutex * bool :=
  if writer mu then (mu, false)
  else (mkMutex false (S (readers mu)), true).

Definition RUnlock (mu : RWMutex) : RWMutex :=
  mkMutex (writer mu) (pred (readers mu)).

Section Conn.
(** [codec.Link] *)
Variable Link : Type.

(** A buffered channel: the queued elements, oldest first, and the
    capacity it was made with. *)
Record chan : Type := mkChan {
  queued : list Link;
  capacity : nat
}.

Definition make_chan (size : nat) : chan := mkChan [] size.

(** [select { case ch <- v: default: }]: whether the send went through. *)
Definition trySend (ch : chan) (v : Link) : chan * bool :=
  if (length (queued ch) <? capacity ch)%nat
  then (mkChan (queued ch ++ [v]) (capacity ch), true)
  else (ch, false).

Record tcpConn : Type := mkConn {
  mu : RWMutex;
  state : connState;
  outbound : chan
}.

Definition connState_eqb (a b : connState) : bool :=
  match a, b with
  | Unavailable, Unavailable | Connected, Connected
  | Terminated, Terminated | Reconnecting, Reconnecting
  | ConnectFailed, ConnectFailed => true
  | _, _ => false
  end.

Definition tcpConn_Append (c : tcpConn) (link : Link) : tcpConn * option error :=
  match TryRLock (mu c) with
  | (mu1, true) =>
      let c1 := mkConn mu1 (state c) (outbound c) in
      let '(c2, err) :=
        if connState_eqb (state c1) Connected then
          match trySend (outbound c1) link with
          | (ch, true) => (mkConn (mu c1) (state c1) ch, None)
          | (_, false) => (c1, Some errOutboundQueueFull)
          end
        else (c1, Some (ErrNotConnected (state c1))) in
      (mkConn (RUnlock (mu c2)) (state c2) (outbound c2), err)
  | (_, false) => (c, Some errConnChangingState)
  end.

Record tcpConnList : Type := mkList {
  numConns : Z;
  conns : list tcpConn;
  iterIdx : Z
}.

Fixpoint replace_nth (l : list tcpConn) (n : nat) (c : tcpConn) : list tcpConn :=
  match l, n with
  | [], _ => []
  | _ :: l', O => c :: l'
  | x :: l', S n' => x :: replace_nth l' n' c
  end.

(** The [for] loop of [tcpConnList.Append] with [fuel] iterations left. *)
Fixpoint appendLoop (fuel : nat) (t : tcpConnList) (link : Link)
  : tcpConnList * outcome :=
  match fuel with
  | O => (t, Returned (Some (ErrBackendUnhealthy (numConns t))))
  | S fuel' =>
      let newIterIdx := opaque.wrap64 (iterIdx t + 1) in
      let t := mkList (numConns t) (conns t) newIterIdx in
      let target := Z.to_nat (newIterIdx mod numConns t) in
      match nth_error (conns t) target with
      | None => (t, PanicIndexOutOfRange)
      | Some c =>
          let '(c', err) := tcpConn_Append c link in
          let t := mkList (numConns t) (replace_nth (conns t) target c') (iterIdx t) in
          if negb (Is_errConnChangingState err) then (t, Returned err)
          else appendLoop fuel' t link
      end
  end.

Definition tcpConnList_Append (t : tcpConnList) (link : Link)
  : tcpConnList * outcome :=
  appendLoop (Z.to_nat (numConns t)) t link.

End Conn.

End net.

(* ------------------------------------------------------------------ *)
(** ** internal/net/tcp_conn.go: set-up and the deadline *)

Module lifecycle.

Definition connAttemptCount : nat := 3.

(** A [time.Time] is the number of nanoseconds since the zero Time, so that
    [IsZero] is equality with 0; a [time.Duration] is a number of
    nanoseconds. *)
Definition Second : Z := 1000000000.
Definition socketTimeout : Z := 5 * Second.

Section Lifecycle.
(** [codec.Link] and [net.Conn] *)
Variable Link : Type.
Variable Conn : Type.

(** The fields of [tcpConn] that [setup], [transitionState] and
    [setDeadlineIfNeeded] write, around the three that [Append] reads.
    [conn] stands for the socket together with the [bufio.ReadWriter]
    made for it. *)
Record tcpConn : Type := mkConn {
  core : net.tcpConn Link;          (* mu, state, outbound *)
  inbound : net.chan Link;
  conn : option Conn;
  currentDeadline : Z;
  monitorLoopCount : Z
}.

(** [c.mu.Lock(); ...; c.mu.Unlock()]: the section runs once the lock is
    free and leaves it free. *)
Definition unlocked : net.RWMutex := net.mkMutex false 0.

Definition transitionState (c : tcpConn) (state : connState) : tcpConn :=
  mkConn (net.mkConn Link unlocked state (net.outbound Link (core c)))
         (inbound c) (conn c) (currentDeadline c) (monitorLoopCount c).

(** The loop of [setup] from attempt [i] on, with [fuel] attempts left;
    [dial i] is what the [i]-th call of [dial] returns. *)
Fixpoint setupLoop (dial : nat -> Conn + error) (i fuel : nat) (c : tcpConn)
    (lastConnErr : option error) : tcpConn * option error :=
  match fuel with
  | O => (transitionState c ConnectFailed, lastConnErr)
  | S fuel' =>
      match dial i with
      | inr err => setupLoop dial (S i) fuel' c (Some err)
      | inl newConn =>
          (mkConn (net.mkConn Link unlocked Connected
                     (net.make_chan Link net.queueSize))
                  (net.make_chan Link net.queueSize)
                  (Some newConn) 0 0,
           None)
      end
  end.

Definition setup (dial : nat -> Conn + error) (c : tcpConn)
  : tcpConn * option error :=
  setupLoop dial 0 connAttemptCount c None.

(** [setDeadlineIfNeeded] at time [now]; [SetDeadline] is the call on the
    socket.  The last component lists the deadlines handed to the socket. *)
Definition setDeadlineIfNeeded (SetDeadline : Z -> option error) (now : Z)
    (c : tcpConn) : tcpConn * option error * list Z :=
  let targetDeadline := now + socketTimeout in
  if (currentDeadline c =? 0) || (currentDeadline c <? now + Second) then
    match SetDeadline targetDeadline with
    | Some err => (c, Some err, [targetDeadline])
    | None =>
        (mkConn (core c) (inbound c) (conn c) targetDeadline
                (monitorLoopCount c),
         None, [targetDeadline])
    end
  else (c, None, []).

End Lifecycle.

End lifecycle.

(* ------------------------------------------------------------------ *)
(** ** internal/net/tcp_conn_pool.go *)

Module pool.

Inductive poolError : Type :=
| emptyConnPoolErr
| connPoolExhaustedErr
| ErrHashIndex (maxIdx idx : Z)
| ErrBackendNotFound (addr : list byte)
| ErrFrom (e : error).      (* an error of a connection list, as it is *)

(** A returned error, or a run-time panic: an index out of range, a method
    call on a nil [TCPConnList], an assignment to a nil map. *)
Inductive poolOutcome : Type :=
| PReturned (err : option poolError)
| PPanic.

(** [errors.Is(err, backendUnhealthyErr)] *)
Fixpoint errors_Is_unhealthy (e : error) : bool :=
  match e with
  | ErrWrap _ _ _ inner => errors_Is_unhealthy inner
  | ErrBackendUnhealthy _ => true
  | _ => false
  end.

Definition Is_backendUnhealthy (err : option error) : bool :=
  match err with None => false | Some e => errors_Is_unhealthy e end.

(** A [*Backend]: the pointer, which [slices.Index] compares, and
    [String()], the address. *)
Record Backend : Type := mkBackend {
  ptr : nat;
  addr : list byte
}.

Section Pool.
Variable Link : Type.
(** A [TCPConnList] with its [Append] and [Close], and
    [NewTCPConnectionList]. *)
Variable L : Type.
Variable listAppend : L -> Link -> L * outcome.
Variable listClose : L -> option error.
Variable newList : Backend -> L + error.

(** [map[string]TCPConnList] *)
Definition cmap : Type := list (list byte * L).

Fixpoint lookup (m : cmap) (k : list byte) : option L :=
  match m with
  | [] => None
  | (k', v) :: m' => if bytes_eqb k' k then Some v else lookup m' k
  end.

Fixpoint delete (m : cmap) (k : list byte) : cmap :=
  match m with
  | [] => []
  | (k', v) :: m' =>
      if bytes_eqb k' k then delete m' k else (k', v) :: delete m' k
  end.

(** [m[k] = v]: the entry is replaced where it stands, or added. *)
Fixpoint insert (m : cmap) (k : list byte) (v : L) : cmap :=
  match m with
  | [] => [(k, v)]
  | (k', v') :: m' =>
      if bytes_eqb k' k then (k, v) :: m' else (k', v') :: insert m' k v
  end.

Record tcpConnPool : Type := mkPool {
  backends : list Backend;
  cm : option cmap;              (* [None] is the nil map *)
  maxIdxForHash : Z
}.

(** [slices.Index(t.backends, be)] *)
Fixpoint Index (bs : list Backend) (be : Backend) : option nat :=
  match bs with
  | [] => None
  | b :: bs' => if (ptr b =? ptr be)%nat then Some 0%nat
                else option_map S (Index bs' be)
  end.

(** [slices.Delete(s, idx, idx+1)] *)
Fixpoint Delete (bs : list Backend) (idx : nat) : list Backend :=
  match bs, idx with
  | [], _ => []
  | _ :: bs', O => bs'
  | b :: bs', S idx' => b :: Delete bs' idx'
  end.

Definition len (m : option cmap) : nat :=
  match m with None => 0%nat | Some m => length m end.

(** The loop of [Append]: [i] counts the calls of the hash function made
    so far, [hashFn i n] being what the [i]-th call returns for bound
    [n]. *)
Fixpoint appendLoop (hashFn : nat -> Z -> Z) (fuel i : nat) (t : tcpConnPool)
    (link : Link) : tcpConnPool * poolOutcome :=
  match fuel with
  | O => (t, PReturned (Some connPoolExhaustedErr))
  | S fuel' =>
      let idx := hashFn i (maxIdxForHash t) in
      if (idx <? 0) || (maxIdxForHash t <=? idx)
      then (t, PReturned (Some (ErrHashIndex (maxIdxForHash t) idx)))
      else
        match nth_error (backends t) (Z.to_nat idx) with
        | None => (t, PPanic)
        | Some be =>
            match cm t with
            | None => (t, PPanic)
            | Some m =>
                match lookup m (addr be) with
                | None => (t, PPanic)
                | Some cl =>
                    let '(cl', res) := listAppend cl link in
                    let t' := mkPool (backends t)
                                (Some (insert m (addr be) cl'))
                                (maxIdxForHash t) in
                    match res with
                    | PanicIndexOutOfRange => (t', PPanic)
                    | Returned err =>
                        if negb (Is_backendUnhealthy err)
                        then (t', PReturned (option_map ErrFrom err))
                        else appendLoop hashFn fuel' (S i) t' link
                    end
                end
            end
        end
  end.

Definition Append (hashFn : nat -> Z -> Z) (t : tcpConnPool) (link : Link)
  : tcpConnPool * poolOutcome :=
  if (len (cm t) =? 0)%nat then (t, PReturned (Some emptyConnPoolErr))
  else appendLoop hashFn (Z.to_nat (maxIdxForHash t)) 0 t link.

Definition Add (t : tcpConnPool) (be : Backend) : tcpConnPool * poolOutcome :=
  match newList be with
  | inr err => (t, PReturned (Some (ErrFrom err)))
  | inl cl =>
      match cm t with
      | None => (mkPool (backends t ++ [be]) None (maxIdxForHash t), PPanic)
      | Some m =>
          (mkPool (backends t ++ [be]) (Some (insert m (addr be) cl))
             (maxIdxForHash t + 1),
           PReturned None)
      end
  end.

Definition Remove (t : tcpConnPool) (be : Backend) : tcpConnPool * poolOutcome :=
  match Index (backends t) be with
  | None => (t, PReturned (Some (ErrBackendNotFound (addr be))))
  | Some idx =>
      match nth_error (backends t) idx with
      | None => (t, PPanic)
      | Some found =>
          let cl := match cm t with
                    | None => None
                    | Some m => lookup m (addr found)
                    end in
          let t' := mkPool (Delete (backends t) idx)
                      (option_map (fun m => delete m (addr be)) (cm t))
                      (maxIdxForHash t - 1) in
          match cl with
          | None => (t', PPanic)
          | Some cl => (t', PReturned (option_map ErrFrom (listClose cl)))
          end
      end
  end.

(** The loop of [NewConnPool] that builds the map, one connection list per
    backend; the first list that cannot be built ends it. *)
Fixpoint newPoolLoop (bs : list Backend) (m : cmap) : cmap + error :=
  match bs with
  | [] => inl m
  | be :: bs' =>
      match newList be with
      | inr err => inr err
      | inl cl => newPoolLoop bs' (insert m (addr be) cl)
      end
  end.

(** [NewConnPool], with a logger given (the default logger is not built, so
    that its failure does not arise); the options set the hash function and
    the logger only. *)
Definition NewConnPool (bs : list Backend) : tcpConnPool + error :=
  match newPoolLoop bs [] with
  | inr err => inr err
  | inl m => inl (mkPool bs (Some m) (Z.of_nat (length bs)))
  end.

End Pool.

End pool.

(* ================================================================== *)
(** * Vocabulary of the statements *)

(** The test [isLegalMemcacheKey] applies to each rune, and the same test on
    one byte. *)
Definition okRune (c : Z) : bool := negb ((c <=? 0x20) || (c =? 0x7f)).
Definition okByte (b : byte) : bool := okRune (bv b).

(** The key rule in the words of the specification: between 1 and 250
    bytes, each strictly between 0x20 and 0x7F. *)
Definition spec_legal_key (key : list byte) : Prop :=
  (1 <= length key <= 250)%nat /\ Forall (fun b => 0x20 < bv b < 0x7F) key.

(** Flag tokens as they appear on the wire: each one followed by one space. *)
Definition render (toks : list (list byte)) : list byte :=
  List.concat (map (fun t => t ++ [Space]) toks).

Definition isToken (t : list byte) : Prop :=
  t <> [] /\ Forall (fun b => b <> Space) t.

Definition flagTok (on : bool) (t : string) : list (list byte) :=
  if on then [bytes t] else [].

Definition uintTok (on : bool) (letter : byte) (v : Z) : list (list byte) :=
  if on then [letter :: strconv_fmt.AppendUint v] else [].

Definition intTok (on : bool) (letter : byte) (v : Z) : list (list byte) :=
  if on then [letter :: strconv_fmt.AppendInt v] else [].

Definition startsWith (c : byte) (t : list byte) : bool :=
  match t with
  | c' :: _ => byte_eqb c' c
  | [] => false
  end.

(** Every token satisfying [P] stands at a smaller index than every token
    satisfying [Q]. *)
Definition precedes (P Q : list byte -> bool) (toks : list (list byte)) : Prop :=
  forall i j x y,
    nth_error toks i = Some x -> nth_error toks j = Some y ->
    P x = true -> Q y = true -> (i < j)%nat.

(** The flag tokens of each request, in the order the encoder writes them. *)
Definition mg_flags (e : metaget.MetaGetEncoder) : list (list byte) :=
  flagTok (metaget.Base64EncodedKey e) "b"
  ++ flagTok (metaget.FetchCasId e) "c"
  ++ flagTok (metaget.FetchClientFlags e) "f"
  ++ flagTok (metaget.FetchItemHitBefore e) "h"
  ++ flagTok (metaget.FetchKey e) "k"
  ++ flagTok (metaget.FetchLastAccessedTime e) "l"
  ++ flagTok (metaget.FetchItemSizeInBytes e) "s"
  ++ uintTok (negb (metaget.CasOverride e =? 0)) "E" (metaget.CasOverride e)
  ++ intTok (0 <=? metaget.RecacheTTL e) "R" (metaget.RecacheTTL e)
  ++ intTok (0 <=? metaget.BlockTTL e) "N" (metaget.BlockTTL e)
  ++ intTok (0 <=? metaget.UpdateTTL e) "T" (metaget.UpdateTTL e)
  ++ flagTok (metaget.FetchRemainingTTL e) "t"
  ++ flagTok (metaget.PreventLRUBump e) "u"
  ++ flagTok (metaget.FetchValue e) "v"
  ++ uintTok (negb (metaget.Opaque e =? 0)) "O" (metaget.Opaque e).

Definition ms_mode_flag (mode : metaset.MetaSetMode) : list (list byte) :=
  if bytes_eqb mode metaset.Add then [bytes "ME"]
  else if bytes_eqb mode metaset.Append then [bytes "MA"]
  else if bytes_eqb mode metaset.Prepend then [bytes "MP"]
  else if bytes_eqb mode metaset.Replace then [bytes "MR"]
  else [].

Definition ms_flags (e : metaset.MetaSetEncoder) : list (list byte) :=
  flagTok (metaset.Base64EncodedKey e) "b"
  ++ flagTok (metaset.FetchCasId e) "c"
  ++ flagTok (metaset.Invalidate e) "I"
  ++ flagTok (metaset.FetchKey e) "k"
  ++ flagTok (metaset.FetchItemSize e) "s"
  ++ ms_mode_flag (metaset.Mode e)
  ++ intTok (0 <=? metaset.TTL e) "T" (metaset.TTL e)
  ++ uintTok (negb (metaset.CasId e =? 0)) "C" (metaset.CasId e)
  ++ uintTok (negb (metaset.CasOverride e =? 0)) "E" (metaset.CasOverride e)
  ++ uintTok (0 <? metaset.ClientFlags e) "F" (metaset.ClientFlags e)
  ++ intTok (0 <=? metaset.BlockTTL e) "N" (metaset.BlockTTL e)
  ++ uintTok (negb (metaset.Opaque e =? 0)) "O" (metaset.Opaque e).

Definition ma_flags (e : metaarithmetic.MetaArithmeticEncoder) : list (list byte) :=
  flagTok (metaarithmetic.Base64EncodedKey e) "b"
  ++ flagTok (metaarithmetic.Decrement e) "MD"
  ++ flagTok (metaarithmetic.FetchRemainingTTL e) "t"
  ++ flagTok (metaarithmetic.FetchCasId e) "c"
  ++ flagTok (metaarithmetic.FetchValue e) "v"
  ++ flagTok (metaarithmetic.FetchKey e) "k"
  ++ uintTok (negb (metaarithmetic.CasId e =? 0)) "C" (metaarithmetic.CasId e)
  ++ uintTok (negb (metaarithmetic.CasOverride e =? 0)) "E" (metaarithmetic.CasOverride e)
  ++ intTok (0 <=? metaarithmetic.TTL e) "T" (metaarithmetic.TTL e)
  ++ intTok (0 <=? metaarithmetic.BlockTTL e) "N" (metaarithmetic.BlockTTL e)
  ++ uintTok (negb (metaarithmetic.InitialValue e =? 0)) "J" (metaarithmetic.InitialValue e)
  ++ uintTok true "D" (metaarithmetic.Delta e)
  ++ uintTok (negb (metaarithmetic.Opaque e =? 0)) "O" (metaarithmetic.Opaque e).

(** The request of scenario 1: a reset [MetaGetEncoder] with the key and
    [FetchValue] filled in. *)
Definition mg_request_value (e0 : metaget.MetaGetEncoder) (key : list byte)
  : metaget.MetaGetEncoder :=
  let e := metaget.Reset e0 in
  metaget.mkEncoder key
    (metaget.Base64EncodedKey e) (metaget.FetchCasId e)
    (metaget.FetchClientFlags e) (metaget.FetchItemHitBefore e)
    (metaget.FetchKey e) (metaget.FetchLastAccessedTime e)
    (metaget.Opaque e) (metaget.FetchItemSizeInBytes e)
    (metaget.FetchRemainingTTL e) (metaget.PreventLRUBump e)
    true
    (metaget.CasOverride e) (metaget.BlockTTL e) (metaget.RecacheTTL e)
    (metaget.UpdateTTL e).

(** The sub-decoders of a bulk response all succeed, one after the other on
    the same reader: [ds'] is what they hold afterwards and [r'] the reader
    they leave. *)
Inductive decodesInOrder {T : Type} (decode : T -> Reader -> T * Reader * outcome)
  : list T -> Reader -> list T -> Reader -> Prop :=
| decodes_nil r : decodesInOrder decode [] r [] r
| decodes_cons d ds r d' r' ds' r'' :
    decode d r = (d', r', Returned None) ->
    decodesInOrder decode ds r' ds' r'' ->
    decodesInOrder decode (d :: ds) r (d' :: ds') r''.

(** A decoder fresh from [Reset]. *)
Definition d0 : metaget.MetaGetDecoder :=
  metaget.mkDecoder MetadataStatusInvalid RecacheNotSet None 0 0 0 0
    false [] 0 0 false [].

(** The connection the [k]-th iteration (from 1) of [tcpConnList.Append]
    picks: the counter after [k] increments, modulo [numConns]. *)
Definition target {Link : Type} (t : net.tcpConnList Link) (k : Z) : nat :=
  Z.to_nat (opaque.wrap64 (net.iterIdx Link t + k) mod net.numConns Link t).

(** The state lock of the connection picked at iteration [k] is held for a
    transition, so that [TryRLock] fails. *)
Definition lockedAt {Link : Type} (t : net.tcpConnList Link) (k : Z) : Prop :=
  exists c, nth_error (net.conns Link t) (target t k) = Some c
            /\ net.writer (net.mu Link c) = true.

(** The decoder a step of the token loop leaves behind. *)
Definition stepState {D : Type} (s : step D) : D :=
  match s with Next d _ => d | Leave d _ => d end.

(** The tokens that follow the status word on the header line the reader
    holds next; none when no line can be read. *)
Definition headerTokens (r : Reader) : list (list byte) :=
  match Reader_ReadSlice r x0a with
  | (_, hdrLine, None) => tl (Fields hdrLine)
  | _ => []
  end.

(** The status word of that header line, if there is one. *)
Definition headerStatusWord (r : Reader) : option (list byte) :=
  match Reader_ReadSlice r x0a with
  | (_, hdrLine, None) => hd_error (Fields hdrLine)
  | _ => None
  end.

(** No token after the status word is of the kind [P]. *)
Definition absent (P : list byte -> bool) (r : Reader) : Prop :=
  Forall (fun elem => P elem = false) (headerTokens r).

Definition startsWithDigit (t : list byte) : bool :=
  match t with
  | c :: _ => strconv.isDigit c
  | [] => false
  end.

Definition isTok (s : string) (t : list byte) : bool := bytes_eqb t (bytes s).

(** For each decoder: every field of [d'] whose token is absent from the
    header line that reader [r] holds next is the field of [d]. *)
Definition mg_keeps (r : Reader) (d d' : metaget.MetaGetDecoder) : Prop :=
  (absent (startsWith "O") r -> metaget.dOpaque d' = metaget.dOpaque d)
  /\ (absent (startsWith "t") r ->
      metaget.RemainingTTLSeconds d' = metaget.RemainingTTLSeconds d)
  /\ (absent (startsWith "c") r -> metaget.CasId d' = metaget.CasId d)
  /\ (absent (startsWith "f") r -> metaget.ClientFlags d' = metaget.ClientFlags d)
  /\ (absent (startsWith "h") r ->
      metaget.IsItemHitBefore d' = metaget.IsItemHitBefore d)
  /\ (absent (startsWith "k") r -> metaget.ItemKey d' = metaget.ItemKey d)
  /\ (absent (startsWith "s") r ->
      metaget.ItemSizeInBytes d' = metaget.ItemSizeInBytes d)
  /\ (absent (startsWith "l") r ->
      metaget.TimeSinceLastAccessedSeconds d'
      = metaget.TimeSinceLastAccessedSeconds d)
  /\ (absent (fun t => isTok "W" t || isTok "Z" t) r ->
      metaget.Recache d' = metaget.Recache d)
  /\ (absent (isTok "X") r -> metaget.Stale d' = metaget.Stale d)
  /\ (absent startsWithDigit r -> metaget.Value d' = metaget.Value d)
  /\ (headerStatusWord r = None -> metaget.Status d' = metaget.Status d)
  /\ ((forall w, headerStatusWord r = Some w ->
                 MetaGetStatusFromHeader w <> MetadataStatusInvalid) ->
      metaget.HdrLine d' = metaget.HdrLine d).

Definition ms_keeps (r : Reader) (d d' : metaset.MetaSetDecoder) : Prop :=
  (absent (startsWith "O") r -> metaset.dOpaque d' = metaset.dOpaque d)
  /\ (absent (startsWith "c") r -> metaset.dCasId d' = metaset.dCasId d)
  /\ (absent (startsWith "k") r -> metaset.ItemKey d' = metaset.ItemKey d)
  /\ (headerStatusWord r = None -> metaset.Status d' = metaset.Status d)
  /\ ((forall w, headerStatusWord r = Some w ->
                 MetaSetStatusFromHeader w <> MetadataStatusInvalid) ->
      metaset.HdrLine d' = metaset.HdrLine d).

Definition md_keeps (r : Reader) (d d' : metadelete.MetaDeleteDecoder) : Prop :=
  (absent (startsWith "O") r -> metadelete.dOpaque d' = metadelete.dOpaque d)
  /\ (absent (startsWith "k") r -> metadelete.ItemKey d' = metadelete.ItemKey d)
  /\ (headerStatusWord r = None -> metadelete.Status d' = metadelete.Status d)
  /\ ((forall w, headerStatusWord r = Some w ->
                 MetaDeleteStatusFromHeader w <> MetadataStatusInvalid) ->
      metadelete.HdrLine d' = metadelete.HdrLine d).

Definition ma_keeps (r : Reader) (d d' : metaarithmetic.MetaArithmeticDecoder)
  : Prop :=
  (absent (startsWith "O") r ->
   metaarithmetic.dOpaque d' = metaarithmetic.dOpaque d)
  /\ (absent (startsWith "t") r ->
      metaarithmetic.RemainingTTLSeconds d' = metaarithmetic.RemainingTTLSeconds d)
  /\ (absent (startsWith "c") r ->
      metaarithmetic.dCasId d' = metaarithmetic.dCasId d)
  /\ (absent (startsWith "k") r ->
      metaarithmetic.ItemKey d' = metaarithmetic.ItemKey d)
  /\ (absent startsWithDigit r ->
      metaarithmetic.Value d' = metaarithmetic.Value d /\
      metaarithmetic.ValueUInt64 d' = metaarithmetic.ValueUInt64 d)
  /\ (headerStatusWord r = None ->
      metaarithmetic.Status d' = metaarithmetic.Status d)
  /\ ((forall w, headerStatusWord r = Some w ->
                 ArithmeticStatusFromHeader w <> MetadataStatusInvalid) ->
      metaarithmetic.HdrLine d' = metaarithmetic.HdrLine d).

(** [Decode] returned a non-nil error. *)
Definition isErr (o : outcome) : bool :=
  match o with Returned (Some _) => true | _ => false end.

(** The value of a run of decimal digits, most significant first, on top of
    the accumulator [acc]. *)
Fixpoint dval (acc : Z) (d : Decimal.uint) : Z :=
  match d with
  | Decimal.Nil => acc
  | Decimal.D0 d' => dval (acc * 10 + 0) d'
  | Decimal.D1 d' => dval (acc * 10 + 1) d'
  | Decimal.D2 d' => dval (acc * 10 + 2) d'
  | Decimal.D3 d' => dval (acc * 10 + 3) d'
  | Decimal.D4 d' => dval (acc * 10 + 4) d'
  | Decimal.D5 d' => dval (acc * 10 + 5) d'
  | Decimal.D6 d' => dval (acc * 10 + 6) d'
  | Decimal.D7 d' => dval (acc * 10 + 7) d'
  | Decimal.D8 d' => dval (acc * 10 + 8) d'
  | Decimal.D9 d' => dval (acc * 10 + 9) d'
  end.

(** A byte that [bytes.Fields] keeps inside a field: ASCII and no space. *)
Definition plainByte (b : byte) : Prop :=
  bv b < 0x80 /\ unicode.IsSpace (bv b) = false.

(** A response header line: the status word, then each token behind one
    space, then CRLF. *)
Definition respLine (w : list byte) (toks : list (list byte)) : list byte :=
  w ++ List.concat (map (fun t => Space :: t) toks) ++ [x0d].



(** [k] calls of [NextOpaque] in a row: the counter they leave and the
    values they return, in order. *)
Fixpoint nextOpaques (k : nat) (counter : Z) : Z * list Z :=
  match k with
  | O => (counter, [])
  | S k' =>
      let '(counter1, o) := opaque.NextOpaque counter in
      let '(counter2, os) := nextOpaques k' counter1 in
      (counter2, o :: os)
  end.

(** The header line "VA <size of v> c<cas>" of an [ma] response that
    carries the value block [v], without its line feed. *)
Definition ma_value_line (v : list byte) (cas : Z) : list byte :=
  respLine (bytes "VA")
    ([strconv_fmt.AppendInt (Z.of_nat (length v))] ++ uintTok true "c" cas).

(** What [NewTCPConnectionList] establishes and [Append] relies on:
    [numConns] is the number of connections, the counter is a uint64. *)
Definition listWf {Link : Type} (t : net.tcpConnList Link) : Prop :=
  net.numConns Link t = Z.of_nat (length (net.conns Link t))
  /\ 0 <= net.iterIdx Link t < 2 ^ 64.

(** Submitting links to one connection, one after the other: the
    connection left behind and the answers, in order. *)
Fixpoint appendAll {Link : Type} (c : net.tcpConn Link) (links : list Link)
  : net.tcpConn Link * list (option error) :=
  match links with
  | [] => (c, [])
  | link :: links' =>
      let '(c1, err) := net.tcpConn_Append Link c link in
      let '(c2, errs) := appendAll c1 links' in
      (c2, err :: errs)
  end.

(** A consistent pool: the map exists, [maxIdxForHash] is the number of
    backends, no two backends are the same pointer or share an address, and
    the keys of the map are exactly the addresses of the backends. *)
Definition poolWf {L : Type} (t : pool.tcpConnPool L) : Prop :=
  exists m,
    pool.cm L t = Some m
    /\ pool.maxIdxForHash L t = Z.of_nat (length (pool.backends L t))
    /\ NoDup (map pool.addr (pool.backends L t))
    /\ NoDup (map pool.ptr (pool.backends L t))
    /\ forall k, pool.lookup L m k <> None
                 <-> In k (map pool.addr (pool.backends L t)).

(** Every connection list of the pool satisfies [P]. *)
Definition poolLists {L : Type} (P : L -> Prop) (t : pool.tcpConnPool L)
  : Prop :=
  forall m k l, pool.cm L t = Some m -> pool.lookup L m k = Some l -> P l.

(** What [Append] of a consistent pool may answer: success, an empty or
    exhausted pool, a hash index out of range, or the error of a connection
    list that is not the backend-unhealthy error. *)
Definition poolAnswer (o : pool.poolOutcome) : Prop :=
  match o with
  | pool.PPanic => False
  | pool.PReturned None => True
  | pool.PReturned (Some (pool.ErrFrom e)) =>
      pool.errors_Is_unhealthy e = false
  | pool.PReturned (Some (pool.ErrBackendNotFound _)) => False
  | pool.PReturned (Some _) => True
  end.


(* ================================================================== *)
(** * Properties *)

(** ** The repository's test vectors, run on the model *)

Example test_IsLegalMemcacheKey :
  isLegalMemcacheKey (bytes "validKey") = true
  /\ isLegalMemcacheKey (repeat x00 251) = false
  /\ isLegalMemcacheKey (bytes "contain space") = false
  /\ isLegalMemcacheKey (bytes "contains" ++ [x09] ++ bytes "specialchar") = false.
Proof. vm_compute. repeat split. Qed.

Example test_ReadCLRF :
  snd (ReadCLRF (NewReader CRLF)) = None
  /\ snd (ReadCLRF (NewReader (bytes "xx"))) <> None
  /\ snd (ReadCLRF (NewReader [x0d])) <> None
  /\ snd (ReadCLRF (NewReader [])) <> None.
Proof. vm_compute. repeat split; discriminate. Qed.

Example test_MetaGetDecoders_HappyPath :
  metaget.Decode d0 (NewReader (bytes "EN" ++ CRLF))
  = (metaget.setStatus d0 CacheMiss, NewReader [], Returned None)
  /\ metaget.Decode d0 (NewReader (bytes "HD O1231213 t989" ++ CRLF))
     = (metaget.setRemainingTTLSeconds
          (metaget.setOpaque (metaget.setStatus d0 CacheHit) 1231213) 989,
        NewReader [], Returned None)
  /\ metaget.Decode d0
       (NewReader (bytes "VA 10 O1231213 Z X" ++ CRLF ++ bytes "12345" ++ CRLF
                   ++ bytes "890" ++ CRLF))
     = (metaget.mkDecoder CacheHit RecacheAlreadySent
          (Some (bytes "12345" ++ CRLF ++ bytes "890")) 0 0 0 1231213 false []
          0 0 true [],
        NewReader [], Returned None)
  /\ metaget.Decode d0 (NewReader (bytes "VA 0 O999999 W" ++ CRLF ++ CRLF))
     = (metaget.mkDecoder CacheHit RecacheWon (Some []) 0 0 0 999999 false []
          0 0 false [],
        NewReader [], Returned None).
Proof. vm_compute. repeat split. Qed.

Example test_MetaGetDecoder_ErrorPath :
  isErr (snd (metaget.Decode d0 (NewReader (bytes "HD 132kk " ++ CRLF)))) = true
  /\ isErr (snd (metaget.Decode d0 (NewReader (bytes "HD 5 Ohello " ++ CRLF)))) = true
  /\ isErr (snd (metaget.Decode d0 (NewReader (bytes "HD 1 t10f " ++ CRLF)))) = true
  /\ isErr (snd (metaget.Decode d0 (NewReader (bytes "HD c10d3 " ++ CRLF)))) = true.
Proof. vm_compute. repeat split. Qed.

Example test_MetaSetDecoders :
  metaset.Decode (metaset.mkDecoder MetadataStatusInvalid 0 0 [] [])
    (NewReader (bytes "HD O1231 c1111" ++ CRLF))
  = (metaset.mkDecoder Stored 1231 1111 [] [], NewReader [], Returned None).
Proof. vm_compute. reflexivity. Qed.

Example test_MetaArithmeticDecoders :
  metaarithmetic.Decode
    (metaarithmetic.mkDecoder MetadataStatusInvalid 0 0 None 0 0 [] [])
    (NewReader (bytes "VA 20 O1231" ++ CRLF ++ bytes "18446744073709551615"
                ++ CRLF))
  = (metaarithmetic.mkDecoder Stored 1231 0
       (Some (bytes "18446744073709551615")) (2 ^ 64 - 1) 0 [] [],
     NewReader [], Returned None)
  /\ isErr (snd (metaarithmetic.Decode
       (metaarithmetic.mkDecoder MetadataStatusInvalid 0 0 None 0 0 [] [])
       (NewReader (bytes "VA 2 O123kk" ++ CRLF ++ bytes "12" ++ CRLF)))) = true.
Proof. vm_compute. repeat split. Qed.

Example test_MetaDeleteDecoders :
  metadelete.Decode (metadelete.mkDecoder MetadataStatusInvalid 0 [] [])
    (NewReader (bytes "NS O1231 " ++ CRLF))
  = (metadelete.mkDecoder NotStored 1231 [] [], NewReader [], Returned None).
Proof. vm_compute. reflexivity. Qed.

Example test_Version :
  version.Encode (mkWriter [] None)
  = (mkWriter (bytes "version" ++ CRLF) None, None)
  /\ snd (version.Decode (version.mkDecoder [])
            (NewReader (bytes "VERSION 1.6.9" ++ CRLF))) = None
  /\ snd (version.Decode (version.mkDecoder [])
            (NewReader (bytes "unexpected response" ++ CRLF)))
     = Some errNonVersionResp.
Proof. vm_compute. repeat split. Qed.

Example test_NextOpaque :
  opaque.NextOpaque 0 = (1, 1) /\ opaque.NextOpaque 1 = (2, 2)
  /\ opaque.NextNOpaques 3 0 = (3, 1).
Proof. vm_compute. repeat split. Qed.

Example test_writers :
  fst (writeKey [] (bytes "testKey")) = bytes "testKey "
  /\ writeOpaque [] 12345 = bytes "O12345 "
  /\ writeCasId [] 67890 = bytes "C67890 "
  /\ writeTTL [] 3600 = bytes "T3600 "
  /\ writeBlockTTL [] 7200 = bytes "N7200 "
  /\ writeRecacheTTL [] 1800 = bytes "R1800 ".
Proof. vm_compute. repeat split. Qed.

(** ** Arithmetic on bytes and runes *)

Lemma bv_range b : 0 <= bv b <= 255.
Proof.
  unfold bv. pose proof (Byte.to_N_bounded b). lia.
Qed.

Lemma lor_ge_l a b : 0 <= b -> a <= Z.lor a b.
Proof.
  intros Hb. pose proof (Z.sub_lor_l_same_l b a) as H.
  assert (0 <= Z.land b (Z.lnot a)) by (apply Z.land_nonneg; auto).
  lia.
Qed.

Lemma land_63 a : Z.land a 0x3F = a mod 64.
Proof. change 0x3F with (Z.ones 6). rewrite Z.land_ones by lia. reflexivity. Qed.
Lemma land_31 a : Z.land a 0x1F = a mod 32.
Proof. change 0x1F with (Z.ones 5). rewrite Z.land_ones by lia. reflexivity. Qed.
Lemma land_15 a : Z.land a 0x0F = a mod 16.
Proof. change 0x0F with (Z.ones 4). rewrite Z.land_ones by lia. reflexivity. Qed.
Lemma land_7 a : Z.land a 0x07 = a mod 8.
Proof. change 0x07 with (Z.ones 3). rewrite Z.land_ones by lia. reflexivity. Qed.

Lemma okRune_high r : 0x80 <= r -> okRune r = true.
Proof. unfold okRune. intros. destruct (Z.leb_spec r 0x20), (Z.eqb_spec r 0x7f); simpl; try lia; reflexivity. Qed.


Lemma lor_bounds a b : 0 <= a -> 0 <= b -> a <= Z.lor a b /\ b <= Z.lor a b.
Proof.
  intros Ha Hb. split.
  - apply lor_ge_l; assumption.
  - rewrite Z.lor_comm. apply lor_ge_l; assumption.
Qed.

Ltac lor_facts :=
  repeat match goal with
  | |- context [Z.lor ?a ?b] =>
      lazymatch goal with
      | _ : a <= Z.lor a b /\ b <= Z.lor a b |- _ => fail
      | _ => assert (a <= Z.lor a b /\ b <= Z.lor a b)
               by (apply lor_bounds; Z.div_mod_to_equations; lia)
      end;
      generalize dependent (Z.lor a b); intros
  end.


Ltac eval_consts :=
  repeat match goal with
  | |- context [utf8.acceptRanges ?i] =>
      let v := eval vm_compute in (utf8.acceptRanges i) in
      change (utf8.acceptRanges i) with v
  | |- context [Z.land ?x 7 <=? ?k] =>
      let v := eval vm_compute in (Z.land x 7 <=? k) in
      change (Z.land x 7 <=? k) with v
  | |- context [utf8.as_ <=? ?x] =>
      let v := eval vm_compute in (utf8.as_ <=? x) in
      change (utf8.as_ <=? x) with v
  | |- context [?x =? utf8.as_] =>
      let v := eval vm_compute in (x =? utf8.as_) in
      change (x =? utf8.as_) with v
  end; cbv beta iota.

Lemma DecodeRune_spec b0 t :
  let '(r, sz) := utf8.DecodeRune (b0 :: t) in
  (1 <= sz <= length (b0 :: t))%nat /\
  ((bv b0 < 0x80 /\ r = bv b0 /\ sz = 1%nat) \/
   (0x80 <= r /\ Forall (fun b => 0x80 <= bv b) (firstn sz (b0 :: t)))).
Proof.
  pose proof (bv_range b0) as R0.
  unfold utf8.DecodeRune, utf8.first.
  repeat match goal with
  | |- context [if ?a <? ?b then _ else _] => destruct (Z.ltb_spec a b)
  | |- context [if ?a =? ?b then _ else _] => destruct (Z.eqb_spec a b)
  end; eval_consts.
  all: repeat match goal with
       | |- context [match ?l with [] => _ | _ :: _ => _ end] =>
           is_var l; destruct l as [|? ?]
       | |- context [if (?a <? ?b) || (?c <? ?d) then _ else _] =>
           destruct (Z.ltb_spec a b), (Z.ltb_spec c d); cbv beta iota; simpl orb; cbv beta iota
       end.
  all: (split; [simpl; lia|]).
  all: try (left; repeat split; lia).
  all: try (right; split; [unfold utf8.RuneError; lia| repeat constructor; lia]).
  all: unfold utf8.mask2, utf8.mask3, utf8.mask4, utf8.maskx, utf8.locb, utf8.hicb in *.
  all: rewrite ?land_63, ?land_31, ?land_15, ?land_7, ?Z.shiftl_mul_pow2 by lia.
  all: right; split; [| simpl; repeat constructor; lia].
  all: repeat match goal with b : byte |- _ => pose proof (bv_range b); generalize dependent (bv b); clear b; intros end.
  all: lor_facts; Z.div_mod_to_equations; lia.
Qed.

(** The runes a [range] loop visits pass the validator's test exactly when
    the bytes of the string do. *)
Lemma rangeFuel_okRune n : forall s,
  (length s <= n)%nat ->
  forallb okRune (utf8.rangeFuel n s) = forallb okByte s.
Proof.
  induction n as [|n IH]; intros s Hlen.
  - destruct s; [reflexivity | simpl in Hlen; lia].
  - destruct s as [|b0 t]; [reflexivity|].
    pose proof (DecodeRune_spec b0 t) as Hd.
    cbn [utf8.rangeFuel].
    destruct (utf8.DecodeRune (b0 :: t)) as [r sz].
    destruct Hd as [Hsz Hcase].
    transitivity (forallb okByte (firstn sz (b0 :: t) ++ skipn sz (b0 :: t)));
      [| rewrite firstn_skipn; reflexivity].
    rewrite forallb_app. cbn [forallb].
    rewrite IH by (rewrite length_skipn; cbn [length] in *; lia).
    f_equal.
    destruct Hcase as [(Hlow & -> & ->) | (Hr & Hall)].
    + simpl. unfold okByte. rewrite andb_true_r. reflexivity.
    + rewrite okRune_high by assumption. symmetry.
      apply forallb_forall. intros b Hb.
      rewrite Forall_forall in Hall. apply okRune_high, Hall, Hb.
Qed.

Lemma isLegalMemcacheKey_bytes key :
  isLegalMemcacheKey key = (length key <=? 250)%nat && forallb okByte key.
Proof.
  unfold isLegalMemcacheKey, utf8.range.
  fold okRune. rewrite rangeFuel_okRune by lia.
  destruct (Nat.ltb_spec 250 (length key)), (Nat.leb_spec (length key) 250);
    try lia; reflexivity.
Qed.

Lemma okByte_iff b : okByte b = true <-> 0x20 < bv b /\ bv b <> 0x7F.
Proof.
  unfold okByte, okRune.
  destruct (Z.leb_spec (bv b) 0x20), (Z.eqb_spec (bv b) 0x7f); simpl;
    split; intros; try discriminate; try lia; reflexivity.
Qed.

(* ------------------------------------------------------------------ *)
(** ** The key validator *)

Lemma isLegalMemcacheKey_iff key :
  isLegalMemcacheKey key = true <->
  (length key <= 250)%nat /\ Forall (fun b => 0x20 < bv b /\ bv b <> 0x7F) key.
Proof.
  rewrite isLegalMemcacheKey_bytes, andb_true_iff, Nat.leb_le, forallb_forall,
    Forall_forall.
  split; intros [Hl Hb]; split; auto; intros b Hin; apply okByte_iff; auto.
Qed.

Lemma writeKey_illegal b key :
  isLegalMemcacheKey key = false -> writeKey b key = (b, Some (ErrInvalidKey key)).
Proof. unfold writeKey. intros ->. reflexivity. Qed.

Lemma writeKey_legal b key :
  isLegalMemcacheKey key = true -> writeKey b key = (b ++ key ++ [Space], None).
Proof. unfold writeKey. intros ->. reflexivity. Qed.

(** C1, as stated, fails: the validator accepts the empty key and a key made
    of the byte 0x80, which the rule "1 to 250 bytes, each in (0x20, 0x7F)"
    excludes; an [mg] request with the empty key goes out on the wire. *)
Lemma key_validator_counterexample :
  isLegalMemcacheKey [] = true /\ ~ spec_legal_key []
  /\ isLegalMemcacheKey [x80] = true /\ ~ spec_legal_key [x80]
  /\ metaget.Encode
       (mg_request_value (metaget.mkEncoder [] false false false false false
                            false 0 false false false false 0 0 0 0) [])
       (mkWriter [] None)
     = (mkWriter (bytes "mg  v " ++ CRLF) None, None).
Proof.
  split; [vm_compute; reflexivity|].
  split; [intros [[H _] _]; simpl in H; lia|].
  split; [vm_compute; reflexivity|].
  split; [|vm_compute; reflexivity].
  intros [_ H]. inversion H as [|? ? Hb _]; subst.
  vm_compute in Hb. destruct Hb as [_ Hb]. discriminate Hb.
Qed.

(** C1 (amended): the validator accepts a key exactly when it has at most
    250 bytes and every byte is greater than 0x20 and different from 0x7F
    (so the empty key and bytes from 0x80 up pass); for every key it rejects,
    each of the four encoders returns the key error and leaves the writer as
    it was. *)
Theorem key_validator_and_encoders :
  (forall key,
     isLegalMemcacheKey key = true <->
     (length key <= 250)%nat /\
     Forall (fun b => 0x20 < bv b /\ bv b <> 0x7F) key)
  /\
  (forall key w,
     isLegalMemcacheKey key = false ->
     (forall e, metaget.Key e = key ->
        metaget.Encode e w = (w, Some (ErrInvalidKey key))) /\
     (forall e, metaset.Key e = key ->
        metaset.Encode e w = (w, Some (ErrInvalidKey key))) /\
     (forall e, metadelete.Key e = key ->
        metadelete.Encode e w = (w, Some (ErrInvalidKey key))) /\
     (forall e, metaarithmetic.Key e = key ->
        metaarithmetic.Encode e w = (w, Some (ErrInvalidKey key)))).
Proof.
  split; [exact isLegalMemcacheKey_iff|].
  intros key w Hbad.
  repeat split; intros e <-.
  - unfold metaget.Encode. rewrite writeKey_illegal by assumption. reflexivity.
  - unfold metaset.Encode. rewrite writeKey_illegal by assumption. reflexivity.
  - unfold metadelete.Encode. rewrite writeKey_illegal by assumption. reflexivity.
  - unfold metaarithmetic.Encode. rewrite writeKey_illegal by assumption. reflexivity.
Qed.

(** A key with a space in it is rejected and nothing reaches the writer. *)
Lemma key_validator_and_encoders_witness :
  isLegalMemcacheKey (bytes "contain space") = false /\
  metaget.Encode
    (metaget.mkEncoder (bytes "contain space") false false false false false
       false 0 false false false true 0 (-1) (-1) (-1))
    (mkWriter [] None)
  = (mkWriter [] None, Some (ErrInvalidKey (bytes "contain space"))).
Proof.
  split; [vm_compute; reflexivity|].
  apply (proj1 (proj2 key_validator_and_encoders (bytes "contain space")
                  (mkWriter [] None) eq_refl)).
  reflexivity.
Defined.

(* ------------------------------------------------------------------ *)
(** ** The encoders: what goes on the wire, and in which order *)

Lemma render_app a b : render (a ++ b) = render a ++ render b.
Proof. unfold render. rewrite map_app, concat_app. reflexivity. Qed.

Lemma render_nil : render [] = [].
Proof. reflexivity. Qed.

Lemma render_one t : render [t] = t ++ [Space].
Proof. unfold render. simpl. rewrite app_nil_r. reflexivity. Qed.

Lemma writeUintToken_render letter b v :
  writeUintToken letter b v = b ++ render (uintTok true letter v).
Proof. unfold writeUintToken, uintTok. rewrite render_one. reflexivity. Qed.

Lemma writeIntToken_render letter b v :
  writeIntToken letter b v = b ++ render (intTok true letter v).
Proof. unfold writeIntToken, intTok. rewrite render_one. reflexivity. Qed.

Ltac write_render :=
  repeat match goal with
  | |- context [if ?c then _ else _] => destruct c
  end;
  rewrite ?writeUintToken_render, ?writeIntToken_render;
  cbn [uintTok intTok flagTok]; rewrite ?render_nil, ?render_one, ?app_nil_r;
  reflexivity.

Lemma writeOpaque_render b v :
  writeOpaque b v = b ++ render (uintTok (negb (v =? 0)) "O" v).
Proof. unfold writeOpaque. write_render. Qed.

Lemma writeCasId_render b v :
  writeCasId b v = b ++ render (uintTok (negb (v =? 0)) "C" v).
Proof. unfold writeCasId. write_render. Qed.

Lemma writeCasOverride_render b v :
  writeCasOverride b v = b ++ render (uintTok (negb (v =? 0)) "E" v).
Proof. unfold writeCasOverride. write_render. Qed.

Lemma writeClientFlags_render b v :
  writeClientFlags b v = b ++ render (uintTok (0 <? v) "F" v).
Proof. unfold writeClientFlags. write_render. Qed.

Lemma writeTTL_render b v :
  writeTTL b v = b ++ render (intTok (0 <=? v) "T" v).
Proof. unfold writeTTL. write_render. Qed.

Lemma writeBlockTTL_render b v :
  writeBlockTTL b v = b ++ render (intTok (0 <=? v) "N" v).
Proof. unfold writeBlockTTL. write_render. Qed.

Lemma writeRecacheTTL_render b v :
  writeRecacheTTL b v = b ++ render (intTok (0 <=? v) "R" v).
Proof. unfold writeRecacheTTL. write_render. Qed.

Lemma writeInitialValue_render b v :
  writeInitialValue b v = b ++ render (uintTok (negb (v =? 0)) "J" v).
Proof. unfold writeInitialValue. write_render. Qed.

Lemma writeDelta_render b v :
  writeDelta b v = b ++ render (uintTok true "D" v).
Proof. unfold writeDelta. apply writeUintToken_render. Qed.

Lemma writeMode_render b mode :
  metaset.writeMode b mode = b ++ render (ms_mode_flag mode).
Proof. unfold metaset.writeMode, ms_mode_flag. write_render. Qed.

(** Each flag constant of constants.go is its letters followed by a space. *)
Lemma writeIf_render on b (t t' : string) :
  bytes t' = bytes t ++ [Space] ->
  writeIf on b t' = b ++ render (flagTok on t).
Proof.
  intros H. unfold writeIf, flagTok. destruct on.
  - rewrite render_one, H. reflexivity.
  - rewrite render_nil, app_nil_r. reflexivity.
Qed.

Lemma Writer_Write_ok w p :
  werr w = None -> Writer_Write w p = (mkWriter (wout w ++ p) None, None).
Proof. unfold Writer_Write. intros ->. reflexivity. Qed.

Ltac encode_render :=
  rewrite ?writeOpaque_render, ?writeCasId_render, ?writeCasOverride_render,
    ?writeClientFlags_render, ?writeTTL_render, ?writeBlockTTL_render,
    ?writeRecacheTTL_render, ?writeInitialValue_render, ?writeDelta_render,
    ?writeMode_render;
  rewrite ?(fun on b => writeIf_render on b "b" "b " eq_refl),
    ?(fun on b => writeIf_render on b "c" "c " eq_refl),
    ?(fun on b => writeIf_render on b "f" "f " eq_refl),
    ?(fun on b => writeIf_render on b "h" "h " eq_refl),
    ?(fun on b => writeIf_render on b "k" "k " eq_refl),
    ?(fun on b => writeIf_render on b "l" "l " eq_refl),
    ?(fun on b => writeIf_render on b "s" "s " eq_refl),
    ?(fun on b => writeIf_render on b "t" "t " eq_refl),
    ?(fun on b => writeIf_render on b "u" "u " eq_refl),
    ?(fun on b => writeIf_render on b "v" "v " eq_refl),
    ?(fun on b => writeIf_render on b "I" "I " eq_refl),
    ?(fun on b => writeIf_render on b "x" "x " eq_refl),
    ?(fun on b => writeIf_render on b "MD" "MD " eq_refl).

Lemma mg_Encode_wire e w :
  isLegalMemcacheKey (metaget.Key e) = true -> werr w = None ->
  metaget.Encode e w
  = (mkWriter (wout w ++ bytes "mg " ++ metaget.Key e ++ [Space]
               ++ render (mg_flags e) ++ CRLF) None, None).
Proof.
  intros Hk Hw. unfold metaget.Encode. rewrite writeKey_legal by assumption.
  encode_render. rewrite Writer_Write_ok by assumption.
  unfold mg_flags. rewrite !render_app, <- !app_assoc. reflexivity.
Qed.

Lemma ms_Encode_wire e w :
  isLegalMemcacheKey (metaset.Key e) = true -> werr w = None ->
  metaset.Encode e w
  = (mkWriter (wout w ++ bytes "ms " ++ metaset.Key e ++ [Space]
               ++ strconv_fmt.AppendInt (Z.of_nat (length (metaset.Value e)))
               ++ [Space] ++ render (ms_flags e) ++ CRLF
               ++ metaset.Value e ++ CRLF) None, None).
Proof.
  intros Hk Hw. unfold metaset.Encode. rewrite writeKey_legal by assumption.
  encode_render. rewrite Writer_Write_ok by assumption.
  unfold ms_flags. rewrite !render_app, <- !app_assoc. reflexivity.
Qed.

Lemma ma_Encode_wire e w :
  isLegalMemcacheKey (metaarithmetic.Key e) = true -> werr w = None ->
  metaarithmetic.Encode e w
  = (mkWriter (wout w ++ bytes "ma " ++ metaarithmetic.Key e ++ [Space]
               ++ render (ma_flags e) ++ CRLF) None, None).
Proof.
  intros Hk Hw. unfold metaarithmetic.Encode. rewrite writeKey_legal by assumption.
  encode_render. rewrite Writer_Write_ok by assumption.
  unfold ma_flags. rewrite !render_app, <- !app_assoc. reflexivity.
Qed.

(** C3, as stated, fails: the bytes written for a reset [MetaGetEncoder] with
    key "mykey" and [FetchValue] are not "mg mykey v\r\n"; the flag constant
    is "v " and the space stays in front of the line end. *)
Lemma mg_mykey_counterexample :
  fst (metaget.Encode
         (mg_request_value (metaget.mkEncoder [] false false false false false
                              false 0 false false false false 0 0 0 0)
            (bytes "mykey"))
         (mkWriter [] None))
  <> mkWriter (bytes "mg mykey v" ++ CRLF) None.
Proof. vm_compute. discriminate. Qed.

(** C3 (amended): encoding a reset MetaGet request with key "mykey" and
    [FetchValue] set hands exactly the bytes "mg mykey v \r\n" to the writer,
    with one space between the [v] flag and the line end, and returns no
    error. *)
Theorem mg_mykey_wire e0 w :
  werr w = None ->
  metaget.Encode (mg_request_value e0 (bytes "mykey")) w
  = (mkWriter (wout w ++ bytes "mg mykey v " ++ CRLF) None, None).
Proof.
  intros Hw. rewrite mg_Encode_wire by (try assumption; vm_compute; reflexivity).
  reflexivity.
Qed.

Lemma mg_mykey_wire_witness :
  metaget.Encode
    (mg_request_value (metaget.mkEncoder (bytes "old") true true true true true
                         true 7 true true true false 9 10 11 12)
       (bytes "mykey"))
    (mkWriter [] None)
  = (mkWriter (bytes "mg mykey v " ++ CRLF) None, None).
Proof. apply (mg_mykey_wire _ (mkWriter [] None)). reflexivity. Defined.

(** *** Order of the tokens *)

Lemma precedes_skip P Q a rest :
  Forall (fun t => Q t = false) a ->
  precedes P Q rest -> precedes P Q (a ++ rest).
Proof.
  intros Ha Hrest i j x y Hi Hj HP HQ.
  assert (Hjge : (length a <= j)%nat).
  { destruct (Nat.le_gt_cases (length a) j) as [|Hlt]; [assumption|].
    rewrite nth_error_app1 in Hj by assumption.
    apply nth_error_In in Hj. rewrite Forall_forall in Ha.
    rewrite (Ha _ Hj) in HQ. discriminate. }
  destruct (Nat.le_gt_cases (length a) i) as [Hige|Hlt]; [|lia].
  rewrite nth_error_app2 in Hi, Hj by assumption.
  specialize (Hrest _ _ _ _ Hi Hj HP HQ). lia.
Qed.

Lemma precedes_none P Q l :
  Forall (fun t => P t = false) l -> precedes P Q l.
Proof.
  intros Hl i j x y Hi _ HP _.
  apply nth_error_In in Hi. rewrite Forall_forall in Hl.
  rewrite (Hl _ Hi) in HP. discriminate.
Qed.

Ltac no_such_token :=
  repeat (apply Forall_app; split);
  unfold flagTok, uintTok, intTok, ms_mode_flag;
  repeat match goal with
  | |- context [if ?c then _ else _] => destruct c
  end;
  repeat constructor.

Ltac in_order :=
  repeat (apply precedes_skip; [solve [no_such_token]|]);
  apply precedes_none; solve [no_such_token].

Lemma uint_bytes_no_space d :
  Forall (fun b => b <> Space) (strconv_fmt.uint_bytes d).
Proof.
  induction d; simpl; constructor; try assumption; discriminate.
Qed.

Lemma AppendUint_no_space v :
  Forall (fun b => b <> Space) (strconv_fmt.AppendUint v).
Proof. apply uint_bytes_no_space. Qed.

Lemma AppendInt_no_space v :
  Forall (fun b => b <> Space) (strconv_fmt.AppendInt v).
Proof.
  unfold strconv_fmt.AppendInt. destruct (v <? 0).
  - constructor; [discriminate | apply AppendUint_no_space].
  - apply AppendUint_no_space.
Qed.

Ltac all_tokens :=
  repeat (apply Forall_app; split);
  unfold flagTok, uintTok, intTok, ms_mode_flag;
  repeat match goal with
  | |- context [if ?c then _ else _] => destruct c
  end;
  repeat (constructor; [split; [discriminate|]|]);
  try (constructor;
       [discriminate | first [apply AppendUint_no_space | apply AppendInt_no_space]]);
  repeat (constructor; try discriminate).

Lemma mg_flags_tokens e : Forall isToken (mg_flags e).
Proof. unfold mg_flags. all_tokens. Qed.

Lemma ms_flags_tokens e : Forall isToken (ms_flags e).
Proof. unfold ms_flags. all_tokens. Qed.

Lemma ma_flags_tokens e : Forall isToken (ma_flags e).
Proof. unfold ma_flags. all_tokens. Qed.

(** C4: each encoder writes its flag tokens, one space after each, in a
    fixed order in which
    - for [ms], the mode token (ME, MA, MP, MR) stands before the [T] token;
    - for [mg], the [N] token and the [T] token stand before the [t] token;
    - for [ma], the [T] token stands before the [N] token. *)
Theorem encoders_emit_in_order :
  (forall e w,
     isLegalMemcacheKey (metaset.Key e) = true -> werr w = None ->
     metaset.Encode e w
     = (mkWriter (wout w ++ bytes "ms " ++ metaset.Key e ++ [Space]
                  ++ strconv_fmt.AppendInt (Z.of_nat (length (metaset.Value e)))
                  ++ [Space] ++ render (ms_flags e) ++ CRLF
                  ++ metaset.Value e ++ CRLF) None, None)
     /\ Forall isToken (ms_flags e)
     /\ precedes (startsWith "M") (startsWith "T") (ms_flags e))
  /\
  (forall e w,
     isLegalMemcacheKey (metaget.Key e) = true -> werr w = None ->
     metaget.Encode e w
     = (mkWriter (wout w ++ bytes "mg " ++ metaget.Key e ++ [Space]
                  ++ render (mg_flags e) ++ CRLF) None, None)
     /\ Forall isToken (mg_flags e)
     /\ precedes (startsWith "N") (fun t => bytes_eqb t (bytes "t")) (mg_flags e)
     /\ precedes (startsWith "T") (fun t => bytes_eqb t (bytes "t")) (mg_flags e))
  /\
  (forall e w,
     isLegalMemcacheKey (metaarithmetic.Key e) = true -> werr w = None ->
     metaarithmetic.Encode e w
     = (mkWriter (wout w ++ bytes "ma " ++ metaarithmetic.Key e ++ [Space]
                  ++ render (ma_flags e) ++ CRLF) None, None)
     /\ Forall isToken (ma_flags e)
     /\ precedes (startsWith "T") (startsWith "N") (ma_flags e)).
Proof.
  split; [|split]; intros e w Hk Hw.
  - split; [apply ms_Encode_wire; assumption|].
    split; [apply ms_flags_tokens|].
    unfold ms_flags. in_order.
  - split; [apply mg_Encode_wire; assumption|].
    split; [apply mg_flags_tokens|].
    split; unfold mg_flags; in_order.
  - split; [apply ma_Encode_wire; assumption|].
    split; [apply ma_flags_tokens|].
    unfold ma_flags. in_order.
Qed.

Lemma encoders_emit_in_order_witness :
  metaget.Encode
    (metaget.mkEncoder (bytes "mykey") false false false false false false 0
       false true false true 0 100 (-1) 150)
    (mkWriter [] None)
  = (mkWriter (bytes "mg mykey N100 T150 t v " ++ CRLF) None, None)
  /\ precedes (startsWith "N") (fun t => bytes_eqb t (bytes "t"))
       [bytes "N100"; bytes "T150"; bytes "t"; bytes "v"].
Proof.
  destruct (proj1 (proj2 encoders_emit_in_order)
              (metaget.mkEncoder (bytes "mykey") false false false false false
                 false 0 false true false true 0 100 (-1) 150)
              (mkWriter [] None) eq_refl eq_refl) as (Hwire & _ & HN & _).
  split; [exact Hwire | exact HN].
Defined.

(* ------------------------------------------------------------------ *)
(** ** The opaque counter *)

Lemma wrap64_small x : 0 <= x < 2 ^ 64 -> opaque.wrap64 x = x.
Proof. intros. unfold opaque.wrap64. apply Z.mod_small. assumption. Qed.

Lemma wrap64_add_l a b : opaque.wrap64 (opaque.wrap64 a + b) = opaque.wrap64 (a + b).
Proof. unfold opaque.wrap64. apply Zplus_mod_idemp_l. Qed.

Lemma wrap64_sub_l a b : opaque.wrap64 (opaque.wrap64 a - b) = opaque.wrap64 (a - b).
Proof. unfold opaque.wrap64. apply Zminus_mod_idemp_l. Qed.

Lemma NextNOpaques_mod n v :
  opaque.NextNOpaques n v = (opaque.wrap64 (v + n), opaque.wrap64 (v + 1)).
Proof.
  unfold opaque.NextNOpaques, opaque.Counter_Add.
  rewrite wrap64_sub_l, wrap64_add_l. do 2 f_equal. lia.
Qed.

(** C5: [NextOpaque] is one fetch-add of 1 and returns the value the counter
    is left with; [NextNOpaques n] is one fetch-add of [n], leaves the counter
    at [v + n] and returns [v + 1], the first value of the range
    [v + 1 .. v + n] that the call moves the counter across.  In 64-bit
    arithmetic throughout; the sums are the plain ones as long as the counter
    does not run past 2^64 - 1, and then every value handed out is at
    least 1. *)
Theorem opaque_allocation :
  (forall v n,
     opaque.NextOpaque v = opaque.Counter_Add v 1 /\
     opaque.NextOpaque v = (opaque.wrap64 (v + 1), opaque.wrap64 (v + 1)) /\
     fst (opaque.NextNOpaques n v) = fst (opaque.Counter_Add v n) /\
     opaque.NextNOpaques n v = (opaque.wrap64 (v + n), opaque.wrap64 (v + 1)))
  /\
  (forall v n,
     0 <= v -> 1 <= n -> v + n < 2 ^ 64 ->
     opaque.NextOpaque v = (v + 1, v + 1) /\
     1 <= snd (opaque.NextOpaque v) /\
     opaque.NextNOpaques n v = (v + n, v + 1) /\
     fst (opaque.NextNOpaques n v) - v = n /\
     (forall k, 0 <= k < n ->
        v < snd (opaque.NextNOpaques n v) + k <= fst (opaque.NextNOpaques n v))).
Proof.
  split.
  - intros v n. rewrite NextNOpaques_mod.
    unfold opaque.NextOpaque, opaque.Counter_Add. cbn [fst]. repeat split.
  - intros v n Hv Hn Hb. rewrite NextNOpaques_mod.
    unfold opaque.NextOpaque, opaque.Counter_Add. cbn [fst snd].
    rewrite !wrap64_small by lia. repeat split; lia.
Qed.

Lemma opaque_allocation_witness :
  opaque.NextOpaque 0 = (1, 1) /\ opaque.NextNOpaques 3 0 = (3, 1).
Proof.
  destruct (proj2 opaque_allocation 0 3 ltac:(lia) ltac:(lia) ltac:(lia))
    as (H1 & _ & H3 & _).
  split; [exact H1 | exact H3].
Defined.

(* ------------------------------------------------------------------ *)
(** ** Reading lines *)

Lemma byte_eqb_refl c : byte_eqb c c = true.
Proof. apply Byte.byte_dec_lb. reflexivity. Qed.

Lemma byte_eqb_neq a b : a <> b -> byte_eqb a b = false.
Proof.
  intros H. destruct (byte_eqb a b) eqn:E; [|reflexivity].
  apply Byte.byte_dec_bl in E. contradiction.
Qed.

Lemma IndexByte_app line delim rest :
  ~ In delim line ->
  IndexByte (line ++ delim :: rest) delim = Some (length line).
Proof.
  induction line as [|c line IH]; intros Hnot; simpl.
  - rewrite byte_eqb_refl. reflexivity.
  - rewrite byte_eqb_neq by (intros ->; apply Hnot; left; reflexivity).
    rewrite IH by (intros Hin; apply Hnot; right; assumption). reflexivity.
Qed.

Lemma IndexByte_none s delim :
  ~ In delim s -> IndexByte s delim = None.
Proof.
  induction s as [|c s IH]; intros Hnot; simpl; [reflexivity|].
  rewrite byte_eqb_neq by (intros ->; apply Hnot; left; reflexivity).
  rewrite IH by (intros Hin; apply Hnot; right; assumption). reflexivity.
Qed.

Lemma firstn_line (line : list byte) delim rest :
  firstn (S (length line)) (line ++ delim :: rest) = line ++ [delim].
Proof.
  induction line as [|c line IH]; [reflexivity|].
  cbn [length app]. rewrite firstn_cons, IH. reflexivity.
Qed.

Lemma skipn_line (line : list byte) delim rest :
  skipn (S (length line)) (line ++ delim :: rest) = rest.
Proof.
  induction line as [|c line IH]; [reflexivity|].
  cbn [length app]. rewrite skipn_cons, IH. reflexivity.
Qed.

Lemma ReadString_line bs line rest :
  ~ In x0a line ->
  Reader_ReadString (mkReader bs (line ++ x0a :: rest)) x0a
  = (mkReader bs rest, line ++ [x0a], None).
Proof.
  intros Hnot. unfold Reader_ReadString. cbn [unread bufSize].
  rewrite IndexByte_app by assumption.
  rewrite firstn_line, skipn_line. reflexivity.
Qed.

Lemma ReadSlice_line bs line rest :
  ~ In x0a line -> (length line < bs)%nat ->
  Reader_ReadSlice (mkReader bs (line ++ x0a :: rest)) x0a
  = (mkReader bs rest, line ++ [x0a], None).
Proof.
  intros Hnot Hlen. unfold Reader_ReadSlice. cbn [unread bufSize].
  rewrite IndexByte_app by assumption.
  destruct (Nat.ltb_spec (length line) bs); [|lia].
  rewrite firstn_line, skipn_line. reflexivity.
Qed.

Lemma HasPrefix_iff s p :
  HasPrefix s p = true <-> exists tail, s = p ++ tail.
Proof.
  revert s. induction p as [|c p IH]; intros s; simpl.
  - split; [intros _; exists s; reflexivity | reflexivity].
  - destruct s as [|c' s].
    + split; [discriminate | intros [tail H]; discriminate].
    + rewrite andb_true_iff, IH. split.
      * intros [Hc [tail ->]]. apply Byte.byte_dec_bl in Hc. subst.
        exists tail. reflexivity.
      * intros [tail H]. injection H as -> ->. split.
        -- apply byte_eqb_refl.
        -- exists tail. reflexivity.
Qed.

(* ------------------------------------------------------------------ *)
(** ** The version decoder *)

(** C7: when the reader holds a line (bytes up to a newline), the version
    decoder records that line, newline included, in [HdrLine], consumes
    exactly the line, and returns an error -- [errNonVersionResp] -- exactly
    when the line does not start with the seven bytes "VERSION". *)
Theorem version_decode d bs line rest :
  ~ In x0a line ->
  exists err,
    version.Decode d (mkReader bs (line ++ x0a :: rest))
    = (version.mkDecoder (line ++ [x0a]), mkReader bs rest, err)
    /\ (err = None <-> exists tail, line ++ [x0a] = bytes "VERSION" ++ tail)
    /\ (err <> None <-> err = Some errNonVersionResp).
Proof.
  intros Hnot. unfold version.Decode.
  rewrite ReadString_line by assumption.
  destruct (HasPrefix (line ++ [x0a]) (bytes "VERSION")) eqn:E; cbn [negb].
  - exists None. split; [reflexivity|]. split.
    + split; [intros _; apply HasPrefix_iff; exact E | reflexivity].
    + split; [intros H; contradiction | discriminate].
  - exists (Some errNonVersionResp). split; [reflexivity|]. split.
    + split; [discriminate|].
      intros H. apply HasPrefix_iff in H. congruence.
    + split; [reflexivity | discriminate].
Qed.

Lemma version_decode_witness :
  exists err,
    version.Decode (version.mkDecoder [])
      (mkReader 4096 (bytes "unexpected response" ++ [x0d] ++ x0a :: bytes "HD"))
    = (version.mkDecoder ((bytes "unexpected response" ++ [x0d]) ++ [x0a]),
       mkReader 4096 (bytes "HD"), err)
    /\ (err = None <->
        exists tail,
          (bytes "unexpected response" ++ [x0d]) ++ [x0a] = bytes "VERSION" ++ tail)
    /\ (err <> None <-> err = Some errNonVersionResp).
Proof.
  apply (version_decode (version.mkDecoder []) 4096
           (bytes "unexpected response" ++ [x0d]) (bytes "HD")).
  vm_compute. intros H.
  repeat (destruct H as [H|H]; [discriminate H|]). exact H.
Defined.

(** Without a newline before the end of the stream the decoder returns the
    reader's error and leaves [HdrLine] alone, whatever the bytes are. *)
Lemma version_decode_no_line d bs s :
  ~ In x0a s ->
  version.Decode d (mkReader bs s) = (d, mkReader bs [], Some ErrEOF).
Proof.
  intros Hnot. unfold version.Decode, Reader_ReadString. cbn [unread bufSize].
  rewrite IndexByte_none by assumption. reflexivity.
Qed.

(* ------------------------------------------------------------------ *)
(** ** The bulk decoder *)

Lemma HasPrefix_cons c s p ps :
  HasPrefix (c :: s) (p :: ps) = byte_eqb c p && HasPrefix s ps.
Proof. reflexivity. Qed.

Lemma NoOpResponse_bytes : NoOpResponse = ["M"; "N"; x0d; x0a]%byte.
Proof. reflexivity. Qed.

Lemma ReadMNResp_spec r :
  (exists rest,
     unread r = NoOpResponse ++ rest /\
     ReadMNResp r = (mkReader (bufSize r) rest, None))
  \/
  (HasPrefix (unread r) NoOpResponse = false /\
   exists r' e, ReadMNResp r = (r', Some e)).
Proof.
  destruct r as [bs s]. rewrite NoOpResponse_bytes.
  unfold ReadMNResp, ReadCLRF, Reader_ReadByte.
  cbn [unread bufSize].
  destruct s as [|m s]; [right; split; [reflexivity | eauto]|].
  rewrite HasPrefix_cons. cbn [unread bufSize].
  destruct (byte_eqb m "M") eqn:Em; cbn [negb andb];
    [apply Byte.byte_dec_bl in Em; subst m | right; split; [reflexivity | eauto]].
  destruct s as [|n s]; [right; split; [reflexivity | eauto]|].
  rewrite HasPrefix_cons. cbn [unread bufSize].
  destruct (byte_eqb n "N") eqn:En; cbn [negb andb];
    [apply Byte.byte_dec_bl in En; subst n | right; split; [reflexivity | eauto]].
  destruct s as [|cr s]; [right; split; [reflexivity | eauto]|].
  rewrite HasPrefix_cons. cbn [unread bufSize].
  destruct (byte_eqb cr x0d) eqn:Ec; cbn [negb andb];
    [apply Byte.byte_dec_bl in Ec; subst cr | right; split; [reflexivity | eauto]].
  destruct s as [|nl s]; [right; split; [reflexivity | eauto]|].
  rewrite HasPrefix_cons. cbn [unread bufSize].
  destruct (byte_eqb nl x0a) eqn:El; cbn [negb andb];
    [apply Byte.byte_dec_bl in El; subst nl | right; split; [reflexivity | eauto]].
  left. exists s. split; reflexivity.
Qed.

Lemma decodeAll_inOrder {T} (decode : T -> Reader -> T * Reader * outcome)
    ds r ds' r' :
  decodesInOrder decode ds r ds' r' ->
  bulk.decodeAll T decode ds r = (ds', r', Returned None).
Proof.
  induction 1 as [|d ds r d' r' ds' r'' Hd _ IH]; [reflexivity|].
  cbn [bulk.decodeAll]. rewrite Hd, IH. reflexivity.
Qed.

Lemma decodeAll_success {T} (decode : T -> Reader -> T * Reader * outcome) ds :
  forall r ds' r',
    bulk.decodeAll T decode ds r = (ds', r', Returned None) ->
    decodesInOrder decode ds r ds' r'.
Proof.
  induction ds as [|d ds IH]; intros r ds' r' H; cbn [bulk.decodeAll] in H.
  - injection H as <- <-. constructor.
  - destruct (decode d r) as [[d1 r1] res] eqn:Hd.
    destruct res as [[e|]|]; try (injection H as _ _ H; discriminate H).
    destruct (bulk.decodeAll T decode ds r1) as [[ds1 r2] res2] eqn:Hall.
    injection H as <- <- ->.
    econstructor; [exact Hd | apply IH; exact Hall].
Qed.

(** C6: the bulk decoder runs its sub-decoders in order on the one reader
    and then reads the sentinel.  When every sub-decoder succeeds, it
    succeeds exactly when the next four bytes are "MN\r\n", and then it has
    consumed exactly those four bytes; when they are anything else (or
    missing) it returns an error.  It never succeeds otherwise. *)
Theorem bulk_decode_sentinel (T : Type)
    (decode : T -> Reader -> T * Reader * outcome) ds r :
  (forall ds' r',
     decodesInOrder decode ds r ds' r' ->
     (forall rest,
        unread r' = NoOpResponse ++ rest ->
        bulk.Decode T decode ds r
        = (ds', mkReader (bufSize r') rest, Returned None)) /\
     (HasPrefix (unread r') NoOpResponse = false ->
      exists r'' e, bulk.Decode T decode ds r = (ds', r'', Returned (Some e))))
  /\
  (forall ds' r'',
     bulk.Decode T decode ds r = (ds', r'', Returned None) ->
     exists r',
       decodesInOrder decode ds r ds' r' /\
       unread r' = NoOpResponse ++ unread r'' /\ bufSize r'' = bufSize r').
Proof.
  split.
  - intros ds' r' Hrun. unfold bulk.Decode.
    rewrite (decodeAll_inOrder _ _ _ _ _ Hrun).
    destruct (ReadMNResp_spec r') as [(rest' & Hu & Hr) | (Hp & r2 & e & Hr)];
      rewrite Hr; split.
    + intros rest Hrest. rewrite Hu in Hrest.
      apply app_inv_head in Hrest. subst. reflexivity.
    + intros Hp. rewrite Hu in Hp.
      assert (HasPrefix (NoOpResponse ++ rest') NoOpResponse = true) as Ht
        by (apply HasPrefix_iff; eauto).
      congruence.
    + intros rest Hrest.
      assert (HasPrefix (unread r') NoOpResponse = true) as Ht
        by (apply HasPrefix_iff; eauto).
      congruence.
    + intros _. eauto.
  - intros ds' r'' H. unfold bulk.Decode in H.
    destruct (bulk.decodeAll T decode ds r) as [[ds1 r1] res] eqn:Hall.
    destruct res as [[e|]|]; try (injection H as _ _ H; discriminate H).
    apply decodeAll_success in Hall.
    destruct (ReadMNResp_spec r1) as [(rest' & Hu & Hr) | (Hp & r2 & e & Hr)];
      rewrite Hr in H.
    + injection H as <- <-. exists r1. cbn [unread bufSize]. auto.
    + injection H as _ _ H. discriminate H.
Qed.

(** Scenario 8: three [mg] sub-responses, then the sentinel. *)
Lemma bulk_decode_sentinel_witness :
  bulk.Decode _ metaget.Decode [d0; d0; d0]
    (NewReader (bytes "HD O1000" ++ CRLF ++ bytes "EN O1001" ++ CRLF
                ++ bytes "VA 2 O1002" ++ CRLF ++ bytes "hi" ++ CRLF
                ++ NoOpResponse ++ bytes "HD"))
  = ([metaget.setOpaque (metaget.setStatus d0 CacheHit) 1000;
      metaget.setOpaque (metaget.setStatus d0 CacheMiss) 1001;
      metaget.setValue (metaget.setOpaque (metaget.setStatus d0 CacheHit) 1002)
        (Some (bytes "hi"))],
     mkReader (bufSize (NewReader (NoOpResponse ++ bytes "HD"))) (bytes "HD"),
     Returned None).
Proof.
  refine (proj1 (proj1 (bulk_decode_sentinel _ metaget.Decode [d0; d0; d0] _)
                   _ (NewReader (NoOpResponse ++ bytes "HD")) _) (bytes "HD") _).
  - econstructor; [vm_compute; reflexivity|].
    econstructor; [vm_compute; reflexivity|].
    econstructor; [vm_compute; reflexivity|].
    constructor.
  - reflexivity.
Defined.

(* ------------------------------------------------------------------ *)
(** ** Submitting a link to a connection *)

Lemma tcpConn_Append_locked (Link : Type) (c : net.tcpConn Link) link :
  net.writer (net.mu Link c) = true ->
  net.tcpConn_Append Link c link = (c, Some errConnChangingState).
Proof.
  destruct c as [[w n] st ch]. cbn. intros ->. reflexivity.
Qed.

Lemma tcpConn_Append_not_connected (Link : Type) (c : net.tcpConn Link) link :
  net.writer (net.mu Link c) = false ->
  net.state Link c <> Connected ->
  net.tcpConn_Append Link c link = (c, Some (ErrNotConnected (net.state Link c))).
Proof.
  destruct c as [[w n] st ch]. cbn. intros -> Hst.
  destruct st; try contradiction; reflexivity.
Qed.

Lemma tcpConn_Append_full (Link : Type) (c : net.tcpConn Link) link :
  net.writer (net.mu Link c) = false ->
  net.state Link c = Connected ->
  (net.capacity Link (net.outbound Link c)
   <= length (net.queued Link (net.outbound Link c)))%nat ->
  net.tcpConn_Append Link c link = (c, Some errOutboundQueueFull).
Proof.
  destruct c as [[w n] st [q cap]].
  unfold net.tcpConn_Append, net.TryRLock, net.RUnlock, net.trySend.
  cbn [net.mu net.state net.outbound net.writer net.readers net.queued
       net.capacity].
  intros -> -> Hfull. cbn [net.connState_eqb pred].
  destruct (Nat.ltb_spec (length q) cap); [lia | reflexivity].
Qed.

Lemma tcpConn_Append_queued (Link : Type) (c : net.tcpConn Link) link :
  net.writer (net.mu Link c) = false ->
  net.state Link c = Connected ->
  (length (net.queued Link (net.outbound Link c))
   < net.capacity Link (net.outbound Link c))%nat ->
  net.tcpConn_Append Link c link
  = (net.mkConn Link (net.mu Link c) Connected
       (net.mkChan Link (net.queued Link (net.outbound Link c) ++ [link])
          (net.capacity Link (net.outbound Link c))),
     None).
Proof.
  destruct c as [[w n] st [q cap]].
  unfold net.tcpConn_Append, net.TryRLock, net.RUnlock, net.trySend.
  cbn [net.mu net.state net.outbound net.writer net.readers net.queued
       net.capacity].
  intros -> -> Hroom. cbn [net.connState_eqb pred].
  destruct (Nat.ltb_spec (length q) cap); [reflexivity | lia].
Qed.

Lemma connState_Connected_dec (st : connState) : {st = Connected} + {st <> Connected}.
Proof. destruct st; (left; reflexivity) || (right; discriminate). Qed.

Lemma tcpConn_Append_unlocked_not_changing (Link : Type) (c : net.tcpConn Link) link :
  net.writer (net.mu Link c) = false ->
  Is_errConnChangingState (snd (net.tcpConn_Append Link c link)) = false.
Proof.
  intros Hw.
  destruct (connState_Connected_dec (net.state Link c)) as [Hc|Hc].
  - destruct (Nat.le_gt_cases
                (net.capacity Link (net.outbound Link c))
                (length (net.queued Link (net.outbound Link c)))).
    + rewrite tcpConn_Append_full by assumption. reflexivity.
    + rewrite tcpConn_Append_queued by assumption. reflexivity.
  - rewrite tcpConn_Append_not_connected by assumption. reflexivity.
Qed.

(** C8: [tcpConn.Append] is a total function of the connection's lock,
    state and outbound queue, built from [TryRLock] and a [select] with a
    [default] branch, neither of which waits.  It returns
    - [errConnChangingState], and touches nothing, when the state lock is
      not available;
    - a not-connected error when the lock is available and the state is not
      [Connected];
    - [errOutboundQueueFull] when the state is [Connected] and the outbound
      channel holds as many links as its capacity;
    - no error otherwise, with the link queued behind the links already
      there.
    The three errors are different from one another, and the lock is
    released again in every case. *)
Theorem tcpConn_Append_cases (Link : Type) (c : net.tcpConn Link) (link : Link) :
  (net.writer (net.mu Link c) = true ->
   net.tcpConn_Append Link c link = (c, Some errConnChangingState))
  /\
  (net.writer (net.mu Link c) = false ->
   net.state Link c <> Connected ->
   net.tcpConn_Append Link c link
   = (c, Some (ErrNotConnected (net.state Link c))))
  /\
  (net.writer (net.mu Link c) = false ->
   net.state Link c = Connected ->
   (net.capacity Link (net.outbound Link c)
    <= length (net.queued Link (net.outbound Link c)))%nat ->
   net.tcpConn_Append Link c link = (c, Some errOutboundQueueFull))
  /\
  (net.writer (net.mu Link c) = false ->
   net.state Link c = Connected ->
   (length (net.queued Link (net.outbound Link c))
    < net.capacity Link (net.outbound Link c))%nat ->
   net.tcpConn_Append Link c link
   = (net.mkConn Link (net.mu Link c) Connected
        (net.mkChan Link (net.queued Link (net.outbound Link c) ++ [link])
           (net.capacity Link (net.outbound Link c))),
      None))
  /\
  (errConnChangingState <> errOutboundQueueFull /\
   (forall st, errConnChangingState <> ErrNotConnected st) /\
   (forall st, errOutboundQueueFull <> ErrNotConnected st)).
Proof.
  split; [apply tcpConn_Append_locked|].
  split; [apply tcpConn_Append_not_connected|].
  split; [apply tcpConn_Append_full|].
  split; [apply tcpConn_Append_queued|].
  repeat split; discriminate.
Qed.

Lemma tcpConn_Append_cases_witness :
  net.tcpConn_Append nat
    (net.mkConn nat (net.mkMutex false 0) Connected (net.mkChan nat [1; 2]%nat 3))
    7%nat
  = (net.mkConn nat (net.mkMutex false 0) Connected
       (net.mkChan nat [1; 2; 7]%nat 3), None).
Proof.
  apply (proj1 (proj2 (proj2 (proj2
           (tcpConn_Append_cases nat
              (net.mkConn nat (net.mkMutex false 0) Connected
                 (net.mkChan nat [1; 2]%nat 3)) 7%nat))))).
  - reflexivity.
  - reflexivity.
  - cbn. lia.
Defined.


(* ------------------------------------------------------------------ *)
(** ** Submitting a link to a connection list *)

Section ListAppend.
Variable Link : Type.
Variable link : Link.

Lemma replace_nth_same (l : list (net.tcpConn Link)) : forall n c,
  nth_error l n = Some c -> net.replace_nth Link l n c = l.
Proof.
  induction l as [|x l IH]; intros [|n] c H; simpl in *; try discriminate.
  - injection H as ->. reflexivity.
  - rewrite IH by assumption. reflexivity.
Qed.

Lemma appendLoop_S fuel (t : net.tcpConnList Link) :
  net.appendLoop Link (S fuel) t link =
  match nth_error (net.conns Link t) (target t 1) with
  | None =>
      (net.mkList Link (net.numConns Link t) (net.conns Link t)
         (opaque.wrap64 (net.iterIdx Link t + 1)),
       PanicIndexOutOfRange)
  | Some c =>
      let t' := net.mkList Link (net.numConns Link t)
                  (net.replace_nth Link (net.conns Link t) (target t 1)
                     (fst (net.tcpConn_Append Link c link)))
                  (opaque.wrap64 (net.iterIdx Link t + 1)) in
      if negb (Is_errConnChangingState (snd (net.tcpConn_Append Link c link)))
      then (t', Returned (snd (net.tcpConn_Append Link c link)))
      else net.appendLoop Link fuel t' link
  end.
Proof.
  cbn [net.appendLoop]. unfold target.
  cbn [net.numConns net.conns net.iterIdx].
  destruct (nth_error (net.conns Link t) _) as [c|]; [|reflexivity].
  destruct (net.tcpConn_Append Link c link) as [c' err]. reflexivity.
Qed.

Lemma wrap64_range x : 0 <= opaque.wrap64 x < 2 ^ 64.
Proof. unfold opaque.wrap64. apply Z.mod_pos_bound. lia. Qed.

Lemma lockedAt_shift (t : net.tcpConnList Link) j :
  lockedAt (net.mkList Link (net.numConns Link t) (net.conns Link t)
              (opaque.wrap64 (net.iterIdx Link t + 1))) j
  <-> lockedAt t (j + 1).
Proof.
  unfold lockedAt, target. cbn [net.numConns net.conns net.iterIdx].
  rewrite wrap64_add_l.
  replace (net.iterIdx Link t + 1 + j) with (net.iterIdx Link t + (j + 1)) by lia.
  reflexivity.
Qed.

(** While the connections picked are changing state, the loop moves on
    and changes nothing but the counter. *)
Lemma appendLoop_skip : forall (k fuel : nat) (t : net.tcpConnList Link),
  0 <= net.iterIdx Link t < 2 ^ 64 ->
  (forall j, 1 <= j <= Z.of_nat k -> lockedAt t j) ->
  net.appendLoop Link (k + fuel) t link
  = net.appendLoop Link fuel
      (net.mkList Link (net.numConns Link t) (net.conns Link t)
         (opaque.wrap64 (net.iterIdx Link t + Z.of_nat k))) link.
Proof.
  induction k as [|k IH]; intros fuel t Hrange Hlocked.
  - cbn [Nat.add Z.of_nat]. rewrite Z.add_0_r, wrap64_small by assumption.
    destruct t; reflexivity.
  - cbn [Nat.add]. rewrite appendLoop_S.
    destruct (Hlocked 1 ltac:(lia)) as (c & Hc & Hw).
    rewrite Hc. rewrite tcpConn_Append_locked by assumption.
    cbn [fst snd Is_errConnChangingState errors_Is_changing
         error_is_changing_state negb].
    rewrite replace_nth_same by assumption.
    rewrite IH.
    + cbn [net.numConns net.conns net.iterIdx]. rewrite wrap64_add_l.
      do 3 f_equal. lia.
    + cbn [net.iterIdx]. apply wrap64_range.
    + intros j Hj. apply lockedAt_shift. apply Hlocked. lia.
Qed.

Lemma tcpConnList_Append_answer (t : net.tcpConnList Link) k c :
  0 <= net.iterIdx Link t < 2 ^ 64 ->
  0 <= k < net.numConns Link t ->
  (forall j, 1 <= j <= k -> lockedAt t j) ->
  nth_error (net.conns Link t) (target t (k + 1)) = Some c ->
  net.writer (net.mu Link c) = false ->
  net.tcpConnList_Append Link t link
  = (net.mkList Link (net.numConns Link t)
       (net.replace_nth Link (net.conns Link t) (target t (k + 1))
          (fst (net.tcpConn_Append Link c link)))
       (opaque.wrap64 (net.iterIdx Link t + (k + 1))),
     Returned (snd (net.tcpConn_Append Link c link))).
Proof.
  intros Hrange Hk Hlocked Hc Hw. unfold net.tcpConnList_Append.
  replace (Z.to_nat (net.numConns Link t))
    with (Z.to_nat k + S (Z.to_nat (net.numConns Link t - k - 1)))%nat by lia.
  rewrite appendLoop_skip by (try assumption; intros j Hj; apply Hlocked; lia).
  rewrite appendLoop_S.
  unfold target in *. cbn [net.numConns net.conns net.iterIdx].
  rewrite wrap64_add_l, Z2Nat.id by lia.
  replace (net.iterIdx Link t + k + 1) with (net.iterIdx Link t + (k + 1)) by lia.
  rewrite Hc.
  rewrite tcpConn_Append_unlocked_not_changing by assumption.
  reflexivity.
Qed.

Lemma tcpConnList_Append_unhealthy (t : net.tcpConnList Link) :
  0 <= net.iterIdx Link t < 2 ^ 64 ->
  (forall j, 1 <= j <= net.numConns Link t -> lockedAt t j) ->
  net.tcpConnList_Append Link t link
  = (net.mkList Link (net.numConns Link t) (net.conns Link t)
       (opaque.wrap64 (net.iterIdx Link t + Z.max 0 (net.numConns Link t))),
     Returned (Some (ErrBackendUnhealthy (net.numConns Link t)))).
Proof.
  intros Hrange Hlocked. unfold net.tcpConnList_Append.
  replace (Z.to_nat (net.numConns Link t))
    with (Z.to_nat (net.numConns Link t) + 0)%nat by lia.
  rewrite appendLoop_skip by (try assumption; intros j Hj; apply Hlocked; lia).
  cbn [net.appendLoop net.numConns]. rewrite ZifyInst.of_nat_to_nat_eq.
  reflexivity.
Qed.

End ListAppend.

(** C9: [tcpConnList.Append] picks, at each iteration, the connection at
    index (counter after the increment) mod [numConns].  While the picked
    connections answer [errConnChangingState] it goes on; the first
    connection whose lock is free decides: its answer -- success, queue-full
    or not-connected, never changing-state -- is returned at once, no other
    connection is touched and the counter has advanced by the number of
    attempts made.  After [numConns] changing-state answers in a row the
    result is the backend-unhealthy error. *)
Theorem tcpConnList_Append_sweep (Link : Type) (t : net.tcpConnList Link)
    (link : Link) :
  0 <= net.iterIdx Link t < 2 ^ 64 ->
  0 <= net.numConns Link t ->
  (forall k c,
     0 <= k < net.numConns Link t ->
     (forall j, 1 <= j <= k -> lockedAt t j) ->
     nth_error (net.conns Link t) (target t (k + 1)) = Some c ->
     net.writer (net.mu Link c) = false ->
     net.tcpConnList_Append Link t link
     = (net.mkList Link (net.numConns Link t)
          (net.replace_nth Link (net.conns Link t) (target t (k + 1))
             (fst (net.tcpConn_Append Link c link)))
          (opaque.wrap64 (net.iterIdx Link t + (k + 1))),
        Returned (snd (net.tcpConn_Append Link c link)))
     /\ Is_errConnChangingState (snd (net.tcpConn_Append Link c link)) = false)
  /\
  ((forall j, 1 <= j <= net.numConns Link t -> lockedAt t j) ->
   net.tcpConnList_Append Link t link
   = (net.mkList Link (net.numConns Link t) (net.conns Link t)
        (opaque.wrap64 (net.iterIdx Link t + net.numConns Link t)),
      Returned (Some (ErrBackendUnhealthy (net.numConns Link t))))).
Proof.
  intros Hrange Hn. split.
  - intros k c Hk Hlocked Hc Hw. split.
    + apply tcpConnList_Append_answer; assumption.
    + apply tcpConn_Append_unlocked_not_changing; assumption.
  - intros Hlocked. rewrite tcpConnList_Append_unhealthy by assumption.
    rewrite Z.max_r by assumption. reflexivity.
Qed.

(** Two connections, the counter at 0: the first attempt picks index 1,
    which is changing state; the second picks index 0, whose queue is full,
    and that error comes back. *)
Lemma tcpConnList_Append_sweep_witness :
  net.tcpConnList_Append nat
    (net.mkList nat 2
       [net.mkConn nat (net.mkMutex false 0) Connected (net.mkChan nat [5%nat] 1);
        net.mkConn nat (net.mkMutex true 0) Connected (net.mkChan nat [] 1)]
       0)
    9%nat
  = (net.mkList nat 2
       [net.mkConn nat (net.mkMutex false 0) Connected (net.mkChan nat [5%nat] 1);
        net.mkConn nat (net.mkMutex true 0) Connected (net.mkChan nat [] 1)]
       2,
     Returned (Some errOutboundQueueFull)).
Proof.
  refine (proj1 (proj1 (tcpConnList_Append_sweep nat
            (net.mkList nat 2
               [net.mkConn nat (net.mkMutex false 0) Connected
                  (net.mkChan nat [5%nat] 1);
                net.mkConn nat (net.mkMutex true 0) Connected
                  (net.mkChan nat [] 1)] 0)
            9%nat _ _) 1
            (net.mkConn nat (net.mkMutex false 0) Connected
               (net.mkChan nat [5%nat] 1)) _ _ _ _)).
  - cbn. lia.
  - cbn. lia.
  - cbn. lia.
  - intros j Hj. assert (j = 1) as -> by lia.
    eexists. split; [vm_compute; reflexivity | reflexivity].
  - vm_compute. reflexivity.
  - reflexivity.
Defined.

(* ------------------------------------------------------------------ *)
(** ** The response decoders: which fields a response can touch *)

(** A property of the decoder that no step of the token loop disturbs,
    as long as the tokens stay clear of [touches], is not disturbed by the
    loop. *)
Lemma tokenLoop_frame {D A : Type} (body : D -> Z -> list byte -> step D)
    (f : D -> A) (touches : list byte -> bool) :
  (forall d vs elem, touches elem = false -> f (stepState (body d vs elem)) = f d) ->
  forall elems d vs,
    Forall (fun elem => touches elem = false) elems ->
    f (stepState (tokenLoop body d vs elems)) = f d.
Proof.
  intros Hstep. induction elems as [|elem elems IH]; intros d vs Hall;
    [reflexivity|].
  inversion Hall as [|? ? Helem Hrest]; subst. cbn [tokenLoop].
  specialize (Hstep d vs elem Helem).
  destruct (body d vs elem) as [d' vs'|d' res]; cbn [stepState] in *.
  - rewrite IH by assumption. exact Hstep.
  - exact Hstep.
Qed.

(** Without a token that starts with a digit the value size stays at -1. *)
Lemma tokenLoop_no_size {D : Type} (body : D -> Z -> list byte -> step D) :
  (forall d elem,
     startsWithDigit elem = false ->
     forall d' vs, body d (-1) elem = Next d' vs -> vs = -1) ->
  forall elems d,
    Forall (fun elem => startsWithDigit elem = false) elems ->
    forall d' vs, tokenLoop body d (-1) elems = Next d' vs -> vs = -1.
Proof.
  intros Hstep. induction elems as [|elem elems IH]; intros d Hall d' vs H.
  - cbn in H. injection H as _ <-. reflexivity.
  - inversion Hall as [|? ? Helem Hrest]; subst. cbn [tokenLoop] in H.
    destruct (body d (-1) elem) as [d1 vs1|d1 res] eqn:E; [|discriminate].
    apply Hstep in E; [|assumption]. subst vs1.
    eapply IH; eassumption.
Qed.

Ltac token_cases :=
  repeat match goal with
  | |- context [if ?c then _ else _] => destruct c eqn:?
  | |- context [match ?x with inl _ => _ | inr _ => _ end] => destruct x
  end.

Ltac untouched :=
  cbn [stepState]; try reflexivity;
  repeat match goal with
  | H : startsWith _ (_ :: _) = false |- _ => cbn [startsWith] in H
  | H : isTok _ _ = false |- _ => unfold isTok in H
  | H : (_ || _) = false |- _ => apply orb_false_elim in H; destruct H
  | H : (length (_ :: ?r) =? 1)%nat = true |- _ =>
      destruct r; [clear H | discriminate H]
  | H : context [bytes ?s] |- _ =>
      let v := eval vm_compute in (bytes s) in
      change (bytes s) with v in H; cbn [bytes_eqb] in H;
      rewrite ?andb_true_r in H
  end;
  congruence.

Section MetaGetFrame.
Import metaget.

Lemma mg_token_Recache d vs elem :
  (isTok "W" elem || isTok "Z" elem) = false ->
  Recache (stepState (token d vs elem)) = Recache d.
Proof.
  intros H. unfold token. destruct elem as [|c rest]; [reflexivity|].
  token_cases; untouched.
Qed.

Lemma mg_token_Stale d vs elem :
  isTok "X" elem = false ->
  Stale (stepState (token d vs elem)) = Stale d.
Proof.
  intros H. unfold token. destruct elem as [|c rest]; [reflexivity|].
  token_cases; untouched.
Qed.

Lemma mg_token_Value d vs elem :
  false = false ->
  Value (stepState (token d vs elem)) = Value d.
Proof.
  intros _. unfold token. destruct elem as [|c rest]; [reflexivity|].
  token_cases; reflexivity.
Qed.

Lemma mg_token_Status d vs elem :
  false = false ->
  Status (stepState (token d vs elem)) = Status d.
Proof.
  intros _. unfold token. destruct elem as [|c rest]; [reflexivity|].
  token_cases; reflexivity.
Qed.

Lemma mg_token_HdrLine d vs elem :
  false = false ->
  HdrLine (stepState (token d vs elem)) = HdrLine d.
Proof.
  intros _. unfold token. destruct elem as [|c rest]; [reflexivity|].
  token_cases; reflexivity.
Qed.

Lemma mg_token_Opaque d vs elem :
  startsWith "O" elem = false ->
  dOpaque (stepState (token d vs elem)) = dOpaque d.
Proof.
  intros H. unfold token. destruct elem as [|c rest]; [reflexivity|].
  token_cases; untouched.
Qed.

Lemma mg_token_TTL d vs elem :
  startsWith "t" elem = false ->
  RemainingTTLSeconds (stepState (token d vs elem)) = RemainingTTLSeconds d.
Proof.
  intros H. unfold token. destruct elem as [|c rest]; [reflexivity|].
  token_cases; untouched.
Qed.

Lemma mg_token_CasId d vs elem :
  startsWith "c" elem = false ->
  CasId (stepState (token d vs elem)) = CasId d.
Proof.
  intros H. unfold token. destruct elem as [|c rest]; [reflexivity|].
  token_cases; untouched.
Qed.

Lemma mg_token_ClientFlags d vs elem :
  startsWith "f" elem = false ->
  ClientFlags (stepState (token d vs elem)) = ClientFlags d.
Proof.
  intros H. unfold token. destruct elem as [|c rest]; [reflexivity|].
  token_cases; untouched.
Qed.

Lemma mg_token_Hit d vs elem :
  startsWith "h" elem = false ->
  IsItemHitBefore (stepState (token d vs elem)) = IsItemHitBefore d.
Proof.
  intros H. unfold token. destruct elem as [|c rest]; [reflexivity|].
  token_cases; untouched.
Qed.

Lemma mg_token_ItemKey d vs elem :
  startsWith "k" elem = false ->
  ItemKey (stepState (token d vs elem)) = ItemKey d.
Proof.
  intros H. unfold token. destruct elem as [|c rest]; [reflexivity|].
  token_cases; untouched.
Qed.

Lemma mg_token_ItemSize d vs elem :
  startsWith "s" elem = false ->
  ItemSizeInBytes (stepState (token d vs elem)) = ItemSizeInBytes d.
Proof.
  intros H. unfold token. destruct elem as [|c rest]; [reflexivity|].
  token_cases; untouched.
Qed.

Lemma mg_token_LastAccess d vs elem :
  startsWith "l" elem = false ->
  TimeSinceLastAccessedSeconds (stepState (token d vs elem))
  = TimeSinceLastAccessedSeconds d.
Proof.
  intros H. unfold token. destruct elem as [|c rest]; [reflexivity|].
  token_cases; untouched.
Qed.

Lemma mg_token_no_size d elem :
  startsWithDigit elem = false ->
  forall d' vs, token d (-1) elem = Next d' vs -> vs = -1.
Proof.
  intros H d' vs. unfold token. destruct elem as [|c rest]; [discriminate|].
  cbn [startsWithDigit] in H. rewrite H, andb_false_r.
  token_cases; intros E; try discriminate E; injection E as _ <-; reflexivity.
Qed.

End MetaGetFrame.

Lemma Forall_nothing {A : Type} (l : list A) :
  Forall (fun _ => false = false) l.
Proof. induction l; constructor; auto. Qed.

Section MetaGetDecode.
Import metaget.

(** A field that only the token loop can write is kept by [Decode] when
    no token of its kind follows the status word. *)
Lemma mg_Decode_frame {A : Type} (f : MetaGetDecoder -> A)
    (touches : list byte -> bool) :
  (forall d v, f (setStatus d v) = f d) ->
  (forall d v, f (setHdrLine d v) = f d) ->
  (forall d v, f (setValue d v) = f d) ->
  (forall d vs elem, touches elem = false ->
     f (stepState (token d vs elem)) = f d) ->
  forall d r, absent touches r -> f (fst (fst (Decode d r))) = f d.
Proof.
  intros Hst Hhl Hval Hstep d r. unfold absent, headerTokens, Decode.
  destruct (Reader_ReadSlice r x0a) as [[r1 hdr] [e|]]; [reflexivity|].
  intros Hall. unfold header.
  destruct (Fields hdr) as [|w elems]; [reflexivity|]. cbn [tl] in Hall.
  destruct (MetadataStatus_eqb _ _).
  - cbn [fst]. rewrite Hhl, Hst. reflexivity.
  - pose proof (tokenLoop_frame token f touches Hstep elems
                  (setStatus d (MetaGetStatusFromHeader w)) (-1) Hall) as Hloop.
    rewrite Hst in Hloop.
    destruct (tokenLoop token _ (-1) elems) as [d' vs|d' res];
      cbn [stepState] in Hloop; [|exact Hloop].
    destruct (0 <=? vs); [|exact Hloop].
    destruct (ReadFull r1 (Z.to_nat vs)) as [[[r2 buf] n] [e|]].
    + cbn [fst]. rewrite Hval. exact Hloop.
    + destruct (ReadCLRF r2). cbn [fst]. rewrite Hval. exact Hloop.
Qed.

(** What [Decode] does after a header line without a size token: the
    loop leaves, or ends with the value size still at -1. *)
Lemma mg_header_no_size d hdr :
  Forall (fun elem => startsWithDigit elem = false) (tl (Fields hdr)) ->
  forall d' vs, header d hdr = Next d' vs -> vs = -1.
Proof.
  intros Hall d' vs. unfold header.
  destruct (Fields hdr) as [|w elems].
  - intros E. injection E as _ <-. reflexivity.
  - cbn [tl] in Hall. destruct (MetadataStatus_eqb _ _); [discriminate|].
    apply (tokenLoop_no_size token mg_token_no_size); assumption.
Qed.

Lemma mg_header_Value d hdr :
  Value (stepState (header d hdr)) = Value d.
Proof.
  unfold header. destruct (Fields hdr) as [|w elems]; [reflexivity|].
  destruct (MetadataStatus_eqb _ _); [reflexivity|].
  rewrite (tokenLoop_frame token Value (fun _ => false)
             (fun d vs elem _ => mg_token_Value d vs elem eq_refl));
    [reflexivity | apply Forall_nothing].
Qed.

Lemma mg_Decode_no_value d r :
  absent startsWithDigit r ->
  Value (fst (fst (Decode d r))) = Value d /\
  snd (fst (Decode d r)) = fst (fst (Reader_ReadSlice r x0a)).
Proof.
  unfold absent, headerTokens, Decode.
  destruct (Reader_ReadSlice r x0a) as [[r1 hdr] [e|]];
    [split; reflexivity|].
  intros Hall.
  pose proof (mg_header_no_size d hdr Hall) as Hsize.
  pose proof (mg_header_Value d hdr) as Hval.
  destruct (header d hdr) as [d' vs|d' res]; cbn [stepState] in Hval.
  - rewrite (Hsize d' vs eq_refl).
    change (0 <=? -1) with false. cbn [fst snd]. split; [exact Hval | reflexivity].
  - split; [exact Hval | reflexivity].
Qed.

Lemma mg_Decode_Status d r :
  Status (fst (fst (Decode d r)))
  = match headerStatusWord r with
    | Some w => MetaGetStatusFromHeader w
    | None => Status d
    end.
Proof.
  unfold headerStatusWord, Decode.
  destruct (Reader_ReadSlice r x0a) as [[r1 hdr] [e|]]; [reflexivity|].
  unfold header. destruct (Fields hdr) as [|w elems]; [reflexivity|].
  cbn [hd_error].
  destruct (MetadataStatus_eqb _ _); [reflexivity|].
  pose proof (tokenLoop_frame token Status (fun _ => false)
                (fun d vs elem _ => mg_token_Status d vs elem eq_refl) elems
                (setStatus d (MetaGetStatusFromHeader w)) (-1)
                (Forall_nothing _)) as Hloop.
  cbn [Status setStatus] in Hloop.
  destruct (tokenLoop token _ (-1) elems) as [d' vs|d' res];
    cbn [stepState] in Hloop; [|exact Hloop].
  destruct (0 <=? vs); [|exact Hloop].
  destruct (ReadFull r1 (Z.to_nat vs)) as [[[r2 buf] n] [e|]].
  + exact Hloop.
  + destruct (ReadCLRF r2). exact Hloop.
Qed.

Lemma mg_Decode_HdrLine d r :
  (forall w, headerStatusWord r = Some w ->
             MetaGetStatusFromHeader w <> MetadataStatusInvalid) ->
  HdrLine (fst (fst (Decode d r))) = HdrLine d.
Proof.
  unfold headerStatusWord, Decode.
  destruct (Reader_ReadSlice r x0a) as [[r1 hdr] [e|]]; [reflexivity|].
  unfold header. destruct (Fields hdr) as [|w elems]; [reflexivity|].
  cbn [hd_error]. intros Hw. specialize (Hw w eq_refl).
  cbn [Status setStatus].
  destruct (MetaGetStatusFromHeader w) eqn:Es; try contradiction;
    cbn [MetadataStatus_eqb].
  all: match goal with
       | |- context [tokenLoop token ?d0 (-1) ?el] =>
           pose proof (tokenLoop_frame token HdrLine (fun _ => false)
                (fun d vs elem _ => mg_token_HdrLine d vs elem eq_refl) el
                d0 (-1) (Forall_nothing _)) as Hloop;
           cbn [HdrLine setStatus] in Hloop;
           destruct (tokenLoop token d0 (-1) el) as [d' vs|d' res];
           cbn [stepState] in Hloop; [|exact Hloop]
       end.
  all: destruct (0 <=? vs); [|exact Hloop].
  all: destruct (ReadFull r1 (Z.to_nat vs)) as [[[r2 buf] n] [e|]];
         [exact Hloop | destruct (ReadCLRF r2); exact Hloop].
Qed.


End MetaGetDecode.




Section MetaSetDecoderFrame.
Import metaset.

Lemma ms_token_Opaque d vs elem :
  startsWith "O" elem = false ->
  dOpaque (stepState (token d vs elem)) = dOpaque d.
Proof.
  intros H. unfold token. destruct elem as [|c rest]; [reflexivity|].
  token_cases; untouched.
Qed.

Lemma ms_token_CasId d vs elem :
  startsWith "c" elem = false ->
  dCasId (stepState (token d vs elem)) = dCasId d.
Proof.
  intros H. unfold token. destruct elem as [|c rest]; [reflexivity|].
  token_cases; untouched.
Qed.

Lemma ms_token_ItemKey d vs elem :
  startsWith "k" elem = false ->
  ItemKey (stepState (token d vs elem)) = ItemKey d.
Proof.
  intros H. unfold token. destruct elem as [|c rest]; [reflexivity|].
  token_cases; untouched.
Qed.

Lemma ms_token_Status d vs elem :
  false = false ->
  Status (stepState (token d vs elem)) = Status d.
Proof.
  intros _. unfold token. destruct elem as [|c rest]; [reflexivity|].
  token_cases; reflexivity.
Qed.

Lemma ms_token_HdrLine d vs elem :
  false = false ->
  HdrLine (stepState (token d vs elem)) = HdrLine d.
Proof.
  intros _. unfold token. destruct elem as [|c rest]; [reflexivity|].
  token_cases; reflexivity.
Qed.

Lemma ms_Decode_frame {A : Type} (f : MetaSetDecoder -> A)
    (touches : list byte -> bool) :
  (forall d v, f (setStatus d v) = f d) ->
  (forall d v, f (setHdrLine d v) = f d) ->
  (forall d vs elem, touches elem = false ->
     f (stepState (token d vs elem)) = f d) ->
  forall d r, absent touches r -> f (fst (fst (Decode d r))) = f d.
Proof.
  intros Hst Hhl Hstep d r. unfold absent, headerTokens, Decode.
  destruct (Reader_ReadSlice r x0a) as [[r1 hdr] [e|]]; [reflexivity|].
  intros Hall. unfold header.
  destruct (Fields hdr) as [|w elems]; [reflexivity|]. cbn [tl] in Hall.
  destruct (MetadataStatus_eqb _ _).
  - cbn [fst]. rewrite Hhl, Hst. reflexivity.
  - pose proof (tokenLoop_frame token f touches Hstep elems
                  (setStatus d (MetaSetStatusFromHeader w)) (-1) Hall) as Hloop.
    rewrite Hst in Hloop.
    destruct (tokenLoop token _ (-1) elems) as [d' vs|d' res];
      cbn [stepState] in Hloop; exact Hloop.
Qed.

Lemma ms_Decode_Status d r :
  Status (fst (fst (Decode d r)))
  = match headerStatusWord r with
    | Some w => MetaSetStatusFromHeader w
    | None => Status d
    end.
Proof.
  unfold headerStatusWord, Decode.
  destruct (Reader_ReadSlice r x0a) as [[r1 hdr] [e|]]; [reflexivity|].
  unfold header. destruct (Fields hdr) as [|w elems]; [reflexivity|].
  cbn [hd_error].
  destruct (MetadataStatus_eqb _ _); [reflexivity|].
  pose proof (tokenLoop_frame token Status (fun _ => false)
                (fun d vs elem _ => ms_token_Status d vs elem eq_refl) elems
                (setStatus d (MetaSetStatusFromHeader w)) (-1)
                (Forall_nothing _)) as Hloop.
  cbn [Status setStatus] in Hloop.
  destruct (tokenLoop token _ (-1) elems) as [d' vs|d' res];
    cbn [stepState] in Hloop; exact Hloop.
Qed.

Lemma ms_Decode_HdrLine d r :
  (forall w, headerStatusWord r = Some w ->
             MetaSetStatusFromHeader w <> MetadataStatusInvalid) ->
  HdrLine (fst (fst (Decode d r))) = HdrLine d.
Proof.
  unfold headerStatusWord, Decode.
  destruct (Reader_ReadSlice r x0a) as [[r1 hdr] [e|]]; [reflexivity|].
  unfold header. destruct (Fields hdr) as [|w elems]; [reflexivity|].
  cbn [hd_error]. intros Hw. specialize (Hw w eq_refl).
  cbn [Status setStatus].
  destruct (MetaSetStatusFromHeader w) eqn:Es; try contradiction;
    cbn [MetadataStatus_eqb].
  all: match goal with
       | |- context [tokenLoop token ?d0 (-1) ?el] =>
           pose proof (tokenLoop_frame token HdrLine (fun _ => false)
                (fun d vs elem _ => ms_token_HdrLine d vs elem eq_refl) el
                d0 (-1) (Forall_nothing _)) as Hloop;
           cbn [HdrLine setStatus] in Hloop;
           destruct (tokenLoop token d0 (-1) el) as [d' vs|d' res];
           cbn [stepState] in Hloop; exact Hloop
       end.
Qed.

End MetaSetDecoderFrame.

Section MetaDeleteDecoderFrame.
Import metadelete.

Lemma md_token_Opaque d vs elem :
  startsWith "O" elem = false ->
  dOpaque (stepState (token d vs elem)) = dOpaque d.
Proof.
  intros H. unfold token. destruct elem as [|c rest]; [reflexivity|].
  token_cases; untouched.
Qed.

Lemma md_token_ItemKey d vs elem :
  startsWith "k" elem = false ->
  ItemKey (stepState (token d vs elem)) = ItemKey d.
Proof.
  intros H. unfold token. destruct elem as [|c rest]; [reflexivity|].
  token_cases; untouched.
Qed.

Lemma md_token_Status d vs elem :
  false = false ->
  Status (stepState (token d vs elem)) = Status d.
Proof.
  intros _. unfold token. destruct elem as [|c rest]; [reflexivity|].
  token_cases; reflexivity.
Qed.

Lemma md_token_HdrLine d vs elem :
  false = false ->
  HdrLine (stepState (token d vs elem)) = HdrLine d.
Proof.
  intros _. unfold token. destruct elem as [|c rest]; [reflexivity|].
  token_cases; reflexivity.
Qed.

Lemma md_Decode_frame {A : Type} (f : MetaDeleteDecoder -> A)
    (touches : list byte -> bool) :
  (forall d v, f (setStatus d v) = f d) ->
  (forall d v, f (setHdrLine d v) = f d) ->
  (forall d vs elem, touches elem = false ->
     f (stepState (token d vs elem)) = f d) ->
  forall d r, absent touches r -> f (fst (fst (Decode d r))) = f d.
Proof.
  intros Hst Hhl Hstep d r. unfold absent, headerTokens, Decode.
  destruct (Reader_ReadSlice r x0a) as [[r1 hdr] [e|]]; [reflexivity|].
  intros Hall. unfold header.
  destruct (Fields hdr) as [|w elems]; [reflexivity|]. cbn [tl] in Hall.
  destruct (MetadataStatus_eqb _ _).
  - cbn [fst]. rewrite Hhl, Hst. reflexivity.
  - pose proof (tokenLoop_frame token f touches Hstep elems
                  (setStatus d (MetaDeleteStatusFromHeader w)) (-1) Hall) as Hloop.
    rewrite Hst in Hloop.
    destruct (tokenLoop token _ (-1) elems) as [d' vs|d' res];
      cbn [stepState] in Hloop; exact Hloop.
Qed.

Lemma md_Decode_Status d r :
  Status (fst (fst (Decode d r)))
  = match headerStatusWord r with
    | Some w => MetaDeleteStatusFromHeader w
    | None => Status d
    end.
Proof.
  unfold headerStatusWord, Decode.
  destruct (Reader_ReadSlice r x0a) as [[r1 hdr] [e|]]; [reflexivity|].
  unfold header. destruct (Fields hdr) as [|w elems]; [reflexivity|].
  cbn [hd_error].
  destruct (MetadataStatus_eqb _ _); [reflexivity|].
  pose proof (tokenLoop_frame token Status (fun _ => false)
                (fun d vs elem _ => md_token_Status d vs elem eq_refl) elems
                (setStatus d (MetaDeleteStatusFromHeader w)) (-1)
                (Forall_nothing _)) as Hloop.
  cbn [Status setStatus] in Hloop.
  destruct (tokenLoop token _ (-1) elems) as [d' vs|d' res];
    cbn [stepState] in Hloop; exact Hloop.
Qed.

Lemma md_Decode_HdrLine d r :
  (forall w, headerStatusWord r = Some w ->
             MetaDeleteStatusFromHeader w <> MetadataStatusInvalid) ->
  HdrLine (fst (fst (Decode d r))) = HdrLine d.
Proof.
  unfold headerStatusWord, Decode.
  destruct (Reader_ReadSlice r x0a) as [[r1 hdr] [e|]]; [reflexivity|].
  unfold header. destruct (Fields hdr) as [|w elems]; [reflexivity|].
  cbn [hd_error]. intros Hw. specialize (Hw w eq_refl).
  cbn [Status setStatus].
  destruct (MetaDeleteStatusFromHeader w) eqn:Es; try contradiction;
    cbn [MetadataStatus_eqb].
  all: match goal with
       | |- context [tokenLoop token ?d0 (-1) ?el] =>
           pose proof (tokenLoop_frame token HdrLine (fun _ => false)
                (fun d vs elem _ => md_token_HdrLine d vs elem eq_refl) el
                d0 (-1) (Forall_nothing _)) as Hloop;
           cbn [HdrLine setStatus] in Hloop;
           destruct (tokenLoop token d0 (-1) el) as [d' vs|d' res];
           cbn [stepState] in Hloop; exact Hloop
       end.
Qed.

End MetaDeleteDecoderFrame.

Section MetaArithmeticDecoderFrame.
Import metaarithmetic.

Lemma ma_token_Opaque d vs elem :
  startsWith "O" elem = false ->
  dOpaque (stepState (token d vs elem)) = dOpaque d.
Proof.
  intros H. unfold token. destruct elem as [|c rest]; [reflexivity|].
  token_cases; untouched.
Qed.

Lemma ma_token_TTL d vs elem :
  startsWith "t" elem = false ->
  RemainingTTLSeconds (stepState (token d vs elem)) = RemainingTTLSeconds d.
Proof.
  intros H. unfold token. destruct elem as [|c rest]; [reflexivity|].
  token_cases; untouched.
Qed.

Lemma ma_token_CasId d vs elem :
  startsWith "c" elem = false ->
  dCasId (stepState (token d vs elem)) = dCasId d.
Proof.
  intros H. unfold token. destruct elem as [|c rest]; [reflexivity|].
  token_cases; untouched.
Qed.

Lemma ma_token_ItemKey d vs elem :
  startsWith "k" elem = false ->
  ItemKey (stepState (token d vs elem)) = ItemKey d.
Proof.
  intros H. unfold token. destruct elem as [|c rest]; [reflexivity|].
  token_cases; untouched.
Qed.

Lemma ma_token_Status d vs elem :
  false = false ->
  Status (stepState (token d vs elem)) = Status d.
Proof.
  intros _. unfold token. destruct elem as [|c rest]; [reflexivity|].
  token_cases; reflexivity.
Qed.

Lemma ma_token_HdrLine d vs elem :
  false = false ->
  HdrLine (stepState (token d vs elem)) = HdrLine d.
Proof.
  intros _. unfold token. destruct elem as [|c rest]; [reflexivity|].
  token_cases; reflexivity.
Qed.

Lemma ma_token_Value d vs elem :
  false = false ->
  Value (stepState (token d vs elem)) = Value d.
Proof.
  intros _. unfold token. destruct elem as [|c rest]; [reflexivity|].
  token_cases; reflexivity.
Qed.

Lemma ma_token_ValueUInt64 d vs elem :
  false = false ->
  ValueUInt64 (stepState (token d vs elem)) = ValueUInt64 d.
Proof.
  intros _. unfold token. destruct elem as [|c rest]; [reflexivity|].
  token_cases; reflexivity.
Qed.

Lemma ma_token_no_size d elem :
  startsWithDigit elem = false ->
  forall d' vs, token d (-1) elem = Next d' vs -> vs = -1.
Proof.
  intros H d' vs. unfold token. destruct elem as [|c rest]; [discriminate|].
  cbn [startsWithDigit] in H. rewrite H, andb_false_r.
  token_cases; intros E; try discriminate E; injection E as _ <-; reflexivity.
Qed.

Lemma ma_Decode_frame {A : Type} (f : MetaArithmeticDecoder -> A)
    (touches : list byte -> bool) :
  (forall d v, f (setStatus d v) = f d) ->
  (forall d v, f (setHdrLine d v) = f d) ->
  (forall d v, f (setValue d v) = f d) ->
  (forall d v, f (setValueUInt64 d v) = f d) ->
  (forall d vs elem, touches elem = false ->
     f (stepState (token d vs elem)) = f d) ->
  forall d r, absent touches r -> f (fst (fst (Decode d r))) = f d.
Proof.
  intros Hst Hhl Hval Hu64 Hstep d r. unfold absent, headerTokens, Decode.
  destruct (Reader_ReadSlice r x0a) as [[r1 hdr] [e|]]; [reflexivity|].
  intros Hall. unfold header.
  destruct (Fields hdr) as [|w elems]; [reflexivity|]. cbn [tl] in Hall.
  destruct (MetadataStatus_eqb _ _).
  - cbn [fst]. rewrite Hhl, Hst. reflexivity.
  - pose proof (tokenLoop_frame token f touches Hstep elems
                  (setStatus d (ArithmeticStatusFromHeader w)) (-1) Hall) as Hloop.
    rewrite Hst in Hloop.
    destruct (tokenLoop token _ (-1) elems) as [d' vs|d' res];
      cbn [stepState] in Hloop; [|exact Hloop].
    destruct (0 <=? vs); [|exact Hloop].
    destruct (ReadFull r1 (Z.to_nat vs)) as [[[r2 buf] n] [e|]].
    + cbn [fst]. rewrite Hval. exact Hloop.
    + destruct (strconv.ParseUint buf 64).
      * destruct (ReadCLRF r2). cbn [fst]. rewrite Hu64, Hval. exact Hloop.
      * cbn [fst]. rewrite Hval. exact Hloop.
Qed.

Lemma ma_header_no_size d hdr :
  Forall (fun elem => startsWithDigit elem = false) (tl (Fields hdr)) ->
  forall d' vs, header d hdr = Next d' vs -> vs = -1.
Proof.
  intros Hall d' vs. unfold header.
  destruct (Fields hdr) as [|w elems].
  - intros E. injection E as _ <-. reflexivity.
  - cbn [tl] in Hall. destruct (MetadataStatus_eqb _ _); [discriminate|].
    apply (tokenLoop_no_size token ma_token_no_size); assumption.
Qed.

Lemma ma_header_Value d hdr :
  Value (stepState (header d hdr)) = Value d /\
  ValueUInt64 (stepState (header d hdr)) = ValueUInt64 d.
Proof.
  unfold header. destruct (Fields hdr) as [|w elems]; [split; reflexivity|].
  destruct (MetadataStatus_eqb _ _); [split; reflexivity|].
  rewrite (tokenLoop_frame token Value (fun _ => false)
             (fun d vs elem _ => ma_token_Value d vs elem eq_refl))
    by apply Forall_nothing.
  rewrite (tokenLoop_frame token ValueUInt64 (fun _ => false)
             (fun d vs elem _ => ma_token_ValueUInt64 d vs elem eq_refl))
    by apply Forall_nothing.
  split; reflexivity.
Qed.

Lemma ma_Decode_no_value d r :
  absent startsWithDigit r ->
  Value (fst (fst (Decode d r))) = Value d /\
  ValueUInt64 (fst (fst (Decode d r))) = ValueUInt64 d.
Proof.
  unfold absent, headerTokens, Decode.
  destruct (Reader_ReadSlice r x0a) as [[r1 hdr] [e|]];
    [split; reflexivity|].
  intros Hall.
  pose proof (ma_header_no_size d hdr Hall) as Hsize.
  pose proof (ma_header_Value d hdr) as Hval.
  destruct (header d hdr) as [d' vs|d' res]; cbn [stepState] in Hval.
  - rewrite (Hsize d' vs eq_refl).
    change (0 <=? -1) with false. exact Hval.
  - exact Hval.
Qed.

Lemma ma_Decode_Status d r :
  Status (fst (fst (Decode d r)))
  = match headerStatusWord r with
    | Some w => ArithmeticStatusFromHeader w
    | None => Status d
    end.
Proof.
  unfold headerStatusWord, Decode.
  destruct (Reader_ReadSlice r x0a) as [[r1 hdr] [e|]]; [reflexivity|].
  unfold header. destruct (Fields hdr) as [|w elems]; [reflexivity|].
  cbn [hd_error].
  destruct (MetadataStatus_eqb _ _); [reflexivity|].
  pose proof (tokenLoop_frame token Status (fun _ => false)
                (fun d vs elem _ => ma_token_Status d vs elem eq_refl) elems
                (setStatus d (ArithmeticStatusFromHeader w)) (-1)
                (Forall_nothing _)) as Hloop.
  cbn [Status setStatus] in Hloop.
  destruct (tokenLoop token _ (-1) elems) as [d' vs|d' res];
    cbn [stepState] in Hloop; [|exact Hloop].
  destruct (0 <=? vs); [|exact Hloop].
  destruct (ReadFull r1 (Z.to_nat vs)) as [[[r2 buf] n] [e|]];
    [exact Hloop|].
  destruct (strconv.ParseUint buf 64); [|exact Hloop].
  destruct (ReadCLRF r2). exact Hloop.
Qed.

Lemma ma_Decode_HdrLine d r :
  (forall w, headerStatusWord r = Some w ->
             ArithmeticStatusFromHeader w <> MetadataStatusInvalid) ->
  HdrLine (fst (fst (Decode d r))) = HdrLine d.
Proof.
  unfold headerStatusWord, Decode.
  destruct (Reader_ReadSlice r x0a) as [[r1 hdr] [e|]]; [reflexivity|].
  unfold header. destruct (Fields hdr) as [|w elems]; [reflexivity|].
  cbn [hd_error]. intros Hw. specialize (Hw w eq_refl).
  cbn [Status setStatus].
  destruct (ArithmeticStatusFromHeader w) eqn:Es; try contradiction;
    cbn [MetadataStatus_eqb].
  all: match goal with
       | |- context [tokenLoop token ?d0 (-1) ?el] =>
           pose proof (tokenLoop_frame token HdrLine (fun _ => false)
                (fun d vs elem _ => ma_token_HdrLine d vs elem eq_refl) el
                d0 (-1) (Forall_nothing _)) as Hloop;
           cbn [HdrLine setStatus] in Hloop;
           destruct (tokenLoop token d0 (-1) el) as [d' vs|d' res];
           cbn [stepState] in Hloop; [|exact Hloop]
       end.
  all: destruct (0 <=? vs); [|exact Hloop].
  all: destruct (ReadFull r1 (Z.to_nat vs)) as [[[r2 buf] n] [e|]];
         [exact Hloop|].
  all: destruct (strconv.ParseUint buf 64); [|exact Hloop].
  all: destruct (ReadCLRF r2); exact Hloop.
Qed.

End MetaArithmeticDecoderFrame.

(** C10: each response decoder (mg, ms, md, ma) writes a field only from the
    token that carries it: a field whose token does not occur on the header
    line comes out of [Decode] with the value it went in with -- also when
    [Decode] fails half-way.  [Status] is kept when there is no status word
    to read, [HdrLine] unless the status word is unknown, and the value
    fields when no size token occurs.  So a decoder that was not [Reset]
    shows old values: decoding "HD\r\n" into a decoder that holds opaque 7
    leaves opaque 7, where a decoder reset first shows 0. *)
Theorem decoders_keep_absent_fields :
  (forall d r, mg_keeps r d (fst (fst (metaget.Decode d r))))
  /\ (forall d r, ms_keeps r d (fst (fst (metaset.Decode d r))))
  /\ (forall d r, md_keeps r d (fst (fst (metadelete.Decode d r))))
  /\ (forall d r, ma_keeps r d (fst (fst (metaarithmetic.Decode d r))))
  /\ metaget.dOpaque
       (fst (fst (metaget.Decode (metaget.setOpaque d0 7)
                    (NewReader (bytes "HD" ++ CRLF))))) = 7
  /\ metaget.dOpaque
       (fst (fst (metaget.Decode
                    (metaget.DecoderReset (metaget.setOpaque d0 7))
                    (NewReader (bytes "HD" ++ CRLF))))) = 0.
Proof.
  split; [|split; [|split; [|split; [|split]]]].
  - intros d r. unfold mg_keeps.
    repeat match goal with |- _ /\ _ => split end.
    + apply mg_Decode_frame; auto using mg_token_Opaque.
    + apply mg_Decode_frame; auto using mg_token_TTL.
    + apply mg_Decode_frame; auto using mg_token_CasId.
    + apply mg_Decode_frame; auto using mg_token_ClientFlags.
    + apply mg_Decode_frame; auto using mg_token_Hit.
    + apply mg_Decode_frame; auto using mg_token_ItemKey.
    + apply mg_Decode_frame; auto using mg_token_ItemSize.
    + apply mg_Decode_frame; auto using mg_token_LastAccess.
    + apply mg_Decode_frame; auto using mg_token_Recache.
    + apply mg_Decode_frame; auto using mg_token_Stale.
    + intros H. apply mg_Decode_no_value. exact H.
    + intros H. rewrite mg_Decode_Status, H. reflexivity.
    + apply mg_Decode_HdrLine.
  - intros d r. unfold ms_keeps.
    repeat match goal with |- _ /\ _ => split end.
    + apply ms_Decode_frame; auto using ms_token_Opaque.
    + apply ms_Decode_frame; auto using ms_token_CasId.
    + apply ms_Decode_frame; auto using ms_token_ItemKey.
    + intros H. rewrite ms_Decode_Status, H. reflexivity.
    + apply ms_Decode_HdrLine.
  - intros d r. unfold md_keeps.
    repeat match goal with |- _ /\ _ => split end.
    + apply md_Decode_frame; auto using md_token_Opaque.
    + apply md_Decode_frame; auto using md_token_ItemKey.
    + intros H. rewrite md_Decode_Status, H. reflexivity.
    + apply md_Decode_HdrLine.
  - intros d r. unfold ma_keeps.
    repeat match goal with |- _ /\ _ => split end.
    + apply ma_Decode_frame; auto using ma_token_Opaque.
    + apply ma_Decode_frame; auto using ma_token_TTL.
    + apply ma_Decode_frame; auto using ma_token_CasId.
    + apply ma_Decode_frame; auto using ma_token_ItemKey.
    + apply ma_Decode_no_value.
    + intros H. rewrite ma_Decode_Status, H. reflexivity.
    + apply ma_Decode_HdrLine.
  - vm_compute. reflexivity.
  - vm_compute. reflexivity.
Qed.

(** A decoder holding CAS 1111 and key "old" decodes "HD O1231": the opaque
    is written, the CAS and the key stay. *)
Lemma decoders_keep_absent_fields_witness :
  metaset.dCasId
    (fst (fst (metaset.Decode
                 (metaset.mkDecoder Stored 5 1111 (bytes "old") [])
                 (NewReader (bytes "HD O1231" ++ CRLF))))) = 1111.
Proof.
  refine (proj1 (proj2 (proj1 (proj2 decoders_keep_absent_fields)
            (metaset.mkDecoder Stored 5 1111 (bytes "old") [])
            (NewReader (bytes "HD O1231" ++ CRLF)))) _).
  unfold absent. vm_compute. repeat constructor.
Defined.

(** For comparison: an encoder that was never [Reset] has its three TTL
    fields at Go's zero value, 0, which counts as present. *)
Example mg_zero_value_wire :
  metaget.Encode
    (metaget.mkEncoder (bytes "mykey") false false false false false false 0
       false false false true 0 0 0 0)
    (mkWriter [] None)
  = (mkWriter (bytes "mg mykey R0 N0 T0 v " ++ CRLF) None, None).
Proof. vm_compute. reflexivity. Qed.

(* ================================================================== *)
(** * Further properties of the code *)

(* ------------------------------------------------------------------ *)
(** ** Decimal numbers: what is written is read back *)

Lemma dval_mono d : forall acc, 0 <= acc -> acc <= dval acc d.
Proof.
  induction d; intros acc Hacc; cbn [dval]; try lia;
    (etransitivity; [|apply IHd; lia]; lia).
Qed.

Lemma of_uint_acc_dval d : forall acc,
  Zpos (Pos.of_uint_acc d acc) = dval (Zpos acc) d.
Proof.
  induction d; intros acc; cbn [Pos.of_uint_acc dval]; try reflexivity;
    rewrite IHd; f_equal; lia.
Qed.

Lemma of_uint_dval d : Z.of_N (Pos.of_uint d) = dval 0 d.
Proof.
  induction d; cbn [Pos.of_uint dval]; try reflexivity;
    try (cbn [Z.of_N]; rewrite of_uint_acc_dval; reflexivity).
  exact IHd.
Qed.

Lemma dval_to_uint n : dval 0 (N.to_uint n) = Z.of_N n.
Proof.
  rewrite <- of_uint_dval. change (Pos.of_uint (N.to_uint n)) with (N.of_uint (N.to_uint n)).
  rewrite DecimalN.Unsigned.of_to. reflexivity.
Qed.

Lemma uint_bytes_digits d :
  Forall (fun c => strconv.isDigit c = true) (strconv_fmt.uint_bytes d).
Proof. induction d; cbn [strconv_fmt.uint_bytes]; constructor; auto. Qed.

Lemma parseUintLoop_uint_bytes s0 maxVal d : forall acc,
  0 <= acc -> dval acc d <= maxVal -> maxVal <= 2 ^ 64 - 1 ->
  strconv.parseUintLoop s0 maxVal acc (strconv_fmt.uint_bytes d)
  = inl (dval acc d).
Proof.
  induction d; intros acc Hacc Hmax Hcap;
    cbn [strconv_fmt.uint_bytes strconv.parseUintLoop dval] in *;
    try reflexivity.
  all: change (negb (strconv.isDigit _)) with false; cbv beta iota.
  all: match goal with
       | |- context [dval ?a ?dd] =>
           pose proof (dval_mono dd a ltac:(lia)) as Hm
       end.
  all: match goal with
       | Hcap : _ <= 2 ^ 64 - 1 |- context [if ?c <=? ?ac then _ else _] =>
           destruct (Z.leb_spec c ac) as [Hc|Hc];
           [exfalso; revert Hc; change ((2 ^ 64 - 1) / 10 + 1)
              with 1844674407370955162; change (2 ^ 64 - 1)
              with 18446744073709551615 in Hcap; lia|]
       end.
  all: change (bv _ - 0x30) with 0 || change (bv _ - 0x30) with 1
       || change (bv _ - 0x30) with 2 || change (bv _ - 0x30) with 3
       || change (bv _ - 0x30) with 4 || change (bv _ - 0x30) with 5
       || change (bv _ - 0x30) with 6 || change (bv _ - 0x30) with 7
       || change (bv _ - 0x30) with 8 || change (bv _ - 0x30) with 9.
  all: match goal with
       | |- context [(?a <? ?n1) || (?b <? ?n1)] =>
           destruct (Z.ltb_spec a n1); [lia|];
           destruct (Z.ltb_spec b n1); [lia|]
       end.
  all: cbn [orb]; apply IHd; lia.
Qed.

Lemma AppendUint_nonempty n : strconv_fmt.AppendUint n <> [].
Proof.
  unfold strconv_fmt.AppendUint.
  destruct (N.to_uint (Z.to_N n)) eqn:E; cbn [strconv_fmt.uint_bytes];
    try discriminate.
  exfalso. destruct (Z.to_N n); cbn in E; [discriminate|].
  exact (DecimalPos.Unsigned.to_uint_nonnil _ E).
Qed.

Lemma ParseUint_AppendUint n bitSize :
  0 <= n < 2 ^ bitSize -> 0 <= bitSize <= 64 ->
  strconv.ParseUint (strconv_fmt.AppendUint n) bitSize = inl n.
Proof.
  intros Hn Hb. unfold strconv.ParseUint.
  pose proof (AppendUint_nonempty n) as Hne.
  destruct (strconv_fmt.AppendUint n) eqn:E; [contradiction|].
  rewrite <- E. unfold strconv_fmt.AppendUint.
  assert (Hv : dval 0 (N.to_uint (Z.to_N n)) = n)
    by (rewrite dval_to_uint; lia).
  assert (2 ^ bitSize <= 2 ^ 64) by (apply Z.pow_le_mono_r; lia).
  rewrite parseUintLoop_uint_bytes; rewrite ?Hv; try lia. reflexivity.
Qed.

Lemma Atoi_AppendInt n :
  0 <= n < 2 ^ 63 ->
  strconv.Atoi (strconv_fmt.AppendInt n) = inl n.
Proof.
  intros Hn. unfold strconv.Atoi, strconv.ParseInt, strconv_fmt.AppendInt.
  destruct (Z.ltb_spec n 0); [lia|].
  pose proof (AppendUint_nonempty n) as Hne.
  pose proof (uint_bytes_digits (N.to_uint (Z.to_N n))) as Hd.
  fold (strconv_fmt.AppendUint n) in Hd.
  pose proof (ParseUint_AppendUint n 64 ltac:(lia) ltac:(lia)) as Hp.
  destruct (strconv_fmt.AppendUint n) as [|c s] eqn:E; [contradiction|].
  inversion Hd as [|? ? Hc _]; subst.
  assert (byte_eqb c "-" = false /\ byte_eqb c "+" = false) as [-> ->].
  { split; destruct (byte_eqb c _) eqn:Eb; try reflexivity;
      apply Byte.byte_dec_bl in Eb; subst c; discriminate Hc. }
  cbn [orb negb andb]. rewrite Hp.
  change (2 ^ (64 - 1)) with (2 ^ 63).
  destruct (Z.leb_spec (2 ^ 63) n); [lia | reflexivity].
Qed.

(* ------------------------------------------------------------------ *)
(** ** bytes.Fields on a well-formed header line *)

Lemma FieldsFuel_nil n cur : FieldsFuel n [] cur = emitField cur.
Proof. destruct n; reflexivity. Qed.

Lemma FieldsFuel_plain t : forall n s cur,
  Forall plainByte t ->
  FieldsFuel (length t + n) (t ++ s) cur = FieldsFuel n s (cur ++ t).
Proof.
  induction t as [|b t IH]; intros n s cur Hall.
  - rewrite app_nil_r. reflexivity.
  - inversion Hall as [|? ? [Hlow Hsp] Hrest]; subst.
    cbn [length Nat.add app FieldsFuel].
    unfold utf8.RuneSelf. destruct (Z.ltb_spec (bv b) 0x80); [|lia].
    rewrite Hsp. cbn [skipn firstn]. rewrite IH by assumption.
    rewrite <- app_assoc. reflexivity.
Qed.

Lemma FieldsFuel_space n b s cur :
  bv b < 0x80 -> unicode.IsSpace (bv b) = true ->
  FieldsFuel (S n) (b :: s) cur = emitField cur ++ FieldsFuel n s [].
Proof.
  intros Hlow Hsp. cbn [FieldsFuel]. unfold utf8.RuneSelf.
  destruct (Z.ltb_spec (bv b) 0x80); [|lia].
  rewrite Hsp. reflexivity.
Qed.

Lemma Fields_tokens toks : forall cur,
  cur <> [] ->
  Forall (fun t => t <> [] /\ Forall plainByte t) toks ->
  let tail := List.concat (map (fun t => Space :: t) toks) ++ [x0d; x0a] in
  FieldsFuel (length tail) tail cur = cur :: toks.
Proof.
  induction toks as [|t toks IH]; intros cur Hcur Hall; cbv zeta.
  - cbn [map List.concat app length].
    rewrite FieldsFuel_space by (vm_compute; reflexivity).
    rewrite FieldsFuel_space by (vm_compute; reflexivity).
    rewrite FieldsFuel_nil. destruct cur; [contradiction | reflexivity].
  - inversion Hall as [|? ? [Hne Hplain] Hrest]; subst.
    cbn [map List.concat]. rewrite <- !app_assoc. cbn [app length].
    rewrite FieldsFuel_space by (vm_compute; reflexivity).
    rewrite length_app, FieldsFuel_plain by assumption.
    cbn [app]. cbv zeta in IH. rewrite IH by assumption.
    destruct cur; [contradiction | reflexivity].
Qed.

Lemma Fields_respLine w toks :
  w <> [] -> Forall plainByte w ->
  Forall (fun t => t <> [] /\ Forall plainByte t) toks ->
  Fields (respLine w toks ++ [x0a]) = w :: toks.
Proof.
  intros Hne Hw Htoks. unfold Fields, respLine.
  rewrite <- !app_assoc. cbn [app].
  rewrite length_app, FieldsFuel_plain by assumption. cbn [app].
  apply (Fields_tokens toks w); assumption.
Qed.

Lemma plainByte_not_nl b : plainByte b -> b <> x0a.
Proof. intros [_ H] ->. vm_compute in H. discriminate H. Qed.

Lemma respLine_no_nl w toks :
  Forall plainByte w -> Forall (Forall plainByte) toks ->
  ~ In x0a (respLine w toks).
Proof.
  intros Hw Htoks Hin. unfold respLine in Hin.
  apply in_app_or in Hin. destruct Hin as [Hin|Hin].
  - rewrite Forall_forall in Hw. exact (plainByte_not_nl _ (Hw _ Hin) eq_refl).
  - apply in_app_or in Hin. destruct Hin as [Hin|Hin].
    + apply in_concat in Hin. destruct Hin as (l & Hl & Hin).
      apply in_map_iff in Hl. destruct Hl as (t & <- & Ht).
      destruct Hin as [Hin|Hin]; [discriminate Hin|].
      rewrite Forall_forall in Htoks. specialize (Htoks _ Ht).
      rewrite Forall_forall in Htoks.
      exact (plainByte_not_nl _ (Htoks _ Hin) eq_refl).
    + destruct Hin as [Hin|[]]. discriminate Hin.
Qed.

Lemma uint_bytes_plain d : Forall plainByte (strconv_fmt.uint_bytes d).
Proof.
  induction d; cbn [strconv_fmt.uint_bytes]; constructor; auto;
    split; vm_compute; reflexivity.
Qed.

Lemma AppendUint_plain n : Forall plainByte (strconv_fmt.AppendUint n).
Proof. apply uint_bytes_plain. Qed.



(* ------------------------------------------------------------------ *)
(** ** The decoders never index an empty token *)














(* ------------------------------------------------------------------ *)
(** ** The two sentinel readers *)


(** X2: [ReadCLRF] succeeds exactly when the next two bytes are CR LF, and then
    it has consumed exactly those two; otherwise it returns an error, having
    consumed at most two bytes, none of which it puts back. *)
Theorem ReadCLRF_exact r :
  (snd (ReadCLRF r) = None <-> exists rest, unread r = CRLF ++ rest)
  /\ (forall rest, unread r = CRLF ++ rest ->
        ReadCLRF r = (mkReader (bufSize r) rest, None))
  /\ (exists used,
        unread r = used ++ unread (fst (ReadCLRF r)) /\ (length used <= 2)%nat)
  /\ bufSize (fst (ReadCLRF r)) = bufSize r.
Proof.
  destruct r as [bs s]. unfold ReadCLRF, Reader_ReadByte, CRLF.
  cbn [unread bufSize].
  destruct s as [|c s].
  { cbn. repeat split; try discriminate.
    - intros [rest H]. discriminate H.
    - exists []. split; [reflexivity | cbn; lia]. }
  destruct (byte_eqb c x0d) eqn:Ec; cbn [negb].
  2:{ cbn [fst snd unread bufSize]. repeat split; try discriminate.
      - intros [rest H]. injection H as -> _.
        rewrite byte_eqb_refl in Ec. discriminate.
      - intros rest H. injection H as -> _.
        rewrite byte_eqb_refl in Ec. discriminate.
      - exists [c]. split; [reflexivity | cbn; lia]. }
  apply Byte.byte_dec_bl in Ec. subst c. cbn [unread bufSize].
  destruct s as [|n s].
  { cbn. repeat split; try discriminate.
    - intros [rest H]. discriminate H.
    - exists [x0d]. split; [reflexivity | cbn; lia]. }
  destruct (byte_eqb n x0a) eqn:En; cbn [negb fst snd unread bufSize].
  - apply Byte.byte_dec_bl in En. subst n. repeat split.
    + intros _. exists s. reflexivity.
    + intros rest H. injection H as ->. reflexivity.
    + exists [x0d; x0a]. split; [reflexivity | cbn; lia].
  - repeat split; try discriminate.
    + intros [rest H]. injection H as -> _.
      rewrite byte_eqb_refl in En. discriminate.
    + intros rest H. injection H as -> _.
      rewrite byte_eqb_refl in En. discriminate.
    + exists [x0d; n]. split; [reflexivity | cbn; lia].
Qed.

(** X3: [ReadMNResp] succeeds exactly when the next four bytes are "MN\r\n",
    and then it has consumed exactly those four. *)
Theorem ReadMNResp_exact r :
  (snd (ReadMNResp r) = None <-> exists rest, unread r = NoOpResponse ++ rest)
  /\ (forall rest, unread r = NoOpResponse ++ rest ->
        ReadMNResp r = (mkReader (bufSize r) rest, None)).
Proof.
  destruct (ReadMNResp_spec r) as [(rest & Hu & Hr) | (Hp & r' & e & Hr)];
    rewrite Hr; cbn [snd]; split.
  - split; [intros _; eauto | reflexivity].
  - intros rest' H. rewrite Hu in H. apply app_inv_head in H. subst. reflexivity.
  - split; [discriminate|]. intros [rest H].
    assert (HasPrefix (unread r) NoOpResponse = true)
      by (apply HasPrefix_iff; eauto). congruence.
  - intros rest H.
    assert (HasPrefix (unread r) NoOpResponse = true)
      by (apply HasPrefix_iff; eauto). congruence.
Qed.

(* ------------------------------------------------------------------ *)
(** ** Status words *)

Lemma bytes_eqb_eq a : forall b, bytes_eqb a b = true <-> a = b.
Proof.
  induction a as [|x a IH]; intros [|y b]; cbn [bytes_eqb];
    try (split; [discriminate | discriminate]); [split; reflexivity|].
  rewrite andb_true_iff, IH. split.
  - intros [Hx ->]. apply Byte.byte_dec_bl in Hx. subst. reflexivity.
  - intros H. injection H as -> ->. split; [apply byte_eqb_refl | reflexivity].
Qed.

Lemma bytes_eqb_neq a b : a <> b -> bytes_eqb a b = false.
Proof.
  intros H. destruct (bytes_eqb a b) eqn:E; [|reflexivity].
  apply bytes_eqb_eq in E. contradiction.
Qed.

Ltac status_unknown :=
  repeat match goal with
  | H : ~ In _ (_ :: _) |- _ => apply not_in_cons in H; destruct H
  end;
  repeat rewrite bytes_eqb_neq by assumption; reflexivity.

Lemma MetaGetStatus_unknown w :
  ~ In w [CacheMissHeader; Header; ValueHeader] ->
  MetaGetStatusFromHeader w = MetadataStatusInvalid.
Proof. intros H. unfold MetaGetStatusFromHeader. status_unknown. Qed.

Lemma MetaSetStatus_unknown w :
  ~ In w [Header; NotStoredHeader; ExistsHeader; NotFoundHeader] ->
  MetaSetStatusFromHeader w = MetadataStatusInvalid.
Proof. intros H. unfold MetaSetStatusFromHeader. status_unknown. Qed.

Lemma MetaDeleteStatus_unknown w :
  ~ In w [Header; ExistsHeader; NotFoundHeader; NotStoredHeader] ->
  MetaDeleteStatusFromHeader w = MetadataStatusInvalid.
Proof. intros H. unfold MetaDeleteStatusFromHeader. status_unknown. Qed.

Lemma ArithmeticStatus_unknown w :
  ~ In w [Header; ValueHeader; NotStoredHeader; ExistsHeader; NotFoundHeader] ->
  ArithmeticStatusFromHeader w = MetadataStatusInvalid.
Proof. intros H. unfold ArithmeticStatusFromHeader. status_unknown. Qed.

(** X4: A header line whose first word is none of a decoder's status words is
    no error: [Decode] returns nil, stores the line as read (line end
    included) in [HdrLine], sets [Status] to invalid, leaves every other
    field alone and consumes the line and nothing after it -- whatever else
    the line holds.  A [CLIENT_ERROR ...] or [SERVER_ERROR ...] line is
    taken this way; so is "VA" by the [ms] and [md] decoders and "EN" by all
    but [mg]. *)
Theorem unknown_status_word bs line rest w :
  ~ In x0a line -> (length line < bs)%nat ->
  headerStatusWord (mkReader bs (line ++ x0a :: rest)) = Some w ->
  (~ In w [CacheMissHeader; Header; ValueHeader] ->
   forall d,
     metaget.Decode d (mkReader bs (line ++ x0a :: rest))
     = (metaget.setHdrLine (metaget.setStatus d MetadataStatusInvalid)
          (line ++ [x0a]),
        mkReader bs rest, Returned None))
  /\
  (~ In w [Header; NotStoredHeader; ExistsHeader; NotFoundHeader] ->
   forall d,
     metaset.Decode d (mkReader bs (line ++ x0a :: rest))
     = (metaset.setHdrLine (metaset.setStatus d MetadataStatusInvalid)
          (line ++ [x0a]),
        mkReader bs rest, Returned None))
  /\
  (~ In w [Header; ExistsHeader; NotFoundHeader; NotStoredHeader] ->
   forall d,
     metadelete.Decode d (mkReader bs (line ++ x0a :: rest))
     = (metadelete.setHdrLine (metadelete.setStatus d MetadataStatusInvalid)
          (line ++ [x0a]),
        mkReader bs rest, Returned None))
  /\
  (~ In w [Header; ValueHeader; NotStoredHeader; ExistsHeader; NotFoundHeader] ->
   forall d,
     metaarithmetic.Decode d (mkReader bs (line ++ x0a :: rest))
     = (metaarithmetic.setHdrLine
          (metaarithmetic.setStatus d MetadataStatusInvalid) (line ++ [x0a]),
        mkReader bs rest, Returned None)).
Proof.
  intros Hnl Hlen. unfold headerStatusWord.
  rewrite ReadSlice_line by assumption.
  destruct (Fields (line ++ [x0a])) as [|w' elems] eqn:EF; [discriminate|].
  cbn [hd_error]. intros E. injection E as ->.
  repeat split; intros Hw d.
  - unfold metaget.Decode, metaget.header.
    rewrite ReadSlice_line, EF by assumption.
    cbn [metaget.Status metaget.setStatus].
    rewrite (MetaGetStatus_unknown _ Hw). reflexivity.
  - unfold metaset.Decode, metaset.header.
    rewrite ReadSlice_line, EF by assumption.
    cbn [metaset.Status metaset.setStatus].
    rewrite (MetaSetStatus_unknown _ Hw). reflexivity.
  - unfold metadelete.Decode, metadelete.header.
    rewrite ReadSlice_line, EF by assumption.
    cbn [metadelete.Status metadelete.setStatus].
    rewrite (MetaDeleteStatus_unknown _ Hw). reflexivity.
  - unfold metaarithmetic.Decode, metaarithmetic.header.
    rewrite ReadSlice_line, EF by assumption.
    cbn [metaarithmetic.Status metaarithmetic.setStatus].
    rewrite (ArithmeticStatus_unknown _ Hw). reflexivity.
Qed.

Lemma unknown_status_word_witness :
  metaset.Decode (metaset.mkDecoder Stored 5 6 (bytes "k") [])
    (mkReader 4096
       ((bytes "CLIENT_ERROR bad O7 c9" ++ [x0d]) ++ x0a :: bytes "HD"))
  = (metaset.mkDecoder MetadataStatusInvalid 5 6 (bytes "k")
       ((bytes "CLIENT_ERROR bad O7 c9" ++ [x0d]) ++ [x0a]),
     mkReader 4096 (bytes "HD"), Returned None).
Proof.
  refine (proj1 (proj2 (unknown_status_word 4096
            (bytes "CLIENT_ERROR bad O7 c9" ++ [x0d]) (bytes "HD")
            (bytes "CLIENT_ERROR") _ _ _)) _
            (metaset.mkDecoder Stored 5 6 (bytes "k") [])).
  - vm_compute. intros H.
    repeat (destruct H as [H|H]; [discriminate H|]). exact H.
  - vm_compute. lia.
  - vm_compute. reflexivity.
  - vm_compute. intros H.
    repeat (destruct H as [H|H]; [discriminate H|]). exact H.
Defined.

(* ------------------------------------------------------------------ *)
(** ** The bulk encoder *)




(* ------------------------------------------------------------------ *)
(** ** Decoding well-formed responses *)

Lemma plain_token letter v :
  plainByte letter ->
  (letter :: strconv_fmt.AppendUint v) <> []
  /\ Forall plainByte (letter :: strconv_fmt.AppendUint v).
Proof.
  intros Hl. split; [discriminate|]. constructor; [assumption|].
  apply AppendUint_plain.
Qed.

Lemma AppendInt_nonneg n : 0 <= n -> strconv_fmt.AppendInt n = strconv_fmt.AppendUint n.
Proof.
  intros H. unfold strconv_fmt.AppendInt. destruct (Z.ltb_spec n 0); [lia|reflexivity].
Qed.

Lemma AppendUint_head n :
  exists c s, strconv_fmt.AppendUint n = c :: s /\ strconv.isDigit c = true.
Proof.
  pose proof (AppendUint_nonempty n) as Hne.
  pose proof (uint_bytes_digits (N.to_uint (Z.to_N n))) as Hd.
  fold (strconv_fmt.AppendUint n) in Hd.
  destruct (strconv_fmt.AppendUint n) as [|c s]; [contradiction|].
  inversion Hd; subst. eauto.
Qed.


(** X6: An [ms] response "HD O<o> c<c>" -- the opaque token being the very
    bytes the encoder writes for opaque [o] -- decodes to status Stored,
    opaque [o] and CAS [c], for all 64-bit values; the key and the header
    line fields are left as they were and exactly the line is consumed. *)
Theorem ms_decode_stored d bs o c rest :
  0 <= o < 2 ^ 64 -> 0 <= c < 2 ^ 64 ->
  (length (respLine (bytes "HD") (uintTok true "O" o ++ uintTok true "c" c))
   < bs)%nat ->
  metaset.Decode d
    (mkReader bs
       (respLine (bytes "HD") (uintTok true "O" o ++ uintTok true "c" c)
        ++ x0a :: rest))
  = (metaset.mkDecoder Stored o c (metaset.ItemKey d) (metaset.HdrLine d),
     mkReader bs rest, Returned None)
  /\ (forall e, metaset.Opaque e = o -> o <> 0 ->
        In ("O"%byte :: strconv_fmt.AppendUint o) (ms_flags e)).
Proof.
  intros Ho Hc Hlen. split.
  - assert (Hpo : plainByte "O") by (split; vm_compute; reflexivity).
    assert (Hpc : plainByte "c") by (split; vm_compute; reflexivity).
    unfold metaset.Decode.
    rewrite ReadSlice_line;
      [ | apply respLine_no_nl;
          [repeat constructor; vm_compute; reflexivity
          | cbn [uintTok app]; repeat constructor;
            try assumption; apply AppendUint_plain]
        | assumption].
    unfold metaset.header.
    rewrite Fields_respLine;
      [ | discriminate
        | repeat constructor; vm_compute; reflexivity
        | cbn [uintTok app]; repeat constructor; try discriminate;
          try assumption; apply AppendUint_plain].
    cbn [uintTok app tokenLoop metaset.token metaset.Status metaset.setStatus].
    change (MetaSetStatusFromHeader (bytes "HD")) with Stored.
    cbn [MetadataStatus_eqb].
    change (byte_eqb "O" "O") with true. cbv iota.
    rewrite ParseUint_AppendUint by lia.
    change (byte_eqb "c" "O") with false. change (byte_eqb "c" "c") with true.
    cbv iota. rewrite ParseUint_AppendUint by lia.
    reflexivity.
  - intros e He Hnz. unfold ms_flags. rewrite He.
    repeat (apply in_or_app; right).
    destruct (Z.eqb_spec o 0); [contradiction|]. left. reflexivity.
Qed.

Lemma ms_decode_stored_witness :
  metaset.Decode (metaset.mkDecoder MetadataStatusInvalid 0 0 [] [])
    (mkReader 4096
       (respLine (bytes "HD") (uintTok true "O" 1231 ++ uintTok true "c" 1111)
        ++ x0a :: []))
  = (metaset.mkDecoder Stored 1231 1111 [] [], mkReader 4096 [], Returned None).
Proof.
  refine (proj1 (ms_decode_stored (metaset.mkDecoder MetadataStatusInvalid 0 0 [] [])
                   4096 1231 1111 [] _ _ _)).
  - lia.
  - lia.
  - vm_compute. lia.
Defined.




Lemma ma_header_VA d n c :
  0 <= n < 2 ^ 63 -> 0 <= c < 2 ^ 64 ->
  metaarithmetic.header d
    (respLine (bytes "VA")
       ([strconv_fmt.AppendInt n] ++ uintTok true "c" c) ++ [x0a])
  = Next (metaarithmetic.setCasId (metaarithmetic.setStatus d Stored) c) n.
Proof.
  intros Hn Hc.
  assert (Hpc : plainByte "c") by (split; vm_compute; reflexivity).
  unfold metaarithmetic.header.
  rewrite Fields_respLine;
    [ | discriminate
      | repeat constructor; vm_compute; reflexivity
      | cbn [uintTok app]; repeat constructor; try discriminate;
        try assumption; rewrite ?AppendInt_nonneg by lia;
        try apply AppendUint_plain; apply AppendUint_nonempty ].
  cbn [uintTok app tokenLoop metaarithmetic.Status metaarithmetic.setStatus].
  change (ArithmeticStatusFromHeader (bytes "VA")) with Stored.
  cbn [MetadataStatus_eqb].
  pose proof (Atoi_AppendInt n Hn) as Hatoi.
  rewrite AppendInt_nonneg in * by lia.
  destruct (AppendUint_head n) as (c0 & s & Es & Hc0).
  unfold metaarithmetic.token at 1. rewrite Es in *. rewrite Hc0.
  change ((-1 =? -1) && true) with true. cbv iota. rewrite Hatoi.
  unfold metaarithmetic.token.
  destruct (Z.eqb_spec n (-1)); [lia|]. cbn [andb].
  change (byte_eqb "c" "O") with false.
  change (byte_eqb "c" "t") with false.
  change (byte_eqb "c" "c") with true. cbv iota.
  rewrite ParseUint_AppendUint by lia. reflexivity.
Qed.

(** X8: An [ma] response "VA <size> c<cas>" with its value block: the block is
    kept as [Value] and read as an unsigned decimal of 64 bits.  When it is
    one, followed by CRLF, [ValueUInt64] is that number and exactly the
    response is consumed; when it is none -- a sign, a letter, a number past
    2^64-1, the empty block -- [Decode] returns the conversion error, leaves
    [ValueUInt64] alone and does not read the CRLF behind the block, which
    stays in the reader. *)
Theorem ma_decode_counter d bs v c rest :
  0 <= c < 2 ^ 64 -> Z.of_nat (length v) < 2 ^ 63 ->
  (length (ma_value_line v c) < bs)%nat ->
  (forall n,
     strconv.ParseUint v 64 = inl n ->
     metaarithmetic.Decode d
       (mkReader bs (ma_value_line v c ++ x0a :: v ++ CRLF ++ rest))
     = (metaarithmetic.setValueUInt64
          (metaarithmetic.setValue
             (metaarithmetic.setCasId (metaarithmetic.setStatus d Stored) c)
             (Some v)) n,
        mkReader bs rest, Returned None))
  /\
  (forall e,
     strconv.ParseUint v 64 = inr e ->
     metaarithmetic.Decode d
       (mkReader bs (ma_value_line v c ++ x0a :: v ++ CRLF ++ rest))
     = (metaarithmetic.setValue
          (metaarithmetic.setCasId (metaarithmetic.setStatus d Stored) c)
          (Some v),
        mkReader bs (CRLF ++ rest), Returned (Some e))).
Proof.
  intros Hc Hv Hlen.
  assert (Hpc : plainByte "c") by (split; vm_compute; reflexivity).
  assert (Hnl : ~ In x0a (ma_value_line v c)).
  { apply respLine_no_nl; [repeat constructor; vm_compute; reflexivity|].
    cbn [uintTok app]. rewrite AppendInt_nonneg by lia.
    repeat constructor; try assumption; apply AppendUint_plain. }
  assert (Hhdr := ma_header_VA d (Z.of_nat (length v)) c ltac:(lia) Hc).
  fold (ma_value_line v c) in Hhdr.
  assert (Hread : ReadFull (mkReader bs (v ++ CRLF ++ rest)) (length v)
                  = (mkReader bs (CRLF ++ rest), v, length v, None)).
  { unfold ReadFull. cbn [unread bufSize].
    destruct (Nat.leb_spec (length v) (length (v ++ CRLF ++ rest)));
      [|rewrite length_app in *; lia].
    rewrite firstn_app, Nat.sub_diag, firstn_all, firstn_O, app_nil_r.
    rewrite skipn_app, Nat.sub_diag, skipn_all, skipn_O. reflexivity. }
  split.
  - intros n Hn. unfold metaarithmetic.Decode.
    rewrite ReadSlice_line, Hhdr by assumption.
    destruct (Z.leb_spec 0 (Z.of_nat (length v))); [|lia].
    rewrite Nat2Z.id, Hread, Hn. reflexivity.
  - intros e He. unfold metaarithmetic.Decode.
    rewrite ReadSlice_line, Hhdr by assumption.
    destruct (Z.leb_spec 0 (Z.of_nat (length v))); [|lia].
    rewrite Nat2Z.id, Hread, He. reflexivity.
Qed.

Lemma ma_decode_counter_witness :
  metaarithmetic.Decode (metaarithmetic.DecoderReset
                           (metaarithmetic.mkDecoder Stored 0 0 None 0 0 [] []))
    (mkReader 4096
       (ma_value_line (bytes "18446744073709551615") 7
        ++ x0a :: bytes "18446744073709551615" ++ CRLF ++ []))
  = (metaarithmetic.mkDecoder Stored 0 0
       (Some (bytes "18446744073709551615")) 18446744073709551615 7 [] [],
     mkReader 4096 [], Returned None).
Proof.
  refine (proj1 (ma_decode_counter _ 4096 (bytes "18446744073709551615") 7 []
                   _ _ _) 18446744073709551615 _).
  - lia.
  - vm_compute. reflexivity.
  - vm_compute. lia.
  - vm_compute. reflexivity.
Defined.

(* ------------------------------------------------------------------ *)
(** ** Opaques handed out one after the other *)

Lemma nextOpaques_seq k : forall v,
  0 <= v -> v + Z.of_nat k < 2 ^ 64 ->
  nextOpaques k v
  = (v + Z.of_nat k, map (fun i => v + 1 + Z.of_nat i) (seq 0 k)).
Proof.
  induction k as [|k IH]; intros v Hv Hb.
  - cbn. f_equal. lia.
  - cbn [nextOpaques]. unfold opaque.NextOpaque, opaque.Counter_Add.
    rewrite wrap64_small by lia. rewrite IH by lia.
    cbn [seq map]. f_equal; [lia|]. f_equal; [lia|].
    rewrite <- seq_shift, map_map. apply map_ext. intros i. lia.
Qed.

Lemma NoDup_map_injective {A B : Type} (f : A -> B) l :
  (forall x y, f x = f y -> x = y) -> NoDup l -> NoDup (map f l).
Proof.
  intros Hinj. induction 1 as [|x l Hx Hl IH]; cbn [map]; constructor; auto.
  intros Hin. apply in_map_iff in Hin. destruct Hin as (y & Hxy & Hy).
  apply Hinj in Hxy. subst. contradiction.
Qed.

(** X9: As long as the counter stays below 2^64: [k] calls of [NextOpaque]
    starting at [v] return v+1, v+2, ..., v+k -- pairwise different -- and
    leave the counter where one [NextNOpaques k] leaves it, whose result is
    the first of them; and a batch of [n] followed by a batch of [m]
    reserves two ranges that touch and do not overlap. *)
Theorem opaques_in_sequence v :
  0 <= v ->
  (forall k,
     v + Z.of_nat k < 2 ^ 64 ->
     nextOpaques k v
     = (v + Z.of_nat k, map (fun i => v + 1 + Z.of_nat i) (seq 0 k))
     /\ NoDup (snd (nextOpaques k v))
     /\ fst (nextOpaques k v) = fst (opaque.NextNOpaques (Z.of_nat k) v)
     /\ (k <> O ->
         hd_error (snd (nextOpaques k v))
         = Some (snd (opaque.NextNOpaques (Z.of_nat k) v))))
  /\
  (forall n m,
     1 <= n -> 1 <= m -> v + n + m < 2 ^ 64 ->
     let '(c1, a) := opaque.NextNOpaques n v in
     let '(c2, b) := opaque.NextNOpaques m c1 in
     a = v + 1 /\ b = a + n /\ c2 = v + n + m).
Proof.
  intros Hv. split.
  - intros k Hk. rewrite nextOpaques_seq by assumption.
    rewrite NextNOpaques_mod. cbn [fst snd].
    repeat split.
    + apply NoDup_map_injective; [|apply seq_NoDup].
      intros i j H. lia.
    + rewrite wrap64_small by lia. reflexivity.
    + intros Hne. destruct k; [contradiction|]. cbn [seq map hd_error].
      rewrite wrap64_small by lia. apply f_equal. lia.
  - intros n m Hn Hm Hb. rewrite NextNOpaques_mod. cbv beta iota.
    rewrite NextNOpaques_mod. cbv beta iota.
    rewrite (wrap64_small (v + n)) by lia.
    rewrite !wrap64_small by lia. repeat split; lia.
Qed.

Lemma opaques_in_sequence_witness :
  nextOpaques 3 1000 = (1003, [1001; 1002; 1003]).
Proof.
  exact (proj1 (proj1 (opaques_in_sequence 1000 ltac:(lia)) 3%nat ltac:(lia))).
Defined.

(* ------------------------------------------------------------------ *)
(** ** The connection list never indexes past its connections *)

Lemma replace_nth_length {Link : Type} (l : list (net.tcpConn Link)) : forall n c,
  length (net.replace_nth Link l n c) = length l.
Proof.
  induction l as [|x l IH]; intros [|n] c; cbn; try reflexivity.
  rewrite IH. reflexivity.
Qed.

Lemma appendLoop_safe {Link : Type} (link : Link) fuel :
  forall t : net.tcpConnList Link,
    listWf t -> 0 < net.numConns Link t ->
    snd (net.appendLoop Link fuel t link) <> PanicIndexOutOfRange
    /\ listWf (fst (net.appendLoop Link fuel t link))
    /\ net.numConns Link (fst (net.appendLoop Link fuel t link))
       = net.numConns Link t.
Proof.
  induction fuel as [|fuel IH]; intros t [Hn Hi] Hpos.
  - cbn. repeat split; try assumption; try discriminate; lia.
  - rewrite appendLoop_S.
    assert (Hlt : (target t 1 < length (net.conns Link t))%nat).
    { unfold target. rewrite Hn.
      pose proof (Z.mod_pos_bound (opaque.wrap64 (net.iterIdx Link t + 1))
                    (Z.of_nat (length (net.conns Link t))) ltac:(lia)).
      lia. }
    destruct (nth_error (net.conns Link t) (target t 1)) as [c|] eqn:E;
      [|apply nth_error_None in E; lia].
    cbv zeta.
    destruct (negb (Is_errConnChangingState _)).
    + cbn [fst snd net.numConns net.conns net.iterIdx].
      split; [discriminate|]. split; [|reflexivity].
      unfold listWf. cbn [net.numConns net.conns net.iterIdx].
      rewrite replace_nth_length. split; [assumption | apply wrap64_range].
    + match goal with
      | |- context [net.appendLoop Link fuel ?t1 link] =>
          assert (Hwf1 : listWf t1)
            by (unfold listWf; cbn [net.numConns net.conns net.iterIdx];
                rewrite replace_nth_length; split;
                [assumption | apply wrap64_range]);
          destruct (IH t1 Hwf1 Hpos) as (H1 & H2 & H3)
      end.
      split; [exact H1|]. split; [exact H2 | exact H3].
Qed.

Lemma tcpConnList_Append_keeps (Link : Type) (t : net.tcpConnList Link)
    (link : Link) :
  listWf t ->
  snd (net.tcpConnList_Append Link t link) <> PanicIndexOutOfRange
  /\ listWf (fst (net.tcpConnList_Append Link t link)).
Proof.
  intros Hwf. unfold net.tcpConnList_Append.
  destruct (Z.eq_dec (net.numConns Link t) 0) as [Hz|Hnz].
  - rewrite Hz. cbn [Z.to_nat net.appendLoop fst snd].
    split; [discriminate | exact Hwf].
  - assert (Hpos : 0 < net.numConns Link t) by (destruct Hwf; lia).
    destruct (appendLoop_safe link (Z.to_nat (net.numConns Link t)) t Hwf Hpos)
      as (H1 & H2 & _).
    split; [exact H1 | exact H2].
Qed.


(** X10: On a list whose [numConns] is the number of its connections -- which is
    how [NewTCPConnectionList] builds it -- [Append] never indexes outside
    [conns], whatever the counter and the state of the connections; and it
    leaves such a list behind, so the same holds for every later call. *)
Theorem tcpConnList_Append_safe (Link : Type) (t : net.tcpConnList Link)
    (link : Link) :
  listWf t ->
  snd (net.tcpConnList_Append Link t link) <> PanicIndexOutOfRange
  /\ listWf (fst (net.tcpConnList_Append Link t link))
  /\ length (net.conns Link (fst (net.tcpConnList_Append Link t link)))
     = length (net.conns Link t).
Proof.
  intros Hwf. unfold net.tcpConnList_Append.
  destruct (Z.eq_dec (net.numConns Link t) 0) as [Hz|Hnz].
  - rewrite Hz. cbn [Z.to_nat net.appendLoop fst snd].
    split; [discriminate|]. split; [exact Hwf | reflexivity].
  - assert (Hpos : 0 < net.numConns Link t) by (destruct Hwf; lia).
    destruct (appendLoop_safe link (Z.to_nat (net.numConns Link t)) t Hwf Hpos)
      as (H1 & H2 & H3).
    split; [exact H1|]. split; [exact H2|].
    destruct H2 as [H2 _]. destruct Hwf as [Hn _]. lia.
Qed.

Lemma tcpConnList_Append_safe_witness :
  snd (net.tcpConnList_Append nat
         (net.mkList nat 2
            [net.mkConn nat (net.mkMutex true 0) Connected (net.mkChan nat [] 1);
             net.mkConn nat (net.mkMutex true 0) Connected (net.mkChan nat [] 1)]
            (2 ^ 64 - 1))
         9%nat)
  <> PanicIndexOutOfRange.
Proof.
  refine (proj1 (tcpConnList_Append_safe nat _ 9%nat _)).
  split; [reflexivity | cbn; lia].
Defined.

(* ------------------------------------------------------------------ *)
(** ** The outbound queue of a connection *)

Lemma appendAll_room {Link : Type} (links : list Link) :
  forall (q : list Link) (cap n : nat),
    (length q + length links <= cap)%nat ->
    appendAll (net.mkConn Link (net.mkMutex false n) Connected
                 (net.mkChan Link q cap)) links
    = (net.mkConn Link (net.mkMutex false n) Connected
         (net.mkChan Link (q ++ links) cap),
       repeat None (length links)).
Proof.
  induction links as [|link links IH]; intros q cap n Hlen.
  - cbn. rewrite app_nil_r. reflexivity.
  - cbn [appendAll length] in *.
    rewrite tcpConn_Append_queued by (cbn; try reflexivity; lia).
    cbn [net.mu net.outbound net.queued net.capacity].
    rewrite IH by (rewrite length_app; cbn; lia).
    rewrite <- app_assoc. reflexivity.
Qed.

Lemma appendAll_app {Link : Type} (l1 : list Link) :
  forall (c c1 : net.tcpConn Link) l2 e1,
    appendAll c l1 = (c1, e1) ->
    appendAll c (l1 ++ l2)
    = (fst (appendAll c1 l2), e1 ++ snd (appendAll c1 l2)).
Proof.
  induction l1 as [|x l1 IH]; intros c c1 l2 e1 H.
  - cbn in H. injection H as <- <-. cbn. destruct (appendAll c l2); reflexivity.
  - cbn [appendAll app] in *.
    destruct (net.tcpConn_Append Link c x) as [c' err].
    destruct (appendAll c' l1) as [c2 errs] eqn:E.
    injection H as <- <-.
    rewrite (IH c' c2 l2 errs E). reflexivity.
Qed.

Lemma appendAll_full {Link : Type} (q : list Link) (n : nat) :
  forall l2,
    appendAll (net.mkConn Link (net.mkMutex false n) Connected
                 (net.mkChan Link q (length q))) l2
    = (net.mkConn Link (net.mkMutex false n) Connected
         (net.mkChan Link q (length q)),
       repeat (Some errOutboundQueueFull) (length l2)).
Proof.
  induction l2 as [|x l2 IH]; [reflexivity|].
  cbn [appendAll length repeat].
  rewrite tcpConn_Append_full by (cbn; try reflexivity; lia).
  rewrite IH. reflexivity.
Qed.

(** X11: With nothing taking links off the outbound channel, a connected
    connection whose lock is free accepts links as long as the channel has
    room and queues them in the order submitted; once the channel holds as
    many links as its capacity, every further one is refused with the
    queue-full error and the queue stays as it is. *)
Theorem conn_queue_fifo (Link : Type) (q links more : list Link)
    (cap n : nat) :
  (length q + length links = cap)%nat ->
  appendAll (net.mkConn Link (net.mkMutex false n) Connected
               (net.mkChan Link q cap)) (links ++ more)
  = (net.mkConn Link (net.mkMutex false n) Connected
       (net.mkChan Link (q ++ links) cap),
     repeat None (length links)
     ++ repeat (Some errOutboundQueueFull) (length more)).
Proof.
  intros Hlen.
  rewrite (appendAll_app links _ _ more _
             (appendAll_room links q cap n ltac:(lia))).
  assert (Hcap : cap = length (q ++ links)) by (rewrite length_app; lia).
  rewrite Hcap at 1 2. rewrite appendAll_full.
  cbn [fst snd]. rewrite <- Hcap. reflexivity.
Qed.

Lemma conn_queue_fifo_witness :
  appendAll (net.mkConn nat (net.mkMutex false 0) Connected (net.mkChan nat [1%nat] 3))
    ([2; 3] ++ [4; 5])%nat
  = (net.mkConn nat (net.mkMutex false 0) Connected
       (net.mkChan nat ([1] ++ [2; 3])%nat 3),
     repeat None 2 ++ repeat (Some errOutboundQueueFull) 2).
Proof.
  apply (conn_queue_fifo nat [1%nat] [2; 3]%nat [4; 5]%nat 3 0). reflexivity.
Defined.

(* ------------------------------------------------------------------ *)
(** ** Setting a connection up *)

(** X12: [setup] dials at most three times and stops at the first dial that
    succeeds: the connection is then [Connected] on the new socket, with the
    lock free, both channels new, empty and of capacity 1000, no deadline
    recorded and the monitor count back at 0, and the result is nil.  When
    all three dials fail the state becomes [ConnectFailed], everything else
    stays and the error of the third dial is returned.  Later dial results
    play no part.  A connection just set up takes exactly 1000 links,
    in order, before it answers queue-full. *)
Theorem setup_attempts (Link Conn : Type) (dial : nat -> Conn + error)
    (c : lifecycle.tcpConn Link Conn) :
  (forall k newConn,
     (k < 3)%nat ->
     (forall j, (j < k)%nat -> exists e, dial j = inr e) ->
     dial k = inl newConn ->
     lifecycle.setup Link Conn dial c
     = (lifecycle.mkConn Link Conn
          (net.mkConn Link lifecycle.unlocked Connected (net.mkChan Link [] 1000))
          (net.mkChan Link [] 1000) (Some newConn) 0 0,
        None)
     /\ forall links more,
          length links = 1000%nat ->
          appendAll (lifecycle.core Link Conn
                       (fst (lifecycle.setup Link Conn dial c)))
            (links ++ more)
          = (net.mkConn Link lifecycle.unlocked Connected
               (net.mkChan Link links 1000),
             repeat None 1000
             ++ repeat (Some errOutboundQueueFull) (length more)))
  /\
  (forall e0 e1 e2,
     dial 0%nat = inr e0 -> dial 1%nat = inr e1 -> dial 2%nat = inr e2 ->
     lifecycle.setup Link Conn dial c
     = (lifecycle.transitionState Link Conn c ConnectFailed, Some e2))
  /\
  (snd (lifecycle.setup Link Conn dial c) = None <->
   net.state Link (lifecycle.core Link Conn (fst (lifecycle.setup Link Conn dial c)))
   = Connected).
Proof.
  unfold lifecycle.setup, lifecycle.connAttemptCount.
  split; [|split].
  - intros k newConn Hk Hfail Hok.
    assert (Heq : lifecycle.setupLoop Link Conn dial 0 3 c None
                  = (lifecycle.mkConn Link Conn
                       (net.mkConn Link lifecycle.unlocked Connected
                          (net.mkChan Link [] 1000))
                       (net.mkChan Link [] 1000) (Some newConn) 0 0, None)).
    { destruct k as [|[|[|k]]]; [| | |lia]; cbn [lifecycle.setupLoop].
      - rewrite Hok. reflexivity.
      - destruct (Hfail 0%nat ltac:(lia)) as [e0 ->]. rewrite Hok. reflexivity.
      - destruct (Hfail 0%nat ltac:(lia)) as [e0 ->].
        destruct (Hfail 1%nat ltac:(lia)) as [e1 ->]. rewrite Hok. reflexivity. }
    rewrite Heq. split; [reflexivity|].
    intros links more Hlen. cbn [fst lifecycle.core].
    unfold lifecycle.unlocked.
    rewrite (appendAll_app links _ _ more _
               (appendAll_room links [] 1000 0 ltac:(cbn; lia))).
    cbn [app]. rewrite <- Hlen at 1 2. rewrite appendAll_full.
    cbn [fst snd]. rewrite Hlen. reflexivity.
  - intros e0 e1 e2 H0 H1 H2. cbn [lifecycle.setupLoop].
    rewrite H0, H1, H2. reflexivity.
  - cbn [lifecycle.setupLoop].
    destruct (dial 0%nat); [cbn; split; reflexivity|].
    destruct (dial 1%nat); [cbn; split; reflexivity|].
    destruct (dial 2%nat); [cbn; split; reflexivity|].
    cbn. split; discriminate.
Qed.

Lemma setup_attempts_witness :
  lifecycle.setup nat nat
    (fun i => match i with 1%nat => inl 42%nat | _ => inr ErrEOF end)
    (lifecycle.mkConn nat nat
       (net.mkConn nat (net.mkMutex false 0) Reconnecting (net.mkChan nat [7%nat] 1000))
       (net.mkChan nat [] 1000) None 5 17)
  = (lifecycle.mkConn nat nat
       (net.mkConn nat lifecycle.unlocked Connected (net.mkChan nat [] 1000))
       (net.mkChan nat [] 1000) (Some 42%nat) 0 0,
     None).
Proof.
  refine (proj1 (proj1 (setup_attempts nat nat _ _) 1%nat 42%nat _ _ _)).
  - lia.
  - intros j Hj. assert (j = 0%nat) as -> by lia. eexists. reflexivity.
  - reflexivity.
Defined.

(* ------------------------------------------------------------------ *)
(** ** The socket deadline *)

(** X13: [setDeadlineIfNeeded] calls [SetDeadline] exactly when no deadline is
    recorded or the recorded one is less than a second away, and then with
    [now] + 5 s.  When it returns nil the recorded deadline is at least a
    second ahead of [now]; and after a call at [now] that set the deadline,
    calls made up to four seconds later touch neither the socket nor the
    record. *)
Theorem deadline_amortised (Link Conn : Type) (SetDeadline : Z -> option error)
    (now : Z) (c : lifecycle.tcpConn Link Conn) :
  0 <= now ->
  (snd (lifecycle.setDeadlineIfNeeded Link Conn SetDeadline now c) = []
   <-> lifecycle.currentDeadline Link Conn c <> 0
       /\ now + lifecycle.Second <= lifecycle.currentDeadline Link Conn c)
  /\
  (snd (lifecycle.setDeadlineIfNeeded Link Conn SetDeadline now c) <> [] ->
   snd (lifecycle.setDeadlineIfNeeded Link Conn SetDeadline now c)
   = [now + 5 * lifecycle.Second])
  /\
  (snd (fst (lifecycle.setDeadlineIfNeeded Link Conn SetDeadline now c)) = None ->
   now + lifecycle.Second
   <= lifecycle.currentDeadline Link Conn
        (fst (fst (lifecycle.setDeadlineIfNeeded Link Conn SetDeadline now c)))
   /\
   (snd (lifecycle.setDeadlineIfNeeded Link Conn SetDeadline now c) <> [] ->
    forall later,
      now <= later <= now + 4 * lifecycle.Second ->
      lifecycle.setDeadlineIfNeeded Link Conn SetDeadline later
        (fst (fst (lifecycle.setDeadlineIfNeeded Link Conn SetDeadline now c)))
      = (fst (fst (lifecycle.setDeadlineIfNeeded Link Conn SetDeadline now c)),
         None, []))).
Proof.
  intros Hnow. unfold lifecycle.setDeadlineIfNeeded, lifecycle.socketTimeout,
    lifecycle.Second.
  destruct (Z.eqb_spec (lifecycle.currentDeadline Link Conn c) 0) as [Hz|Hz];
    cbn [orb];
    [|destruct (Z.ltb_spec (lifecycle.currentDeadline Link Conn c)
                 (now + 1000000000)) as [Hlt|Hge]];
    try (destruct (SetDeadline (now + 5 * 1000000000)) as [e|]);
    cbn [fst snd lifecycle.currentDeadline];
    repeat split; intros;
    repeat match goal with H : _ /\ _ |- _ => destruct H end;
    try discriminate; try contradiction; try lia; try reflexivity;
    try assumption;
    match goal with
    | |- context [(?a =? 0) || (?a <? ?b)] =>
        destruct (Z.eqb_spec a 0); [lia|];
        destruct (Z.ltb_spec a b); [lia|]; reflexivity
    end.
Qed.

Lemma deadline_amortised_witness :
  lifecycle.setDeadlineIfNeeded nat nat (fun _ => None) 3000000000
    (fst (fst (lifecycle.setDeadlineIfNeeded nat nat (fun _ => None) 0
       (lifecycle.mkConn nat nat
          (net.mkConn nat (net.mkMutex false 0) Connected (net.mkChan nat [] 1000))
          (net.mkChan nat [] 1000) (Some 1%nat) 0 0))))
  = (fst (fst (lifecycle.setDeadlineIfNeeded nat nat (fun _ => None) 0
       (lifecycle.mkConn nat nat
          (net.mkConn nat (net.mkMutex false 0) Connected (net.mkChan nat [] 1000))
          (net.mkChan nat [] 1000) (Some 1%nat) 0 0))),
     None, []).
Proof.
  refine (proj2 (proj2 (proj2 (deadline_amortised nat nat (fun _ => None) 0
       (lifecycle.mkConn nat nat
          (net.mkConn nat (net.mkMutex false 0) Connected (net.mkChan nat [] 1000))
          (net.mkChan nat [] 1000) (Some 1%nat) 0 0) _))
                  eq_refl) _ 3000000000 _).
  - lia.
  - cbn. discriminate.
  - cbn. lia.
Defined.

(* ------------------------------------------------------------------ *)
(** ** The connection pool *)

Lemma bytes_eqb_refl a : bytes_eqb a a = true.
Proof. apply bytes_eqb_eq. reflexivity. Qed.

Lemma NoDup_snoc {A : Type} (l : list A) x :
  NoDup l -> ~ In x l -> NoDup (l ++ [x]).
Proof.
  induction 1 as [|y l Hy Hl IH]; intros Hx; cbn [app].
  - constructor; [intros [] | constructor].
  - constructor.
    + rewrite in_app_iff. intros [H|[H|[]]]; [contradiction|].
      subst. apply Hx. left. reflexivity.
    + apply IH. intros H. apply Hx. right. exact H.
Qed.

Lemma Index_split pre be post :
  ~ In (pool.ptr be) (map pool.ptr pre) ->
  pool.Index (pre ++ be :: post) be = Some (length pre).
Proof.
  induction pre as [|b pre IH]; intros Hnot; cbn [app pool.Index length].
  - rewrite Nat.eqb_refl. reflexivity.
  - cbn [map] in Hnot.
    destruct (Nat.eqb_spec (pool.ptr b) (pool.ptr be)) as [E|E].
    + exfalso. apply Hnot. left. exact E.
    + rewrite IH by (intros H; apply Hnot; right; exact H). reflexivity.
Qed.

Lemma Delete_split (pre : list pool.Backend) be post :
  pool.Delete (pre ++ be :: post) (length pre) = pre ++ post.
Proof.
  induction pre as [|b pre IH]; cbn [app pool.Delete length]; [reflexivity|].
  rewrite IH. reflexivity.
Qed.

Lemma nth_error_split (pre : list pool.Backend) be post :
  nth_error (pre ++ be :: post) (length pre) = Some be.
Proof.
  rewrite nth_error_app2 by lia. rewrite Nat.sub_diag. reflexivity.
Qed.

Section PoolMap.
Variable L : Type.

Lemma lookup_insert (m : pool.cmap L) k v k' :
  pool.lookup L (pool.insert L m k v) k'
  = if bytes_eqb k k' then Some v else pool.lookup L m k'.
Proof.
  induction m as [|[k0 v0] m IH]; cbn [pool.insert pool.lookup].
  - reflexivity.
  - destruct (bytes_eqb k0 k) eqn:E0; cbn [pool.lookup].
    + apply bytes_eqb_eq in E0. subst k0.
      destruct (bytes_eqb k k'); reflexivity.
    + rewrite IH. destruct (bytes_eqb k0 k') eqn:E1; [|reflexivity].
      apply bytes_eqb_eq in E1. subst k0.
      destruct (bytes_eqb k k') eqn:E2; [|reflexivity].
      apply bytes_eqb_eq in E2. subst k.
      rewrite bytes_eqb_refl in E0. discriminate.
Qed.

Lemma lookup_delete (m : pool.cmap L) k k' :
  pool.lookup L (pool.delete L m k) k'
  = if bytes_eqb k k' then None else pool.lookup L m k'.
Proof.
  induction m as [|[k0 v0] m IH]; cbn [pool.delete pool.lookup].
  - destruct (bytes_eqb k k'); reflexivity.
  - destruct (bytes_eqb k0 k) eqn:E0; cbn [pool.lookup].
    + apply bytes_eqb_eq in E0. subst k0. rewrite IH.
      destruct (bytes_eqb k k'); reflexivity.
    + rewrite IH. destruct (bytes_eqb k0 k') eqn:E1; [|reflexivity].
      apply bytes_eqb_eq in E1. subst k0.
      destruct (bytes_eqb k k') eqn:E2; [|reflexivity].
      apply bytes_eqb_eq in E2. subst k.
      rewrite bytes_eqb_refl in E0. discriminate.
Qed.

Lemma pool_pick (t : pool.tcpConnPool L) idx :
  poolWf t ->
  (idx <? 0) || (pool.maxIdxForHash L t <=? idx) = false ->
  exists be m cl,
    nth_error (pool.backends L t) (Z.to_nat idx) = Some be
    /\ In be (pool.backends L t)
    /\ pool.cm L t = Some m
    /\ pool.lookup L m (pool.addr be) = Some cl.
Proof.
  intros (m & Hm & Hmax & Haddr & Hptr & Hkeys) Hidx.
  apply orb_false_iff in Hidx. destruct Hidx as [H0 H1].
  apply Z.ltb_ge in H0. apply Z.leb_gt in H1.
  destruct (nth_error (pool.backends L t) (Z.to_nat idx)) as [be|] eqn:E;
    [|apply nth_error_None in E; lia].
  pose proof (nth_error_In _ _ E) as Hin.
  assert (Hcl : pool.lookup L m (pool.addr be) <> None).
  { apply Hkeys. apply in_map. exact Hin. }
  destruct (pool.lookup L m (pool.addr be)) as [cl|] eqn:Ecl; [|contradiction].
  exists be, m, cl. repeat split; assumption.
Qed.


Lemma pool_step_wf (P : L -> Prop) (t : pool.tcpConnPool L) m be cl' :
  poolWf t -> poolLists P t ->
  pool.cm L t = Some m ->
  In be (pool.backends L t) ->
  P cl' ->
  poolWf (pool.mkPool L (pool.backends L t)
            (Some (pool.insert L m (pool.addr be) cl'))
            (pool.maxIdxForHash L t))
  /\ poolLists P (pool.mkPool L (pool.backends L t)
                    (Some (pool.insert L m (pool.addr be) cl'))
                    (pool.maxIdxForHash L t)).
Proof.
  intros (m0 & Hm0 & Hmax & Haddr & Hptr & Hkeys) Hlists Hm Hin Hcl.
  rewrite Hm in Hm0. injection Hm0 as <-.
  split.
  - exists (pool.insert L m (pool.addr be) cl').
    cbn [pool.cm pool.maxIdxForHash pool.backends].
    split; [reflexivity|]. split; [exact Hmax|].
    split; [exact Haddr|]. split; [exact Hptr|].
    intros k. rewrite lookup_insert.
    destruct (bytes_eqb (pool.addr be) k) eqn:E; [|apply Hkeys].
    apply bytes_eqb_eq in E. subst k.
    split; [intros _; apply in_map; exact Hin | discriminate].
  - intros m1 k l H1 Hl. cbn [pool.cm] in H1. injection H1 as <-.
    rewrite lookup_insert in Hl.
    destruct (bytes_eqb (pool.addr be) k).
    + injection Hl as <-. exact Hcl.
    + exact (Hlists m k l Hm Hl).
Qed.


Lemma poolWf_of_list (kvs : list (pool.Backend * L)) :
  NoDup (map pool.addr (map fst kvs)) ->
  NoDup (map pool.ptr (map fst kvs)) ->
  poolWf (pool.mkPool L (map fst kvs)
            (Some (map (fun kv => (pool.addr (fst kv), snd kv)) kvs))
            (Z.of_nat (length kvs))).
Proof.
  intros Haddr Hptr. eexists. cbn [pool.cm pool.maxIdxForHash pool.backends].
  split; [reflexivity|]. split; [rewrite length_map; reflexivity|].
  split; [exact Haddr|]. split; [exact Hptr|].
  clear Haddr Hptr. intros k.
  induction kvs as [|[b l] kvs IH]; cbn [map pool.lookup In fst snd].
  - split; [intros H; apply H; reflexivity | intros []].
  - destruct (bytes_eqb (pool.addr b) k) eqn:E.
    + apply bytes_eqb_eq in E. split; [intros _; left; exact E | discriminate].
    + rewrite IH. split; [intros H; right; exact H|].
      intros [H|H]; [|exact H]. subst k. rewrite bytes_eqb_refl in E.
      discriminate.
Qed.

Lemma poolLists_of_list (P : L -> Prop) (kvs : list (pool.Backend * L)) :
  Forall P (map snd kvs) ->
  poolLists P (pool.mkPool L (map fst kvs)
                 (Some (map (fun kv => (pool.addr (fst kv), snd kv)) kvs))
                 (Z.of_nat (length kvs))).
Proof.
  intros HP m k l Hm Hl. cbn [pool.cm] in Hm. injection Hm as <-.
  induction kvs as [|[b l0] kvs IH]; cbn [map pool.lookup fst snd] in *;
    [discriminate|].
  inversion HP as [|? ? H0 H1]; subst.
  destruct (bytes_eqb (pool.addr b) k).
  - injection Hl as <-. exact H0.
  - apply IH; assumption.
Qed.

End PoolMap.

Section PoolAdd.
Variable L : Type.
Variable newList : pool.Backend -> L + error.


Lemma newPoolLoop_ok (bs : list pool.Backend) :
  forall m : pool.cmap L,
    (forall be, In be bs -> exists cl, newList be = inl cl) ->
    exists m',
      pool.newPoolLoop L newList bs m = inl m'
      /\ forall k, pool.lookup L m' k <> None
                   <-> pool.lookup L m k <> None \/ In k (map pool.addr bs).
Proof.
  induction bs as [|be bs IH]; intros m Hall; cbn [pool.newPoolLoop map In].
  - exists m. split; [reflexivity|]. tauto.
  - destruct (Hall be (or_introl eq_refl)) as [cl Hcl]. rewrite Hcl.
    destruct (IH (pool.insert L m (pool.addr be) cl)
                (fun b Hb => Hall b (or_intror Hb))) as (m' & Hm' & Hk).
    exists m'. split; [exact Hm'|].
    intros k. rewrite Hk, lookup_insert.
    destruct (bytes_eqb (pool.addr be) k) eqn:E.
    + apply bytes_eqb_eq in E. split; [tauto|]. intros _. left. discriminate.
    + split; [tauto|]. intros [H|[H|H]]; [tauto| |tauto].
      subst k. rewrite bytes_eqb_refl in E. discriminate.
Qed.

Lemma newPoolLoop_err (pre : list pool.Backend) be post err :
  forall m : pool.cmap L,
    (forall b, In b pre -> exists cl, newList b = inl cl) ->
    newList be = inr err ->
    pool.newPoolLoop L newList (pre ++ be :: post) m = inr err.
Proof.
  induction pre as [|b pre IH]; intros m Hall Herr;
    cbn [app pool.newPoolLoop].
  - rewrite Herr. reflexivity.
  - destruct (Hall b (or_introl eq_refl)) as [cl Hcl]. rewrite Hcl.
    apply IH; [|exact Herr]. intros b' Hb'. apply Hall. right. exact Hb'.
Qed.

End PoolAdd.

Section PoolRemove.
Variable L : Type.
Variable listClose : L -> option error.

Lemma pool_Remove_wf (t : pool.tcpConnPool L) be :
  poolWf t ->
  In be (pool.backends L t) ->
  exists m cl pre post,
    pool.cm L t = Some m
    /\ pool.lookup L m (pool.addr be) = Some cl
    /\ pool.backends L t = pre ++ be :: post
    /\ pool.Remove L listClose t be
       = (pool.mkPool L (pre ++ post)
            (Some (pool.delete L m (pool.addr be)))
            (pool.maxIdxForHash L t - 1),
          pool.PReturned (option_map pool.ErrFrom (listClose cl)))
    /\ poolWf (fst (pool.Remove L listClose t be)).
Proof.
  intros (m & Hm & Hmax & Haddr & Hptr & Hkeys) Hin.
  destruct (in_split _ _ Hin) as (pre & post & Hbs).
  assert (Hcl : pool.lookup L m (pool.addr be) <> None).
  { apply Hkeys. apply in_map. exact Hin. }
  destruct (pool.lookup L m (pool.addr be)) as [cl|] eqn:Ecl; [|contradiction].
  exists m, cl, pre, post.
  split; [exact Hm|]. split; [exact Ecl|]. split; [exact Hbs|].
  rewrite Hbs, map_app in Hptr, Haddr. cbn [map] in Hptr, Haddr.
  assert (Hnot : ~ In (pool.ptr be) (map pool.ptr pre)).
  { intros H. apply NoDup_remove_2 in Hptr. apply Hptr.
    rewrite in_app_iff. left. exact H. }
  assert (HR : pool.Remove L listClose t be
               = (pool.mkPool L (pre ++ post)
                    (Some (pool.delete L m (pool.addr be)))
                    (pool.maxIdxForHash L t - 1),
                  pool.PReturned (option_map pool.ErrFrom (listClose cl)))).
  { unfold pool.Remove.
    rewrite Hbs, Index_split, nth_error_split, Delete_split, Hm by exact Hnot.
    rewrite Ecl. reflexivity. }
  split; [exact HR|]. rewrite HR. cbn [fst].
  exists (pool.delete L m (pool.addr be)).
  cbn [pool.cm pool.maxIdxForHash pool.backends].
  split; [reflexivity|].
  split; [rewrite Hmax, Hbs, !length_app; cbn [length]; lia|].
  split; [rewrite map_app; apply NoDup_remove_1 in Haddr; exact Haddr|].
  split; [rewrite map_app; apply NoDup_remove_1 in Hptr; exact Hptr|].
  intros k. rewrite lookup_delete.
  destruct (bytes_eqb (pool.addr be) k) eqn:E.
  - apply bytes_eqb_eq in E. subst k. split; [congruence|].
    intros H. exfalso. apply NoDup_remove_2 in Haddr. apply Haddr.
    rewrite <- map_app. exact H.
  - rewrite Hkeys, Hbs, !map_app, !in_app_iff. cbn [map In].
    split; [|tauto].
    intros [H|[H|H]]; [tauto| |tauto]. subst k.
    rewrite bytes_eqb_refl in E. discriminate.
Qed.

Lemma pool_Remove_absent (t : pool.tcpConnPool L) be :
  ~ In (pool.ptr be) (map pool.ptr (pool.backends L t)) ->
  pool.Remove L listClose t be
  = (t, pool.PReturned (Some (pool.ErrBackendNotFound (pool.addr be)))).
Proof.
  intros Hnot. unfold pool.Remove.
  assert (H : pool.Index (pool.backends L t) be = None).
  { induction (pool.backends L t) as [|b bs IH]; [reflexivity|].
    cbn [pool.Index map] in *.
    destruct (Nat.eqb_spec (pool.ptr b) (pool.ptr be)) as [E|E].
    - exfalso. apply Hnot. left. exact E.
    - rewrite IH by (intros H; apply Hnot; right; exact H). reflexivity. }
  rewrite H. reflexivity.
Qed.

End PoolRemove.

(** The loop of [Append], over connection lists that keep an invariant
    [P] under which they do not panic. *)
Section PoolLoop.
Variable Link : Type.
Variable L : Type.
Variable listAppend : L -> Link -> L * outcome.
Variable P : L -> Prop.
Hypothesis HP : forall l link,
  P l ->
  snd (listAppend l link) <> PanicIndexOutOfRange
  /\ P (fst (listAppend l link)).

Lemma pool_appendLoop_inv hashFn (link : Link) fuel :
  forall i (t : pool.tcpConnPool L),
    poolWf t -> poolLists P t ->
    poolAnswer (snd (pool.appendLoop Link L listAppend hashFn fuel i t link))
    /\ poolWf (fst (pool.appendLoop Link L listAppend hashFn fuel i t link))
    /\ poolLists P
         (fst (pool.appendLoop Link L listAppend hashFn fuel i t link))
    /\ pool.backends L
         (fst (pool.appendLoop Link L listAppend hashFn fuel i t link))
       = pool.backends L t.
Proof.
  induction fuel as [|fuel IH]; intros i t Hwf Hlists.
  - cbn. repeat split; assumption.
  - cbn [pool.appendLoop]. cbv zeta.
    destruct ((hashFn i (pool.maxIdxForHash L t) <? 0)
              || (pool.maxIdxForHash L t <=? hashFn i (pool.maxIdxForHash L t)))
      eqn:Hidx.
    { cbn. repeat split; assumption. }
    destruct (pool_pick L t _ Hwf Hidx) as (be & m & cl & Hnth & Hin & Hm & Hcl).
    rewrite Hnth, Hm, Hcl.
    assert (Pcl : P cl) by exact (Hlists m _ cl Hm Hcl).
    destruct (HP cl link Pcl) as [Hsafe Hkeep].
    destruct (listAppend cl link) as [cl' res]. cbn [fst snd] in Hsafe, Hkeep.
    destruct (pool_step_wf L P t m be cl' Hwf Hlists Hm Hin Hkeep) as [Hwf' Hl'].
    destruct res as [err|]; [|contradiction].
    destruct (negb (pool.Is_backendUnhealthy err)) eqn:Eu.
    + cbn [fst snd pool.backends].
      split; [|repeat split; assumption].
      destruct err as [e|]; cbn [option_map poolAnswer]; [|exact I].
      cbn [pool.Is_backendUnhealthy] in Eu.
      destruct (pool.errors_Is_unhealthy e); [discriminate | reflexivity].
    + destruct (IH (S i) _ Hwf' Hl') as (H1 & H2 & H3 & H4).
      repeat split; assumption.
Qed.

End PoolLoop.

(** The loop over connection lists that all answer backend-unhealthy and
    stay that way. *)
Section PoolExhaust.
Variable Link : Type.
Variable L : Type.
Variable listAppend : L -> Link -> L * outcome.
Variable Q : L -> Prop.
Hypothesis HQ : forall l link,
  Q l ->
  Q (fst (listAppend l link))
  /\ exists e, snd (listAppend l link) = Returned (Some e)
               /\ pool.errors_Is_unhealthy e = true.


End PoolExhaust.

(** *** Building and changing the pool *)

(** X14: [NewConnPool] over backends with addresses of their own builds a
    consistent pool with one connection list per backend; the first list
    that cannot be built makes it fail with that error. *)
Theorem pool_New_consistent (L : Type) (newList : pool.Backend -> L + error)
    (bs : list pool.Backend) :
  NoDup (map pool.addr bs) ->
  NoDup (map pool.ptr bs) ->
  ((forall be, In be bs -> exists cl, newList be = inl cl) ->
   exists t, pool.NewConnPool L newList bs = inl t
             /\ pool.backends L t = bs
             /\ poolWf t)
  /\ (forall pre be post err,
        bs = pre ++ be :: post ->
        (forall b, In b pre -> exists cl, newList b = inl cl) ->
        newList be = inr err ->
        pool.NewConnPool L newList bs = inr err).
Proof.
  intros Haddr Hptr. split.
  - intros Hall. unfold pool.NewConnPool.
    destruct (newPoolLoop_ok L newList bs [] Hall) as (m & Hm & Hk).
    rewrite Hm. eexists. split; [reflexivity|]. split; [reflexivity|].
    exists m. cbn [pool.cm pool.maxIdxForHash pool.backends].
    repeat (split; [first [reflexivity | assumption]|]).
    intros k. rewrite Hk. cbn [pool.lookup]. tauto.
  - intros pre be post err -> Hall Herr. unfold pool.NewConnPool.
    rewrite (newPoolLoop_err L newList pre be post err [] Hall Herr).
    reflexivity.
Qed.

Lemma pool_New_consistent_witness :
  exists t,
    pool.NewConnPool nat (fun be => inl (pool.ptr be))
      [pool.mkBackend 1 (bytes "a:1"); pool.mkBackend 2 (bytes "b:1")]
    = inl t
    /\ pool.backends nat t
       = [pool.mkBackend 1 (bytes "a:1"); pool.mkBackend 2 (bytes "b:1")]
    /\ poolWf t.
Proof.
  refine (proj1 (pool_New_consistent nat (fun be => inl (pool.ptr be))
                   [pool.mkBackend 1 (bytes "a:1");
                    pool.mkBackend 2 (bytes "b:1")] _ _) _).
  - repeat constructor; cbn; intuition discriminate.
  - repeat constructor; cbn; intuition discriminate.
  - intros be _. exists (pool.ptr be). reflexivity.
Defined.

(** X15: [Add] of a backend that is new to a consistent pool, under an
    address no backend of the pool has, appends the backend, stores its
    connection list under its address, counts it in [maxIdxForHash] and
    leaves a consistent pool. *)
Theorem pool_Add_consistent (L : Type) (newList : pool.Backend -> L + error)
    (t : pool.tcpConnPool L) (be : pool.Backend) (cl : L) :
  poolWf t ->
  ~ In (pool.addr be) (map pool.addr (pool.backends L t)) ->
  ~ In (pool.ptr be) (map pool.ptr (pool.backends L t)) ->
  newList be = inl cl ->
  exists m,
    pool.cm L t = Some m
    /\ pool.Add L newList t be
       = (pool.mkPool L (pool.backends L t ++ [be])
            (Some (pool.insert L m (pool.addr be) cl))
            (pool.maxIdxForHash L t + 1),
          pool.PReturned None)
    /\ poolWf (fst (pool.Add L newList t be)).
Proof.
  intros (m & Hm & Hmax & Haddr & Hptr & Hkeys) Hnew Hnewp Hcl.
  exists m. split; [assumption|]. unfold pool.Add. rewrite Hcl, Hm.
  split; [reflexivity|]. cbn [fst].
  exists (pool.insert L m (pool.addr be) cl).
  cbn [pool.cm pool.maxIdxForHash pool.backends].
  split; [reflexivity|]. split; [rewrite length_app; cbn; lia|].
  split.
  { rewrite map_app. cbn [map]. apply NoDup_snoc; assumption. }
  split.
  { rewrite map_app. cbn [map]. apply NoDup_snoc; assumption. }
  intros k. rewrite lookup_insert, map_app, in_app_iff. cbn [map In].
  destruct (bytes_eqb (pool.addr be) k) eqn:E.
  - apply bytes_eqb_eq in E. split; [intros _; right; left; exact E | discriminate].
  - rewrite Hkeys. split; [intros H; left; exact H|].
    intros [H|[H|[]]]; [exact H|]. subst k. rewrite bytes_eqb_refl in E.
    discriminate.
Qed.

(** X16: [Remove] of a backend of a consistent pool takes the backend out of
    the slice and its address out of the map, lowers [maxIdxForHash],
    returns what closing its connection list returns and leaves a
    consistent pool; a backend the pool does not hold is reported and the
    pool is as before. *)
Theorem pool_Remove_consistent (L : Type) (listClose : L -> option error)
    (t : pool.tcpConnPool L) (be : pool.Backend) :
  poolWf t ->
  (In be (pool.backends L t) ->
   exists m cl pre post,
     pool.cm L t = Some m
     /\ pool.lookup L m (pool.addr be) = Some cl
     /\ pool.backends L t = pre ++ be :: post
     /\ pool.Remove L listClose t be
        = (pool.mkPool L (pre ++ post)
             (Some (pool.delete L m (pool.addr be)))
             (pool.maxIdxForHash L t - 1),
           pool.PReturned (option_map pool.ErrFrom (listClose cl)))
     /\ poolWf (fst (pool.Remove L listClose t be)))
  /\ (~ In (pool.ptr be) (map pool.ptr (pool.backends L t)) ->
      pool.Remove L listClose t be
      = (t, pool.PReturned (Some (pool.ErrBackendNotFound (pool.addr be))))).
Proof.
  intros Hwf. split.
  - apply pool_Remove_wf. exact Hwf.
  - apply pool_Remove_absent.
Qed.

Lemma pool_Add_consistent_witness :
  exists m,
    pool.cm nat (pool.mkPool nat [pool.mkBackend 1 (bytes "a:1")]
                   (Some [(bytes "a:1", 7%nat)]) 1) = Some m
    /\ pool.Add nat (fun be => inl (pool.ptr be))
         (pool.mkPool nat [pool.mkBackend 1 (bytes "a:1")]
            (Some [(bytes "a:1", 7%nat)]) 1)
         (pool.mkBackend 2 (bytes "b:1"))
       = (pool.mkPool nat
            [pool.mkBackend 1 (bytes "a:1"); pool.mkBackend 2 (bytes "b:1")]
            (Some (pool.insert nat m (bytes "b:1") 2%nat)) 2,
          pool.PReturned None).
Proof.
  destruct (pool_Add_consistent nat (fun be => inl (pool.ptr be))
              (pool.mkPool nat [pool.mkBackend 1 (bytes "a:1")]
                 (Some [(bytes "a:1", 7%nat)]) 1)
              (pool.mkBackend 2 (bytes "b:1")) 2%nat)
    as (m & Hm & HA & _).
  - exact (poolWf_of_list nat [(pool.mkBackend 1 (bytes "a:1"), 7%nat)]
             ltac:(repeat constructor; cbn; intuition discriminate)
             ltac:(repeat constructor; cbn; intuition discriminate)).
  - cbn. intuition discriminate.
  - cbn. intuition discriminate.
  - reflexivity.
  - exists m. split; [exact Hm | exact HA].
Defined.

Lemma pool_Remove_consistent_witness :
  exists cl,
    pool.Remove nat (fun _ => None)
      (pool.mkPool nat
         [pool.mkBackend 1 (bytes "a:1"); pool.mkBackend 2 (bytes "b:1")]
         (Some [(bytes "a:1", 7%nat); (bytes "b:1", 8%nat)]) 2)
      (pool.mkBackend 2 (bytes "b:1"))
    = (pool.mkPool nat [pool.mkBackend 1 (bytes "a:1")]
         (Some [(bytes "a:1", 7%nat)]) 1,
       pool.PReturned cl).
Proof.
  destruct (proj1 (pool_Remove_consistent nat (fun _ => None)
              (pool.mkPool nat
                 [pool.mkBackend 1 (bytes "a:1");
                  pool.mkBackend 2 (bytes "b:1")]
                 (Some [(bytes "a:1", 7%nat); (bytes "b:1", 8%nat)]) 2)
              (pool.mkBackend 2 (bytes "b:1"))
              (poolWf_of_list nat
                 [(pool.mkBackend 1 (bytes "a:1"), 7%nat);
                  (pool.mkBackend 2 (bytes "b:1"), 8%nat)]
                 ltac:(repeat constructor; cbn; intuition discriminate)
                 ltac:(repeat constructor; cbn; intuition discriminate)))
              ltac:(cbn; auto))
    as (m & cl & pre & post & _ & _ & _ & _ & _).
  exists None. reflexivity.
Defined.

(* ------------------------------------------------------------------ *)
(** *** Submitting a link to the pool *)


(** X17: on a consistent pool whose connection lists are as
    [NewTCPConnectionList] builds them, [Append] never panics -- every index
    the hash function gives in range finds its backend, and every backend
    its connection list --, never hands the backend-unhealthy error of a
    list to the caller, and leaves such a pool with the same backends. *)
Theorem pool_Append_safe (Link : Type) (hashFn : nat -> Z -> Z)
    (t : pool.tcpConnPool (net.tcpConnList Link)) (link : Link) :
  poolWf t ->
  poolLists listWf t ->
  poolAnswer
    (snd (pool.Append Link _ (net.tcpConnList_Append Link) hashFn t link))
  /\ poolWf
       (fst (pool.Append Link _ (net.tcpConnList_Append Link) hashFn t link))
  /\ poolLists listWf
       (fst (pool.Append Link _ (net.tcpConnList_Append Link) hashFn t link))
  /\ pool.backends _
       (fst (pool.Append Link _ (net.tcpConnList_Append Link) hashFn t link))
     = pool.backends _ t.
Proof.
  intros Hwf Hlists. unfold pool.Append.
  destruct (pool.len _ (pool.cm _ t) =? 0)%nat.
  - cbn [fst snd poolAnswer].
    split; [exact I|]. split; [assumption|]. split; [assumption | reflexivity].
  - apply (pool_appendLoop_inv Link _ (net.tcpConnList_Append Link) listWf);
      [|assumption|assumption].
    intros l k Hl.
    destruct (tcpConnList_Append_keeps Link l k Hl) as (H1 & H2).
    split; assumption.
Qed.

Lemma pool_Append_safe_witness :
  poolAnswer
    (snd (pool.Append nat _ (net.tcpConnList_Append nat) (fun _ _ => 0)
            (pool.mkPool _ [pool.mkBackend 1 (bytes "a:1")]
               (Some [(bytes "a:1",
                       net.mkList nat 1
                         [net.mkConn nat (net.mkMutex false 0) Connected
                            (net.mkChan nat [] 1)] 0)]) 1)
            9%nat)).
Proof.
  refine (proj1 (pool_Append_safe nat (fun _ _ => 0) _ 9%nat _ _)).
  - exact (poolWf_of_list _
             [(pool.mkBackend 1 (bytes "a:1"),
               net.mkList nat 1
                 [net.mkConn nat (net.mkMutex false 0) Connected
                    (net.mkChan nat [] 1)] 0)]
             ltac:(repeat constructor; cbn; intuition discriminate)
             ltac:(repeat constructor; cbn; intuition discriminate)).
  - apply (poolLists_of_list _ listWf
             [(pool.mkBackend 1 (bytes "a:1"),
               net.mkList nat 1
                 [net.mkConn nat (net.mkMutex false 0) Connected
                    (net.mkChan nat [] 1)] 0)]).
    repeat constructor; cbn; lia.
Defined.



(* ------------------------------------------------------------------ *)
(** *** One address, two backends *)

(** X19: [Add] does not look for the address in the pool.  Adding a second
    backend under an address the pool has puts its connection list in the
    place of the first one's; [Remove] of the second backend then closes
    that list and takes the address out of the map, while the first backend
    stays in the slice.  As long as another backend keeps the map from
    being empty, an [Append] whose hash index picks the first backend finds
    no connection list under its address and calls [Append] on a nil
    [TCPConnList]: it panics. *)
Theorem pool_Add_same_address (Link L : Type)
    (listAppend : L -> Link -> L * outcome)
    (listClose : L -> option error)
    (newList : pool.Backend -> L + error)
    (t : pool.tcpConnPool L) (be be2 other : pool.Backend) (cl2 : L)
    (hashFn : nat -> Z -> Z) (link : Link) :
  poolWf t ->
  In be (pool.backends L t) ->
  pool.addr be2 = pool.addr be ->
  ~ In (pool.ptr be2) (map pool.ptr (pool.backends L t)) ->
  newList be2 = inl cl2 ->
  In other (pool.backends L t) ->
  pool.addr other <> pool.addr be ->
  0 <= hashFn 0%nat (pool.maxIdxForHash L t) < pool.maxIdxForHash L t ->
  nth_error (pool.backends L t)
    (Z.to_nat (hashFn 0%nat (pool.maxIdxForHash L t))) = Some be ->
  exists t1 t2,
    pool.Add L newList t be2 = (t1, pool.PReturned None)
    /\ pool.Remove L listClose t1 be2
       = (t2, pool.PReturned (option_map pool.ErrFrom (listClose cl2)))
    /\ pool.backends L t2 = pool.backends L t
    /\ pool.maxIdxForHash L t2 = pool.maxIdxForHash L t
    /\ snd (pool.Append Link L listAppend hashFn t2 link) = pool.PPanic.
Proof.
  intros (m & Hm & Hmax & Haddr & Hptr & Hkeys) Hin Ha Hnew Hcl Hother Hdiff
    Hidx Hnth.
  exists (pool.mkPool L (pool.backends L t ++ [be2])
            (Some (pool.insert L m (pool.addr be2) cl2))
            (pool.maxIdxForHash L t + 1)).
  exists (pool.mkPool L (pool.backends L t)
            (Some (pool.delete L (pool.insert L m (pool.addr be2) cl2)
                     (pool.addr be2)))
            (pool.maxIdxForHash L t)).
  split.
  { unfold pool.Add. rewrite Hcl, Hm. reflexivity. }
  split.
  { unfold pool.Remove. cbn [pool.backends pool.cm pool.maxIdxForHash].
    rewrite Index_split, nth_error_split, Delete_split by exact Hnew.
    rewrite lookup_insert, bytes_eqb_refl.
    cbn [option_map]. rewrite app_nil_r, Z.add_simpl_r. reflexivity. }
  split; [reflexivity|]. split; [reflexivity|].
  unfold pool.Append. cbn [pool.cm pool.maxIdxForHash pool.len].
  assert (Hlook : pool.lookup L
                    (pool.delete L (pool.insert L m (pool.addr be2) cl2)
                       (pool.addr be2)) (pool.addr other) <> None).
  { rewrite lookup_delete, Ha, (bytes_eqb_neq (pool.addr be) (pool.addr other))
      by congruence.
    rewrite lookup_insert, (bytes_eqb_neq (pool.addr be) (pool.addr other))
      by congruence.
    apply Hkeys. apply in_map. exact Hother. }
  destruct (pool.delete L (pool.insert L m (pool.addr be2) cl2)
              (pool.addr be2)) as [|kv m2] eqn:Em2;
    [exfalso; apply Hlook; reflexivity|].
  cbn [length Nat.eqb].
  destruct (Z.to_nat (pool.maxIdxForHash L t)) as [|fuel] eqn:Ef; [lia|].
  cbn [pool.appendLoop pool.maxIdxForHash pool.backends pool.cm]. cbv zeta.
  replace ((hashFn 0%nat (pool.maxIdxForHash L t) <? 0)
           || (pool.maxIdxForHash L t <=? hashFn 0%nat (pool.maxIdxForHash L t)))
    with false
    by (symmetry; apply orb_false_iff; split;
        [apply Z.ltb_ge | apply Z.leb_gt]; lia).
  rewrite Hnth, <- Em2, <- Ha, lookup_delete, bytes_eqb_refl. reflexivity.
Qed.

Lemma pool_Add_same_address_witness :
  exists t1 t2,
    pool.Add nat (fun be => inl (pool.ptr be))
      (pool.mkPool nat
         [pool.mkBackend 1 (bytes "a:1"); pool.mkBackend 2 (bytes "b:1")]
         (Some [(bytes "a:1", 1%nat); (bytes "b:1", 2%nat)]) 2)
      (pool.mkBackend 3 (bytes "a:1"))
    = (t1, pool.PReturned None)
    /\ pool.Remove nat (fun _ => None) t1 (pool.mkBackend 3 (bytes "a:1"))
       = (t2, pool.PReturned None)
    /\ snd (pool.Append nat nat (fun l _ => (l, Returned None))
              (fun _ _ => 0) t2 9%nat)
       = pool.PPanic.
Proof.
  destruct (pool_Add_same_address nat nat (fun l _ => (l, Returned None))
              (fun _ => None) (fun be => inl (pool.ptr be))
              (pool.mkPool nat
                 [pool.mkBackend 1 (bytes "a:1");
                  pool.mkBackend 2 (bytes "b:1")]
                 (Some [(bytes "a:1", 1%nat); (bytes "b:1", 2%nat)]) 2)
              (pool.mkBackend 1 (bytes "a:1"))
              (pool.mkBackend 3 (bytes "a:1"))
              (pool.mkBackend 2 (bytes "b:1"))
              3%nat (fun _ _ => 0) 9%nat)
    as (t1 & t2 & HA & HR & _ & _ & HP).
  - exact (poolWf_of_list nat
             [(pool.mkBackend 1 (bytes "a:1"), 1%nat);
              (pool.mkBackend 2 (bytes "b:1"), 2%nat)]
             ltac:(repeat constructor; cbn; intuition discriminate)
             ltac:(repeat constructor; cbn; intuition discriminate)).
  - cbn. auto.
  - reflexivity.
  - cbn. intuition discriminate.
  - reflexivity.
  - cbn. auto.
  - cbn. discriminate.
  - cbn. lia.
  - reflexivity.
  - exists t1, t2. split; [exact HA|]. split; [exact HR | exact HP].
Defined.
